(** * ai-math: the action dispatcher, the service client and the chat reader

    A shallow embedding of the request/response layer of the math-tutoring
    application:

    - [handler], the serverless dispatcher behind [/api/gemini];
    - [postToAction], [generateInitialData], [solveProblem] and
      [streamChatResponse] of [services/geminiService.ts];
    - the line-buffered stream reader inside [handleSend] of
      [components/Chat.tsx].

    JavaScript strings are sequences of UTF-16 code units, values are the
    JSON-shaped values the program handles, exceptions are explicit results
    and every call on [res], [console], the provider SDK and [fetch] is
    recorded in a journal of effects. *)

From Stdlib Require Import List NArith ZArith Lia Bool String Ascii.
Import ListNotations.

Set Warnings "-register-all,-notation-for-abbreviation".

Local Open Scope N_scope.

(** ** JavaScript strings *)

Definition code_unit := N.
Definition jsstring := list code_unit.

(** A 16-bit code unit, and a string made of such. *)
Definition is_code_unit (c : code_unit) : Prop := c < 65536.
Definition is_jsstring (s : jsstring) : Prop := Forall is_code_unit s.

(** An ASCII literal of the source as a JavaScript string. *)
Definition str (s : string) : jsstring := map N_of_ascii (list_ascii_of_string s).

Fixpoint jsstring_eqb (a b : jsstring) : bool :=
  match a, b with
  | [], [] => true
  | x :: a', y :: b' => (x =? y) && jsstring_eqb a' b'
  | _, _ => false
  end.

Definition LF : code_unit := 10.
Definition QUOTE : code_unit := 34.

(** [WhiteSpace] and [LineTerminator] of ECMAScript: what [String.prototype.trim]
    strips. *)
Definition is_white_space (c : code_unit) : bool :=
  (c =? 9) || (c =? 10) || (c =? 11) || (c =? 12) || (c =? 13) || (c =? 32)
  || (c =? 160) || (c =? 5760) || ((8192 <=? c) && (c <=? 8202))
  || (c =? 8232) || (c =? 8233) || (c =? 8239) || (c =? 8287)
  || (c =? 12288) || (c =? 65279).

Fixpoint trim_start (s : jsstring) : jsstring :=
  match s with
  | c :: s' => if is_white_space c then trim_start s' else s
  | [] => []
  end.

(** [s.trim()] *)
Definition trim (s : jsstring) : jsstring := rev (trim_start (rev (trim_start s))).

(** [s.split(sep)] for a one-unit separator: never empty, the last piece is
    what follows the last separator. *)
Fixpoint split (sep : code_unit) (s : jsstring) : list jsstring :=
  match s with
  | [] => [[]]
  | c :: s' =>
      if c =? sep then [] :: split sep s'
      else match split sep s' with
           | l :: ls => (c :: l) :: ls
           | [] => [[c]]
           end
  end.

(** ** JavaScript values

    The values that reach this program come from JSON texts (request bodies,
    provider output, stream records) or are built from them by object and array
    literals; [VUndefined] is the result of reading an absent property.
    Numbers are IEEE doubles: their type and the operations on them belong to
    the engine (see [Engine]). *)

Inductive value (number : Type) : Type :=
| VUndefined
| VNull
| VBool (b : bool)
| VNum (n : number)
| VStr (s : jsstring)
| VArr (elements : list (value number))
| VObj (fields : list (jsstring * value number)).

Arguments VUndefined {number}.
Arguments VNull {number}.
Arguments VBool {number} b.
Arguments VNum {number} n.
Arguments VStr {number} s.
Arguments VArr {number} elements.
Arguments VObj {number} fields.

(** ** Exceptions *)

(** Where the engine raises a [TypeError] in this program. *)
Inductive type_error_site :=
| ReadOfNullish (base_is_null : bool) (property : jsstring)
| DestructureNullish (base_is_null : bool)
| NotAFunction (property : jsstring)
| NotPrimitive.

Inductive error_name := SyntaxError | TypeError | Error.

(** An error object: [error.name] and [error.message]. *)
Record exn := { name : error_name; message : jsstring }.

(** ** The engine

    What the program takes from its platform and the source does not define:
    the numbers, the wording of the engine's own error messages and
    [JSON.parse], whose result is the parsed value or the message of the
    [SyntaxError] it throws. *)

Class Engine := {
  number : Type;
  number_truthy : number -> bool;
  number_to_string : number -> jsstring;
  number_is_finite : number -> bool;
  type_error_message : type_error_site -> jsstring;
  JSON_parse : jsstring -> jsstring + value number
}.

Notation jsvalue := (value number).

(** ** Computations

    A computation returns a value or throws, and leaves a journal of the
    effects it performed, in order. The type of effects is a parameter: the
    dispatcher and the browser client have their own. *)

Definition M (E A : Type) : Type := list E * (exn + A).

Definition ret {E A} (a : A) : M E A := ([], inr a).
Definition throw {E A} (e : exn) : M E A := ([], inl e).
Definition emit {E} (e : E) : M E unit := ([e], inr tt).

Definition bind {E A B} (m : M E A) (f : A -> M E B) : M E B :=
  match m with
  | (t, inl e) => (t, inl e)
  | (t, inr a) => let (t', r) := f a in (t ++ t', r)
  end.

(** [try { m } catch (error) { h error }] *)
Definition try_catch {E A} (m : M E A) (h : exn -> M E A) : M E A :=
  match m with
  | (t, inl e) => let (t', r) := h e in (t ++ t', r)
  | (t, inr a) => (t, inr a)
  end.

(** A result without effects, as a computation. *)
Definition lift {E A} (r : exn + A) : M E A := ([], r).

Declare Scope js_scope.
Delimit Scope js_scope with js.
Notation "x <- m ;; k" := (bind m (fun x => k))
  (at level 61, m at next level, right associativity) : js_scope.
Notation "m ;; k" := (bind m (fun _ => k))
  (at level 61, right associativity) : js_scope.

Definition journal {E A} (m : M E A) : list E := fst m.
Definition outcome {E A} (m : M E A) : exn + A := snd m.

Local Open Scope js_scope.

(** ** Reading values *)

Definition type_error `{Engine} (site : type_error_site) : exn :=
  {| name := TypeError; message := type_error_message site |}.

Fixpoint lookup {A} (k : jsstring) (fields : list (jsstring * A)) : option A :=
  match fields with
  | [] => None
  | (k', v) :: rest => if jsstring_eqb k' k then Some v else lookup k rest
  end.

(** [v.k] for the property names this program reads ([action], [payload],
    [language], [problem], [image], [mimeType], [data], [prompt], [history],
    [message], [role], [text], [problems], [fact], [error]): none of them is
    inherited from a prototype, so the read is the own property or
    [undefined], and a [TypeError] on [undefined] and [null]. *)
Definition get `{Engine} (v : jsvalue) (k : jsstring) : exn + jsvalue :=
  match v with
  | VUndefined => inl (type_error (ReadOfNullish false k))
  | VNull => inl (type_error (ReadOfNullish true k))
  | VObj fields =>
      inr (match lookup k fields with Some x => x | None => VUndefined end)
  | _ => inr VUndefined
  end.

(** [const { ... } = v]: the check that [v] can be destructured. *)
Definition object_coercible `{Engine} (v : jsvalue) : exn + unit :=
  match v with
  | VUndefined => inl (type_error (DestructureNullish false))
  | VNull => inl (type_error (DestructureNullish true))
  | _ => inr tt
  end.

(** ToBoolean *)
Definition truthy `{Engine} (v : jsvalue) : bool :=
  match v with
  | VUndefined | VNull => false
  | VBool b => b
  | VNum n => number_truthy n
  | VStr s => match s with [] => false | _ => true end
  | VArr _ | VObj _ => true
  end.

Definition has_own {A} (k : jsstring) (fields : list (jsstring * A)) : bool :=
  match lookup k fields with Some _ => true | None => false end.

(** ToString, as string concatenation and template literals apply it. An
    array is joined with commas, [undefined] and [null] elements giving the
    empty string. A parsed object is [[object Object]], unless it has an own
    [toString] property: no parsed value is callable, so the conversion finds
    no usable method and throws. *)
Fixpoint to_string `{Engine} (v : jsvalue) : exn + jsstring :=
  match v with
  | VUndefined => inr (str "undefined")
  | VNull => inr (str "null")
  | VBool true => inr (str "true")
  | VBool false => inr (str "false")
  | VNum n => inr (number_to_string n)
  | VStr s => inr s
  | VArr l =>
      (fix join (l : list jsvalue) : exn + jsstring :=
         match l with
         | [] => inr []
         | x :: l' =>
             match match x with
                   | VUndefined | VNull => inr []
                   | _ => to_string x
                   end with
             | inl e => inl e
             | inr s =>
                 match l' with
                 | [] => inr s
                 | _ => match join l' with
                        | inl e => inl e
                        | inr r => inr (s ++ str "," ++ r)
                        end
                 end
             end
         end) l
  | VObj fields =>
      if has_own (str "toString") fields then inl (type_error NotPrimitive)
      else inr (str "[object Object]")
  end.

(** [a === b] against a string literal of the source. *)
Definition strict_eq_str `{Engine} (v : jsvalue) (lit : jsstring) : bool :=
  match v with
  | VStr s => jsstring_eqb s lit
  | _ => false
  end.

(** ** JSON.stringify *)

Definition is_high_surrogate (c : code_unit) : bool := (55296 <=? c) && (c <=? 56319).
Definition is_low_surrogate (c : code_unit) : bool := (56320 <=? c) && (c <=? 57343).

Definition hex_digit (d : N) : code_unit := if d <? 10 then 48 + d else 87 + d.

(** [\uXXXX], lower-case digits *)
Definition unicode_escape (c : code_unit) : jsstring :=
  [92; 117; hex_digit (c / 4096 mod 16); hex_digit (c / 256 mod 16);
   hex_digit (c / 16 mod 16); hex_digit (c mod 16)].

(** The escape of one code unit that is no part of a surrogate pair. *)
Definition quote_unit (c : code_unit) : jsstring :=
  if c =? 8 then [92; 98]
  else if c =? 9 then [92; 116]
  else if c =? 10 then [92; 110]
  else if c =? 12 then [92; 102]
  else if c =? 13 then [92; 114]
  else if c =? 34 then [92; 34]
  else if c =? 92 then [92; 92]
  else if (c <? 32) || is_high_surrogate c || is_low_surrogate c then unicode_escape c
  else [c].

(** QuoteJSONString without the surrounding quotes: a surrogate pair is kept,
    a lone surrogate is escaped. *)
Fixpoint quote_body (s : jsstring) : jsstring :=
  match s with
  | [] => []
  | c :: s' =>
      if is_high_surrogate c then
        match s' with
        | d :: s'' =>
            if is_low_surrogate d then c :: d :: quote_body s''
            else unicode_escape c ++ quote_body s'
        | [] => unicode_escape c
        end
      else quote_unit c ++ quote_body s'
  end.

Definition quote_json_string (s : jsstring) : jsstring :=
  QUOTE :: quote_body s ++ [QUOTE].

(** [JSON.stringify(v)]: [None] is [undefined]. A member whose value is
    [undefined] is left out of an object and is [null] in an array. *)
Fixpoint JSON_stringify `{Engine} (v : jsvalue) : option jsstring :=
  match v with
  | VUndefined => None
  | VNull => Some (str "null")
  | VBool true => Some (str "true")
  | VBool false => Some (str "false")
  | VNum n => Some (if number_is_finite n then number_to_string n else str "null")
  | VStr s => Some (quote_json_string s)
  | VArr l =>
      Some (str "[" ++
        (fix items (l : list jsvalue) : jsstring :=
           match l with
           | [] => []
           | x :: l' =>
               let s := match JSON_stringify x with Some s => s | None => str "null" end in
               match l' with
               | [] => s
               | _ => s ++ str "," ++ items l'
               end
           end) l ++ str "]")
  | VObj fields =>
      Some (str "{" ++
        (fix members (first : bool) (fs : list (jsstring * jsvalue)) : jsstring :=
           match fs with
           | [] => []
           | (k, x) :: fs' =>
               match JSON_stringify x with
               | Some s =>
                   (if first then [] else str ",") ++
                   quote_json_string k ++ str ":" ++ s ++ members false fs'
               | None => members first fs'
               end
           end) true fields ++ str "}")
  end.

(** ** Constants of the application

    [constants.ts], [types.ts] and the translation table are not part of the
    files modelled here: their values are parameters. *)

Class Constants := {
  SOLVER_SYSTEM_INSTRUCTION : jsstring;
  CHAT_SYSTEM_INSTRUCTION : jsstring;
  (** [ChatRole.USER] and [ChatRole.MODEL] *)
  ChatRole_USER : jsstring;
  ChatRole_MODEL : jsstring
}.

(** ** The provider SDK *)

(** The response schemas handed to the provider ([Type.STRING], [Type.NUMBER],
    [Type.ARRAY] and [Type.OBJECT] of the SDK). *)
Inductive Schema :=
| SString (enum : list jsstring) (nullable : bool) (description : option jsstring)
| SNumber (description : option jsstring)
| SArray (items : Schema) (nullable : bool) (description : option jsstring)
| SObject (properties : list (jsstring * Schema)) (required : list jsstring).

Definition solutionResponseSchema : Schema :=
  SObject
    [ (str "status", SString [str "solved"; str "unsolved"] false None);
      (str "title", SString [] false None);
      (str "classification",
        SString [] false
          (Some (str "The branch of mathematics the problem belongs to (e.g., Algebra, Calculus).")));
      (str "difficulty",
        SString [str "Easy"; str "Medium"; str "Hard"; str "Advanced"] false None);
      (str "difficultyRating", SNumber (Some (str "A numerical rating from 1 to 10.")));
      (str "difficultyJustification",
        SString [] false (Some (str "Justification for the difficulty rating.")));
      (str "keyConcepts",
        SArray (SString [] false None) false
          (Some (str "An array of key mathematical concepts or theorems required.")));
      (str "reasoning",
        SString [] false (Some (str "A high-level overview of the solution approach.")));
      (str "solution", SArray (SString [] false None) true None);
      (str "explanation", SString [] true None);
      (str "alternativeMethods",
        SString [] true (Some (str "A brief description of an alternative solution method.")));
      (str "commonPitfalls",
        SString [] true (Some (str "A brief description of common mistakes."))) ]
    [ str "status"; str "title"; str "classification"; str "difficulty";
      str "difficultyRating"; str "difficultyJustification"; str "keyConcepts";
      str "reasoning" ].

Definition exampleProblemsSchema : Schema :=
  SObject
    [ (str "problems",
        SArray
          (SObject
             [ (str "id", SString [] false None);
               (str "problem", SString [] false None) ]
             [ str "id"; str "problem" ])
          false None) ]
    [ str "problems" ].

Definition mathFactSchema : Schema :=
  SObject
    [ (str "fact",
        SString [] false
          (Some (str "A surprising and fun math fact, explained simply."))) ]
    [ str "fact" ].

Section Dispatcher.

Context {engine : Engine} {constants : Constants}.

Record GenerateContentConfig := {
  systemInstruction : option jsstring;
  responseMimeType : jsstring;
  responseSchema : Schema
}.

Record GenerateContentParameters := {
  model : jsstring;
  contents : jsvalue;
  config : GenerateContentConfig
}.

(** What the dispatcher reads of a provider response or stream chunk: its
    [text], a string, or [undefined] when the response carries no text. *)
Record GenerateContentResponse := { text : option jsstring }.

(** The argument of [ai.chats.create]. *)
Record ChatParameters := {
  chat_model : jsstring;
  chat_systemInstruction : jsstring;
  chat_history : list jsvalue
}.

(** The provider as the dispatcher meets it: [generateContent] resolves with a
    response or rejects; [sendMessageStream] rejects, or resolves with a stream
    that yields chunks and then ends, or fails after them. When both calls of
    a [Promise.all] reject, [left_rejects_first] tells which rejection it
    reports. *)
Record Provider := {
  generateContent : GenerateContentParameters -> exn + GenerateContentResponse;
  sendMessageStream :
    ChatParameters -> jsvalue -> exn + (list GenerateContentResponse * option exn);
  left_rejects_first : bool
}.

(** ** The dispatcher's effects *)

Inductive effect :=
| NewGoogleGenAI (apiKey : jsstring)
| GenerateContent (params : GenerateContentParameters)
| ChatsCreate (params : ChatParameters)
| SendMessageStream (msg : jsvalue)
| ConsoleError (label : jsstring) (error : exn)
| ResStatus (code : N)
| ResJson (body : jsvalue)
| ResSetHeader (header content : jsstring)
| ResWrite (chunk : jsstring)
| ResEnd.

(** A request on the wire of the provider. Building the client
    ([NewGoogleGenAI]) and the chat object ([ChatsCreate]) are local. *)
Definition provider_call (e : effect) : bool :=
  match e with
  | GenerateContent _ | SendMessageStream _ => true
  | _ => false
  end.

Definition provider_calls (t : list effect) : list effect := filter provider_call t.

Definition sdk_use (e : effect) : bool :=
  match e with
  | NewGoogleGenAI _ | GenerateContent _ | ChatsCreate _ | SendMessageStream _ => true
  | _ => false
  end.

(** ** The response the client receives, as the calls on [res] build it *)

Record Response := {
  statusCode : N;
  headers : list (jsstring * jsstring);
  jsonBody : option jsvalue;
  written : list jsstring;
  ended : bool
}.

Definition fresh_response : Response :=
  {| statusCode := 200; headers := []; jsonBody := None; written := []; ended := false |}.

(** [res.headersSent]: the head of the response, status line and headers, goes
    out with the first chunk written or with the end of the response. *)
Definition headersSent (r : Response) : bool :=
  match written r with
  | [] => ended r
  | _ :: _ => true
  end.

(** The [Error] with code [ERR_HTTP_HEADERS_SENT] that setting a header throws
    once the head has gone out. *)
Definition headers_sent_error : exn :=
  {| name := Error; message := str "Cannot set headers after they are sent to the client" |}.

(** What a call on [res] does to the response the client receives. Once the
    head has gone out the status is what was sent, whatever [res.status] sets
    on the object afterwards, and [res.setHeader] and [res.json], which sets
    the content type, throw [headers_sent_error] and change nothing; nothing
    is written after the end. *)
Definition res_step (r : Response) (e : effect) : Response :=
  match e with
  | ResStatus c =>
      if headersSent r then r
      else {| statusCode := c; headers := headers r; jsonBody := jsonBody r;
              written := written r; ended := ended r |}
  | ResSetHeader h v =>
      if headersSent r then r
      else {| statusCode := statusCode r; headers := headers r ++ [(h, v)];
              jsonBody := jsonBody r; written := written r; ended := ended r |}
  | ResJson v =>
      if headersSent r then r
      else {| statusCode := statusCode r; headers := headers r; jsonBody := Some v;
              written := written r; ended := true |}
  | ResWrite s =>
      if ended r then r
      else {| statusCode := statusCode r; headers := headers r; jsonBody := jsonBody r;
              written := written r ++ [s]; ended := ended r |}
  | ResEnd =>
      {| statusCode := statusCode r; headers := headers r; jsonBody := jsonBody r;
         written := written r; ended := true |}
  | _ => r
  end.

Definition response_of (t : list effect) : Response := fold_left res_step t fresh_response.

(** The response the client receives is one JSON document, sent by the first
    [res.json] with the status set before it: nothing was written as a stream
    and no header was set by the dispatcher. *)
Definition json_response (t : list effect) (status : N) (body : jsvalue) : Prop :=
  response_of t =
    {| statusCode := status; headers := []; jsonBody := Some body; written := [];
       ended := true |}.

(** ** The request and its environment *)

Record VercelRequest := { method : jsstring; body : jsvalue }.

(** [process.env] *)
Record Env := { API_KEY : option jsstring }.

(** ** handler *)

Definition error_body (msg : jsstring) : jsvalue := VObj [(str "error", VStr msg)].

(** [language === 'ar' ? 'Arabic' : 'English'] *)
Definition langName (language : jsvalue) : jsstring :=
  if strict_eq_str language (str "ar") then str "Arabic" else str "English".

Definition examples_request (language : jsvalue) : GenerateContentParameters :=
  {| model := str "gemini-2.5-flash";
     contents :=
       VStr (str "Generate 4 diverse and simple math problems suitable for an educational app. Provide a unique id for each. Your response must be in "
             ++ langName language ++ str ".");
     config := {| systemInstruction := None;
                  responseMimeType := str "application/json";
                  responseSchema := exampleProblemsSchema |} |}.

Definition fact_request (language : jsvalue) : GenerateContentParameters :=
  {| model := str "gemini-2.5-flash";
     contents :=
       VStr (str "Provide one surprising and fun math fact of the day. Keep it short and easy to understand. Your response must be in "
             ++ langName language ++ str ".");
     config := {| systemInstruction := None;
                  responseMimeType := str "application/json";
                  responseSchema := mathFactSchema |} |}.

(** [`${instruction}\n\nYou must provide your entire response in ${langName}.`] *)
Definition system_instruction (instruction : jsstring) (language : jsvalue) : jsstring :=
  instruction ++ [LF; LF] ++ str "You must provide your entire response in "
  ++ langName language ++ str ".".

Definition solve_request (contents : jsvalue) (language : jsvalue)
  : GenerateContentParameters :=
  {| model := str "gemini-2.5-flash";
     contents := contents;
     config := {| systemInstruction :=
                    Some (system_instruction SOLVER_SYSTEM_INSTRUCTION language);
                  responseMimeType := str "application/json";
                  responseSchema := solutionResponseSchema |} |}.

(** [await Promise.all([ai.models.generateContent(a), ai.models.generateContent(b)])]:
    both calls are issued, then both results awaited. *)
Definition promise_all (ai : Provider) (a b : GenerateContentParameters)
  : M effect (GenerateContentResponse * GenerateContentResponse) :=
  emit (GenerateContent a) ;;
  emit (GenerateContent b) ;;
  match generateContent ai a, generateContent ai b with
  | inr ra, inr rb => ret (ra, rb)
  | inl ea, inr _ => throw ea
  | inr _, inl eb => throw eb
  | inl ea, inl eb => throw (if left_rejects_first ai then ea else eb)
  end.

(** [response.text.trim()] *)
Definition text_trim (r : GenerateContentResponse) : exn + jsstring :=
  match text r with
  | Some s => inr (trim s)
  | None => inl (type_error (ReadOfNullish false (str "trim")))
  end.

(** [JSON.parse(s)] as a computation. *)
Definition parse (s : jsstring) : exn + jsvalue :=
  match JSON_parse s with
  | inl msg => inl {| name := SyntaxError; message := msg |}
  | inr v => inr v
  end.

Definition case_generateInitialData (ai : Provider) (payload : jsvalue) : M effect unit :=
  lift (object_coercible payload) ;;
  language <- lift (get payload (str "language")) ;;
  responses <- promise_all ai (examples_request language) (fact_request language) ;;
  let (examplesResponse, factResponse) := responses in
  examplesText <- lift (text_trim examplesResponse) ;;
  examplesParsed <- lift (parse examplesText) ;;
  factText <- lift (text_trim factResponse) ;;
  factParsed <- lift (parse factText) ;;
  emit (ResStatus 200) ;;
  problems <- lift (get examplesParsed (str "problems")) ;;
  fact <- lift (get factParsed (str "fact")) ;;
  emit (ResJson (VObj [(str "examples", problems); (str "fact", fact)])).

(** The [contents] of a solve request: the problem itself when it is a string,
    else an image part and a text part. *)
Definition solve_contents (problem : jsvalue) : exn + jsvalue :=
  match problem with
  | VStr _ => inr problem
  | _ =>
      match get problem (str "image") with
      | inl e => inl e
      | inr image =>
          match get image (str "mimeType") with
          | inl e => inl e
          | inr mimeType =>
              match get image (str "data") with
              | inl e => inl e
              | inr data =>
                  match get problem (str "prompt") with
                  | inl e => inl e
                  | inr prompt =>
                      let imagePart :=
                        VObj [(str "inlineData",
                               VObj [(str "mimeType", mimeType); (str "data", data)])] in
                      let textPart := VObj [(str "text", prompt)] in
                      inr (VObj [(str "parts", VArr [imagePart; textPart])])
                  end
              end
          end
      end
  end.

Definition case_solveProblem (ai : Provider) (payload : jsvalue) : M effect unit :=
  lift (object_coercible payload) ;;
  problem <- lift (get payload (str "problem")) ;;
  language <- lift (get payload (str "language")) ;;
  contents <- lift (solve_contents problem) ;;
  emit (GenerateContent (solve_request contents language)) ;;
  response <- lift (generateContent ai (solve_request contents language)) ;;
  emit (ResStatus 200) ;;
  responseText <- lift (text_trim response) ;;
  parsed <- lift (parse responseText) ;;
  emit (ResJson parsed).

(** [msg => ({ role: msg.role, parts: [{ text: msg.text }] })] *)
Definition to_content (msg : jsvalue) : exn + jsvalue :=
  match get msg (str "role") with
  | inl e => inl e
  | inr role =>
      match get msg (str "text") with
      | inl e => inl e
      | inr msg_text =>
          inr (VObj [(str "role", role);
                     (str "parts", VArr [VObj [(str "text", msg_text)]])])
      end
  end.

(** [l.map(f)] for a callback that may throw: the first exception ends it. *)
Fixpoint map_throwing {A B} (f : A -> exn + B) (l : list A) : exn + list B :=
  match l with
  | [] => inr []
  | x :: l' =>
      match f x with
      | inl e => inl e
      | inr y =>
          match map_throwing f l' with
          | inl e => inl e
          | inr ys => inr (y :: ys)
          end
      end
  end.

(** [history.map(...)]: only an array has a [map] method among the values a
    request can carry. *)
Definition geminiHistory (history : jsvalue) : exn + list jsvalue :=
  match history with
  | VArr l => map_throwing to_content l
  | VUndefined => inl (type_error (ReadOfNullish false (str "map")))
  | VNull => inl (type_error (ReadOfNullish true (str "map")))
  | _ => inl (type_error (NotAFunction (str "map")))
  end.

(** [chunk.text] as a value. *)
Definition text_value (chunk : GenerateContentResponse) : jsvalue :=
  match text chunk with
  | Some s => VStr s
  | None => VUndefined
  end.

(** [JSON.stringify({ text: chunk.text }) + '\n'] *)
Definition stream_record (chunk : GenerateContentResponse) : jsstring :=
  match JSON_stringify (VObj [(str "text", text_value chunk)]) with
  | Some s => s
  | None => str "undefined"
  end ++ [LF].

(** [for await (const chunk of stream) { res.write(...) }] over the chunks the
    stream yields. *)
Fixpoint write_chunks (chunks : list GenerateContentResponse) : M effect unit :=
  match chunks with
  | [] => ret tt
  | chunk :: rest => emit (ResWrite (stream_record chunk)) ;; write_chunks rest
  end.

Definition chat_parameters (history : list jsvalue) (language : jsvalue) : ChatParameters :=
  {| chat_model := str "gemini-2.5-flash";
     chat_systemInstruction := system_instruction CHAT_SYSTEM_INSTRUCTION language;
     chat_history := history |}.

Definition case_chat (ai : Provider) (payload : jsvalue) : M effect unit :=
  lift (object_coercible payload) ;;
  history <- lift (get payload (str "history")) ;;
  msg <- lift (get payload (str "message")) ;;
  language <- lift (get payload (str "language")) ;;
  turns <- lift (geminiHistory history) ;;
  emit (ChatsCreate (chat_parameters turns language)) ;;
  emit (SendMessageStream msg) ;;
  stream <- lift (sendMessageStream ai (chat_parameters turns language) msg) ;;
  let (chunks, failure) := stream in
  emit (ResSetHeader (str "Content-Type") (str "text/plain; charset=utf-8")) ;;
  emit (ResSetHeader (str "Transfer-Encoding") (str "chunked")) ;;
  write_chunks chunks ;;
  match failure with
  | Some e => throw e
  | None => emit ResEnd
  end.

(** The [switch (action)] of the [try] block. *)
Definition dispatch (ai : Provider) (action payload : jsvalue) : M effect unit :=
  if strict_eq_str action (str "generateInitialData") then case_generateInitialData ai payload
  else if strict_eq_str action (str "solveProblem") then case_solveProblem ai payload
  else if strict_eq_str action (str "chat") then case_chat ai payload
  else emit (ResStatus 400) ;; emit (ResJson (error_body (str "Invalid action"))).

(** The [catch (error)] block, entered after the calls [before] of the [try]
    block. Inside the [try] block every [res.json] and [res.setHeader] comes
    before anything is sent; here [res.json] may come after records of the
    chat stream have been written, and then it throws: the handler rejects
    with [headers_sent_error]. *)
Definition on_error (action : jsvalue) (before : list effect) (error : exn)
  : M effect unit :=
  label <- lift (to_string action) ;;
  emit (ConsoleError (str "Error in action '" ++ label ++ str "':") error) ;;
  emit (ResStatus 500) ;;
  emit (ResJson (error_body (str "An internal server error occurred: " ++ message error))) ;;
  if headersSent (response_of before) then throw headers_sent_error else ret tt.

(** [!process.env.API_KEY] *)
Definition api_key (env : Env) : option jsstring :=
  match API_KEY env with
  | Some (c :: k) => Some (c :: k)
  | _ => None
  end.

Definition handler (env : Env) (ai : Provider) (req : VercelRequest) : M effect unit :=
  if negb (jsstring_eqb (method req) (str "POST")) then
    emit (ResStatus 405) ;; emit (ResJson (error_body (str "Method Not Allowed")))
  else
    match api_key env with
    | None =>
        emit (ResStatus 500) ;;
        emit (ResJson (error_body (str "API_KEY is not configured on the server.")))
    | Some key =>
        emit (NewGoogleGenAI key) ;;
        lift (object_coercible (body req)) ;;
        action <- lift (get (body req) (str "action")) ;;
        payload <- lift (get (body req) (str "payload")) ;;
        let attempt := dispatch ai action payload in
        try_catch attempt (on_error action (journal attempt))
    end.

End Dispatcher.

(** ** UTF-8 between the dispatcher and the browser

    [res.write(string)] sends the UTF-8 encoding of the string; the chat view
    reads bytes and decodes them with a streaming [TextDecoder]. *)

Definition byte := N.

(** The UTF-8 bytes of a scalar value. *)
Definition utf8_bytes (cp : N) : list byte :=
  if cp <? 128 then [cp]
  else if cp <? 2048 then [192 + cp / 64; 128 + cp mod 64]
  else if cp <? 65536 then [224 + cp / 4096; 128 + cp / 64 mod 64; 128 + cp mod 64]
  else [240 + cp / 262144; 128 + cp / 4096 mod 64; 128 + cp / 64 mod 64;
        128 + cp mod 64].

Definition REPLACEMENT : N := 65533.

(** The encoding of a string: a surrogate pair is one scalar value, a lone
    surrogate becomes U+FFFD. *)
Fixpoint utf8_encode (s : jsstring) : list byte :=
  match s with
  | [] => []
  | c :: s' =>
      if is_high_surrogate c then
        match s' with
        | d :: s'' =>
            if is_low_surrogate d
            then utf8_bytes (65536 + (c - 55296) * 1024 + (d - 56320)) ++ utf8_encode s''
            else utf8_bytes REPLACEMENT ++ utf8_encode s'
        | [] => utf8_bytes REPLACEMENT
        end
      else if is_low_surrogate c then utf8_bytes REPLACEMENT ++ utf8_encode s'
      else utf8_bytes c ++ utf8_encode s'
  end.

(** The state of the UTF-8 decoder of the Encoding Standard. *)
Record utf8_decoder := {
  code_point : N;
  bytes_seen : N;
  bytes_needed : N;
  lower_boundary : N;
  upper_boundary : N
}.

Definition utf8_start : utf8_decoder :=
  {| code_point := 0; bytes_seen := 0; bytes_needed := 0;
     lower_boundary := 128; upper_boundary := 191 |}.

(** A byte met when no sequence is open. *)
Definition decode_lead (b : byte) : utf8_decoder * list N :=
  if b <=? 127 then (utf8_start, [b])
  else if (194 <=? b) && (b <=? 223) then
    ({| code_point := b mod 32; bytes_seen := 0; bytes_needed := 1;
        lower_boundary := 128; upper_boundary := 191 |}, [])
  else if (224 <=? b) && (b <=? 239) then
    ({| code_point := b mod 16; bytes_seen := 0; bytes_needed := 2;
        lower_boundary := if b =? 224 then 160 else 128;
        upper_boundary := if b =? 237 then 159 else 191 |}, [])
  else if (240 <=? b) && (b <=? 244) then
    ({| code_point := b mod 8; bytes_seen := 0; bytes_needed := 3;
        lower_boundary := if b =? 240 then 144 else 128;
        upper_boundary := if b =? 244 then 143 else 191 |}, [])
  else (utf8_start, [REPLACEMENT]).

(** One byte through the decoder: the new state and the code points it gives
    out. A byte that cannot continue the open sequence ends it with U+FFFD and
    is read again as a first byte. *)
Definition decode_byte (d : utf8_decoder) (b : byte) : utf8_decoder * list N :=
  if bytes_needed d =? 0 then decode_lead b
  else if (b <? lower_boundary d) || (upper_boundary d <? b) then
    let (d', out) := decode_lead b in (d', REPLACEMENT :: out)
  else
    let cp := code_point d * 64 + b mod 64 in
    if bytes_seen d + 1 =? bytes_needed d then (utf8_start, [cp])
    else ({| code_point := cp; bytes_seen := bytes_seen d + 1;
             bytes_needed := bytes_needed d;
             lower_boundary := 128; upper_boundary := 191 |}, []).

(** A code point as UTF-16 code units. *)
Definition code_units (cp : N) : jsstring :=
  if cp <? 65536 then [cp]
  else [55296 + (cp - 65536) / 1024; 56320 + (cp - 65536) mod 1024].

(** [new TextDecoder()]: UTF-8, replacement on errors, the byte order mark at
    the start of the stream dropped. *)
Record TextDecoder := { utf8 : utf8_decoder; BOM_seen : bool }.

Definition new_TextDecoder : TextDecoder := {| utf8 := utf8_start; BOM_seen := false |}.

Fixpoint serialize (bom_seen : bool) (cps : list N) : bool * jsstring :=
  match cps with
  | [] => (bom_seen, [])
  | cp :: rest =>
      let (seen, s) := serialize true rest in
      (seen, (if negb bom_seen && (cp =? 65279) then [] else code_units cp) ++ s)
  end.

(** [decoder.decode(value, { stream: true })]: the text decoded from the bytes
    of [value]; an unfinished sequence stays in the decoder. *)
Fixpoint decode (d : TextDecoder) (value : list byte) : TextDecoder * jsstring :=
  match value with
  | [] => (d, [])
  | b :: rest =>
      let (u, cps) := decode_byte (utf8 d) b in
      let (seen, s) := serialize (BOM_seen d) cps in
      let (d', s') := decode {| utf8 := u; BOM_seen := seen |} rest in
      (d', s ++ s')
  end.

(** A non-ASCII literal of the source, given by its UTF-8 bytes. *)
Definition utf8_literal (s : string) : jsstring :=
  snd (decode {| utf8 := utf8_start; BOM_seen := true |}
         (map N_of_ascii (list_ascii_of_string s))).

(** ** The service client of the browser: [services/geminiService.ts] *)

Section Service.

Context {engine : Engine}.

(** The second argument of [fetch]. *)
Record RequestInit := {
  init_method : jsstring;
  init_headers : list (jsstring * jsstring);
  init_body : option jsstring
}.

(** A stream of bytes as its reader meets it: the chunks [read()] resolves
    with, then the end of the stream, or a rejected [read()]. *)
Record ByteStream := { stream_chunks : list (list byte); stream_failure : option exn }.

(** A [Response] of [fetch]: [json] is what [response.json()] settles to and
    [response_body] is [response.body], [None] for [null]. *)
Record FetchResponse := {
  status : N;
  statusText : jsstring;
  json : exn + jsvalue;
  response_body : option ByteStream
}.

(** [response.ok]: the status is in the range 200-299. *)
Definition ok (r : FetchResponse) : bool := (200 <=? status r) && (status r <=? 299).

(** [fetch]: resolves with a response or rejects. *)
Definition Fetch := jsstring -> RequestInit -> exn + FetchResponse.

Inductive client_effect :=
| FetchCall (url : jsstring) (init : RequestInit)
| ConsoleErr (label : jsstring) (detail : option jsstring) (error : exn).

(** What [postToAction] resolves with: the response itself for a chat, the
    parsed body otherwise. *)
Inductive action_result :=
| ResponseObject (r : FetchResponse)
| JsonValue (v : jsvalue).

Definition action_request (action : jsstring) (payload : jsvalue) : RequestInit :=
  {| init_method := str "POST";
     init_headers := [(str "Content-Type", str "application/json")];
     init_body := JSON_stringify (VObj [(str "action", VStr action); (str "payload", payload)]) |}.

Definition postToAction (fetch : Fetch) (action : jsstring) (payload : jsvalue)
  : M client_effect action_result :=
  emit (FetchCall (str "/api/gemini") (action_request action payload)) ;;
  response <- lift (fetch (str "/api/gemini") (action_request action payload)) ;;
  if negb (ok response) then
    let errorBody :=
      match json response with
      | inr v => v
      | inl _ => VObj [(str "error", VStr (str "Failed to parse error response"))]
      end in
    detail <- lift (get errorBody (str "error")) ;;
    detail_text <- lift (to_string detail) ;;
    throw {| name := Error;
             message := str "API Error: " ++ statusText response ++ str " - " ++ detail_text |}
  else if jsstring_eqb action (str "chat") then ret (ResponseObject response)
  else v <- lift (json response) ;; ret (JsonValue v).

Definition is_ar (language : jsstring) : bool := jsstring_eqb language (str "ar").

Definition example_problem (id problem : jsstring) : jsvalue :=
  VObj [(str "id", VStr id); (str "problem", VStr problem)].

(** The offline content of [generateInitialData]. *)
Definition fallback (language : jsstring) : jsvalue :=
  VObj
    [ (str "examples",
        VArr
          [ example_problem (str "fallback-1")
              (if is_ar language then utf8_literal "حل لـ س: 3س - 7 = 5" else str "Solve for x: 3x - 7 = 5");
            example_problem (str "fallback-2")
              (if is_ar language then utf8_literal "ما هي مساحة دائرة نصف قطرها 5؟" else str "What is the area of a circle with a radius of 5?") ]);
      (str "fact",
        VStr (if is_ar language then utf8_literal "الصفر هو العدد الصحيح الوحيد الذي ليس موجبًا ولا سالبًا." else str "Zero is the only integer that is neither positive nor negative.")) ].

Definition generateInitialData (fetch : Fetch) (language : jsstring)
  : M client_effect action_result :=
  try_catch
    (postToAction fetch (str "generateInitialData") (VObj [(str "language", VStr language)]))
    (fun error =>
       emit (ConsoleErr (str "Error generating initial data:") None error) ;;
       ret (JsonValue (fallback language))).

Definition solveProblem (fetch : Fetch) (problem : jsvalue) (language : jsstring)
  : M client_effect action_result :=
  try_catch
    (postToAction fetch (str "solveProblem")
       (VObj [(str "problem", problem); (str "language", VStr language)]))
    (fun error =>
       emit (ConsoleErr (str "Error solving problem:") None error) ;;
       throw {| name := Error;
                message := str "Failed to get a valid response from the AI. Please try again." |}).

(** [response.body] of what [postToAction('chat', ...)] resolved with. *)
Definition body_of (r : action_result) : option ByteStream :=
  match r with
  | ResponseObject response => response_body response
  | JsonValue _ => None
  end.

Definition streamChatResponse (fetch : Fetch) (history : jsvalue) (msg : jsstring)
    (language : jsstring) : M client_effect (option ByteStream) :=
  try_catch
    (response <- postToAction fetch (str "chat")
                   (VObj [(str "history", history); (str "message", VStr msg);
                          (str "language", VStr language)]) ;;
     ret (body_of response))
    (fun error =>
       emit (ConsoleErr (str "Chat error:") None error) ;;
       throw {| name := Error; message := str "Failed to start chat stream." |}).

End Service.

(** ** The chat view: [handleSend] of [components/Chat.tsx] *)

Module Chat.

Section View.

Context {engine : Engine} {constants : Constants}.

Record ChatMessage := { role : jsstring; text : jsstring }.

(** A message as the payload of a request carries it. *)
Definition message_value (m : ChatMessage) : jsvalue :=
  VObj [(str "role", VStr (role m)); (str "text", VStr (text m))].

(** The variables of the read loop: the decoder, the line buffer, the text of
    the answer so far, and the [messages] state of the component. *)
Record Loop := {
  decoder : TextDecoder;
  buffer : jsstring;
  modelResponseText : jsstring;
  messages : list ChatMessage
}.

(** The state update of the loop: the text of the last message, if there is
    one, becomes [t]. *)
Definition set_last_text (t : jsstring) (msgs : list ChatMessage) : list ChatMessage :=
  match rev msgs with
  | [] => []
  | m :: before => rev before ++ [{| role := role m; text := t |}]
  end.

(** The [try] block around one line: parse it, read [chunk.text] and, when it
    is truthy, append it to the answer and show the answer. *)
Definition line_body (st : Loop) (line : jsstring) : exn + Loop :=
  match parse line with
  | inl e => inl e
  | inr chunk =>
      match get chunk (str "text") with
      | inl e => inl e
      | inr chunk_text =>
          if truthy chunk_text then
            match to_string chunk_text with
            | inl e => inl e
            | inr s =>
                let answer := modelResponseText st ++ s in
                inr {| decoder := decoder st; buffer := buffer st;
                       modelResponseText := answer;
                       messages := set_last_text answer (messages st) |}
            end
          else inr st
      end
  end.

(** The body of [for (const line of lines)]: a blank line is passed over, an
    exception of the [try] block is logged and the line dropped. *)
Definition process_line (st : Loop) (line : jsstring) : M client_effect Loop :=
  match trim line with
  | [] => ret st
  | _ =>
      match line_body st line with
      | inr st' => ret st'
      | inl e =>
          emit (ConsoleErr (str "Error parsing JSON chunk from stream:") (Some line) e) ;;
          ret st
      end
  end.

Fixpoint process_lines (st : Loop) (lines : list jsstring) : M client_effect Loop :=
  match lines with
  | [] => ret st
  | line :: rest => st' <- process_line st line ;; process_lines st' rest
  end.

(** One turn of [while (true)] on a chunk that [reader.read()] resolved with. *)
Definition on_chunk (st : Loop) (value : list byte) : M client_effect Loop :=
  let (d, decoded) := decode (decoder st) value in
  let lines := split LF (buffer st ++ decoded) in
  process_lines
    {| decoder := d; buffer := last lines []; modelResponseText := modelResponseText st;
       messages := messages st |}
    (removelast lines).

(** The loop over the chunks of the stream, up to [done]. *)
Fixpoint read_chunks (st : Loop) (chunks : list (list byte)) : M client_effect Loop :=
  match chunks with
  | [] => ret st
  | value :: rest => st' <- on_chunk st value ;; read_chunks st' rest
  end.

(** The state of the component and what it takes from its hooks. *)
Record State := { state_messages : list ChatMessage; input : jsstring; isStreaming : bool }.

(** [prev => [...prev.slice(0, -1), errorMessage]] *)
Definition replace_last (m : ChatMessage) (msgs : list ChatMessage) : list ChatMessage :=
  removelast msgs ++ [m].

(** The [catch] and [finally] blocks: the last message gives way to the error
    message, and streaming is over. [chatError] is [t('chatError')]. *)
Definition fail_chat (chatError : jsstring) (msgs : list ChatMessage) (error : exn)
  : M client_effect State :=
  emit (ConsoleErr (str "Chat error:") None error) ;;
  ret {| state_messages := replace_last {| role := ChatRole_MODEL; text := chatError |} msgs;
         input := []; isStreaming := false |}.

Definition handleSend (fetch : Fetch) (language chatError : jsstring) (s : State)
  : M client_effect State :=
  match trim (input s), isStreaming s with
  | _ :: _, false =>
      let userMessage := {| role := ChatRole_USER; text := input s |} in
      let currentMessages := state_messages s ++ [userMessage] in
      match streamChatResponse fetch (VArr (map message_value currentMessages))
              (input s) language with
      | (t, inl e) => let (t', r) := fail_chat chatError currentMessages e in (t ++ t', r)
      | (t, inr None) =>
          let (t', r) :=
            fail_chat chatError currentMessages
              {| name := Error; message := str "Could not get stream." |} in
          (t ++ t', r)
      | (t, inr (Some stream)) =>
          let modelMessage := {| role := ChatRole_MODEL; text := [] |} in
          let start :=
            {| decoder := new_TextDecoder; buffer := []; modelResponseText := [];
               messages := currentMessages ++ [modelMessage] |} in
          match read_chunks start (stream_chunks stream) with
          | (t', inl e) =>
              let (t'', r) := fail_chat chatError (messages start) e in
              (t ++ t' ++ t'', r)
          | (t', inr st) =>
              match stream_failure stream with
              | Some e =>
                  let (t'', r) := fail_chat chatError (messages st) e in
                  (t ++ t' ++ t'', r)
              | None =>
                  (t ++ t',
                   inr {| state_messages := messages st; input := []; isStreaming := false |})
              end
          end
      end
  | _, _ => ret s
  end.

End View.

End Chat.

(** ** A reference engine

    An engine to run the model on. Its [JSON.parse] reads the JSON grammar
    (RFC 8259): white space, the three literals, numbers, strings with their
    escapes, arrays and objects, a repeated key keeping its last value. Its
    numbers are exact decimals. *)

Module Reference.

(** The decimal [coefficient * 10 ^ exponent10], the exponent negated when
    [exponent_minus] is set and the whole when [minus] is. *)
Record Decimal := { minus : bool; coefficient : N; exponent10 : N; exponent_minus : bool }.

Fixpoint digits_of (fuel : nat) (n : N) (acc : jsstring) : jsstring :=
  match fuel with
  | O => acc
  | S fuel' =>
      if n <? 10 then (48 + n) :: acc
      else digits_of fuel' (n / 10) ((48 + n mod 10) :: acc)
  end.

Definition decimal_digits (n : N) : jsstring := digits_of (S (N.to_nat (N.log2 n))) n [].

Definition show (d : Decimal) : jsstring :=
  (if minus d then str "-" else []) ++ decimal_digits (coefficient d)
  ++ (if exponent10 d =? 0 then []
      else str "e" ++ (if exponent_minus d then str "-" else [])
           ++ decimal_digits (exponent10 d)).

Definition is_json_space (c : code_unit) : bool :=
  (c =? 32) || (c =? 9) || (c =? 10) || (c =? 13).

Fixpoint skip_space (s : jsstring) : jsstring :=
  match s with
  | c :: s' => if is_json_space c then skip_space s' else s
  | [] => []
  end.

Definition is_digit (c : code_unit) : bool := (48 <=? c) && (c <=? 57).

Definition hex_value (c : code_unit) : option N :=
  if is_digit c then Some (c - 48)
  else if (97 <=? c) && (c <=? 102) then Some (c - 87)
  else if (65 <=? c) && (c <=? 70) then Some (c - 55)
  else None.

(** The character an escape letter stands for. *)
Definition escaped (c : code_unit) : option code_unit :=
  if c =? 34 then Some 34
  else if c =? 92 then Some 92
  else if c =? 47 then Some 47
  else if c =? 98 then Some 8
  else if c =? 102 then Some 12
  else if c =? 110 then Some 10
  else if c =? 114 then Some 13
  else if c =? 116 then Some 9
  else None.

(** A string after its opening quote: its content and what follows the
    closing quote. *)
Fixpoint string_body (s : jsstring) : option (jsstring * jsstring) :=
  match s with
  | [] => None
  | c :: s' =>
      if c =? 34 then Some ([], s')
      else if c =? 92 then
        match s' with
        | e :: s'' =>
            if e =? 117 then
              match s'' with
              | h1 :: h2 :: h3 :: h4 :: s3 =>
                  match hex_value h1, hex_value h2, hex_value h3, hex_value h4 with
                  | Some a, Some b, Some c', Some d =>
                      match string_body s3 with
                      | Some (t, rest) => Some ((a * 4096 + b * 256 + c' * 16 + d) :: t, rest)
                      | None => None
                      end
                  | _, _, _, _ => None
                  end
              | _ => None
              end
            else
              match escaped e with
              | Some x =>
                  match string_body s'' with
                  | Some (t, rest) => Some (x :: t, rest)
                  | None => None
                  end
              | None => None
              end
        | [] => None
        end
      else if c <? 32 then None
      else
        match string_body s' with
        | Some (t, rest) => Some (c :: t, rest)
        | None => None
        end
  end.

(** A run of digits: its value, its length and what follows. *)
Fixpoint digit_run (s : jsstring) (acc : N) (len : N) : N * N * jsstring :=
  match s with
  | c :: s' => if is_digit c then digit_run s' (acc * 10 + (c - 48)) (len + 1) else (acc, len, s)
  | [] => (acc, len, [])
  end.

(** The exponent part, if there is one. *)
Definition exponent_part (s : jsstring) : option (bool * N * jsstring) :=
  match s with
  | c :: s' =>
      if (c =? 101) || (c =? 69) then
        let (neg, s1) :=
          match s' with
          | sg :: s'' => if sg =? 45 then (true, s'') else if sg =? 43 then (false, s'') else (false, s')
          | [] => (false, s')
          end in
        match digit_run s1 0 0 with
        | (_, 0, _) => None
        | (e, _, rest) => Some (neg, e, rest)
        end
      else Some (false, 0, s)
  | [] => Some (false, 0, [])
  end.

(** A number: an optional minus, an integer part without a leading zero, an
    optional fraction and an optional exponent. *)
Definition number_literal (s : jsstring) : option (Decimal * jsstring) :=
  let (neg, s0) :=
    match s with
    | c :: s' => if c =? 45 then (true, s') else (false, s)
    | [] => (false, s)
    end in
  match s0 with
  | c :: s1 =>
      if is_digit c then
        let '(int, _, s2) := if c =? 48 then (0, 1, s1) else digit_run s0 0 0 in
        let frac :=
          match s2 with
          | p :: s3 =>
              if p =? 46 then
                match digit_run s3 int 0 with
                | (_, 0, _) => None
                | (m, len, rest) => Some (m, len, rest)
                end
              else Some (int, 0, s2)
          | [] => Some (int, 0, s2)
          end in
        match frac with
        | None => None
        | Some (m, len, s4) =>
            match exponent_part s4 with
            | None => None
            | Some (eneg, e, rest) =>
                (* m * 10 ^ (e' - len), with e' the signed exponent *)
                let d :=
                  if eneg then {| minus := neg; coefficient := m; exponent10 := e + len;
                                  exponent_minus := negb (e + len =? 0) |}
                  else if len <=? e then
                    {| minus := neg; coefficient := m; exponent10 := e - len;
                       exponent_minus := false |}
                  else {| minus := neg; coefficient := m; exponent10 := len - e;
                          exponent_minus := true |} in
                Some (d, rest)
            end
        end
      else None
  | [] => None
  end.

(** [obj[k] = v] on the members read so far. *)
Fixpoint set_member {A} (k : jsstring) (v : A) (fields : list (jsstring * A))
  : list (jsstring * A) :=
  match fields with
  | [] => [(k, v)]
  | (k', v') :: rest =>
      if jsstring_eqb k' k then (k', v) :: rest else (k', v') :: set_member k v rest
  end.

Definition starts_with (p s : jsstring) : option jsstring :=
  if jsstring_eqb (firstn (List.length p) s) p then Some (skipn (List.length p) s) else None.

Fixpoint json_value (fuel : nat) (s : jsstring) {struct fuel}
  : option (value Decimal * jsstring) :=
  match fuel with
  | O => None
  | S fuel' =>
      match skip_space s with
      | [] => None
      | c :: r =>
          if c =? 123 then
            match skip_space r with
            | 125 :: rest => Some (VObj [], rest)
            | _ => json_members fuel' r []
            end
          else if c =? 91 then
            match skip_space r with
            | 93 :: rest => Some (VArr [], rest)
            | _ => json_elements fuel' r []
            end
          else if c =? 34 then
            match string_body r with
            | Some (t, rest) => Some (VStr t, rest)
            | None => None
            end
          else if c =? 110 then
            match starts_with (str "ull") r with
            | Some rest => Some (VNull, rest)
            | None => None
            end
          else if c =? 116 then
            match starts_with (str "rue") r with
            | Some rest => Some (VBool true, rest)
            | None => None
            end
          else if c =? 102 then
            match starts_with (str "alse") r with
            | Some rest => Some (VBool false, rest)
            | None => None
            end
          else
            match number_literal (c :: r) with
            | Some (d, rest) => Some (VNum d, rest)
            | None => None
            end
      end
  end

with json_members (fuel : nat) (s : jsstring) (acc : list (jsstring * value Decimal))
  {struct fuel} : option (value Decimal * jsstring) :=
  match fuel with
  | O => None
  | S fuel' =>
      match skip_space s with
      | 34 :: r =>
          match string_body r with
          | Some (k, r1) =>
              match skip_space r1 with
              | 58 :: r2 =>
                  match json_value fuel' r2 with
                  | Some (v, r3) =>
                      match skip_space r3 with
                      | 44 :: r4 => json_members fuel' r4 (set_member k v acc)
                      | 125 :: rest => Some (VObj (set_member k v acc), rest)
                      | _ => None
                      end
                  | None => None
                  end
              | _ => None
              end
          | None => None
          end
      | _ => None
      end
  end

with json_elements (fuel : nat) (s : jsstring) (acc : list (value Decimal))
  {struct fuel} : option (value Decimal * jsstring) :=
  match fuel with
  | O => None
  | S fuel' =>
      match json_value fuel' s with
      | Some (v, r1) =>
          match skip_space r1 with
          | 44 :: r2 => json_elements fuel' r2 (acc ++ [v])
          | 93 :: rest => Some (VArr (acc ++ [v]), rest)
          | _ => None
          end
      | None => None
      end
  end.

(** The whole text is one value, with white space around it at most. *)
Definition json_text (s : jsstring) : option (value Decimal) :=
  match json_value (2 * List.length s + 2) s with
  | Some (v, rest) => match skip_space rest with [] => Some v | _ => None end
  | None => None
  end.

Definition engine : Engine :=
  {| number := Decimal;
     number_truthy := fun d => negb (coefficient d =? 0);
     number_to_string := show;
     number_is_finite := fun _ => true;
     type_error_message := fun site =>
       match site with
       | ReadOfNullish _ p => str "Cannot read properties of a nullish value: " ++ p
       | DestructureNullish _ => str "Cannot destructure a nullish value"
       | NotAFunction p => p ++ str " is not a function"
       | NotPrimitive => str "Cannot convert object to primitive value"
       end;
     JSON_parse := fun s =>
       match json_text s with
       | Some v => inr v
       | None => inl (str "Unexpected token in JSON")
       end |}.

Definition constants : Constants :=
  {| SOLVER_SYSTEM_INSTRUCTION := str "You are a math solver.";
     CHAT_SYSTEM_INSTRUCTION := str "You are a math tutor.";
     ChatRole_USER := str "user";
     ChatRole_MODEL := str "model" |}.

End Reference.

(** ** Notions of the specification about the dispatcher *)

Section DispatcherSpec.

Context {engine : Engine} {constants : Constants}.

(** [v.k] where the read cannot throw. *)
Definition field (v : jsvalue) (k : jsstring) : jsvalue :=
  match get v k with
  | inr x => x
  | inl _ => VUndefined
  end.

Definition is_object (v : jsvalue) : Prop := exists fields, v = VObj fields.

(** The provider-native turn of a history record, in the words of the
    specification: [{ role: history[i].role, parts: [{ text: history[i].text }] }]. *)
Definition spec_turn (m : jsvalue) : jsvalue :=
  VObj [(str "role", field m (str "role"));
        (str "parts", VArr [VObj [(str "text", field m (str "text"))]])].

(** The arguments of the [ai.chats.create] calls of a journal. *)
Fixpoint chats_created (t : list effect) : list ChatParameters :=
  match t with
  | [] => []
  | ChatsCreate p :: rest => p :: chats_created rest
  | _ :: rest => chats_created rest
  end.

(** The arguments of the [generateContent] calls of a journal. *)
Fixpoint generated (t : list effect) : list GenerateContentParameters :=
  match t with
  | [] => []
  | GenerateContent p :: rest => p :: generated rest
  | _ :: rest => generated rest
  end.

(** The stream a chat request obtains from the provider, or the exception
    that keeps it from streaming: everything the [chat] case does before it
    sets the first header. *)
Definition open_stream (ai : Provider) (payload : jsvalue)
  : exn + (list GenerateContentResponse * option exn) :=
  match object_coercible payload with
  | inl e => inl e
  | inr _ =>
      match geminiHistory (field payload (str "history")) with
      | inl e => inl e
      | inr turns =>
          sendMessageStream ai
            (chat_parameters turns (field payload (str "language")))
            (field payload (str "message"))
      end
  end.

(** A [text/plain] chunked stream of the given records, ended. *)
Definition stream_response (records : list jsstring) : Response :=
  {| statusCode := 200;
     headers := [(str "Content-Type", str "text/plain; charset=utf-8");
                 (str "Transfer-Encoding", str "chunked")];
     jsonBody := None;
     written := records;
     ended := true |}.

(** The record of a text delta: [{"text":"..."}], the text quoted. *)
Definition text_record (delta : jsstring) : jsstring :=
  str "{" ++ quote_json_string (str "text") ++ str ":" ++ quote_json_string delta ++ str "}".

(** The body of the 500 response for a caught error. *)
Definition internal_error (e : exn) : jsvalue :=
  error_body (str "An internal server error occurred: " ++ message e).

(** The bodies of the [res.json] calls of a journal. *)
Fixpoint json_calls (t : list effect) : list jsvalue :=
  match t with
  | [] => []
  | ResJson b :: rest => b :: json_calls rest
  | _ :: rest => json_calls rest
  end.

(** The chat stream of a request broke after a record had been written: the
    one case in which the [catch] block meets a response whose head has gone
    out. *)
Definition stream_broke (env : Env) (ai : Provider) (req : VercelRequest) : Prop :=
  method req = str "POST"
  /\ api_key env <> None
  /\ field (body req) (str "action") = VStr (str "chat")
  /\ exists c chunks e,
       open_stream ai (field (body req) (str "payload")) = inr (c :: chunks, Some e).

End DispatcherSpec.

(** ** Notions of the specification about the service client *)

Section ServiceSpec.

Context {engine : Engine}.

(** Offline content: two example problems and a fact. *)
Definition offline_content (first second fact : jsstring) : jsvalue :=
  VObj
    [ (str "examples",
        VArr [ example_problem (str "fallback-1") first;
               example_problem (str "fallback-2") second ]);
      (str "fact", VStr fact) ].

Definition arabic_content : jsvalue :=
  offline_content (utf8_literal "حل لـ س: 3س - 7 = 5") (utf8_literal "ما هي مساحة دائرة نصف قطرها 5؟") (utf8_literal "الصفر هو العدد الصحيح الوحيد الذي ليس موجبًا ولا سالبًا.").

Definition english_content : jsvalue :=
  offline_content (str "Solve for x: 3x - 7 = 5") (str "What is the area of a circle with a radius of 5?") (str "Zero is the only integer that is neither positive nor negative.").

(** The error [solveProblem] throws. *)
Definition solve_failure : exn :=
  {| name := Error;
     message := str "Failed to get a valid response from the AI. Please try again." |}.

End ServiceSpec.

(** ** Notions of the specification about the chat stream *)

(** The decoder between two characters, past the start of the stream. *)
Definition between : TextDecoder := {| utf8 := utf8_start; BOM_seen := true |}.

Definition is_surrogate (c : code_unit) : bool :=
  is_high_surrogate c || is_low_surrogate c.

(** A string without lone surrogates: UTF-8 encodes it without loss. *)
Inductive well_formed : jsstring -> Prop :=
| wf_nil : well_formed []
| wf_unit : forall c s, is_surrogate c = false -> well_formed s -> well_formed (c :: s)
| wf_pair : forall h l s,
    is_high_surrogate h = true -> is_low_surrogate l = true -> well_formed s ->
    well_formed (h :: l :: s).

(** The text of a stream of lines, each ended by a newline. *)
Definition join_lines (lines : list jsstring) : jsstring :=
  List.concat (map (fun l => l ++ [LF]) lines).

(** The text of the chat stream for the given deltas, and its bytes as the
    dispatcher writes them, record by record. *)
Definition wire (deltas : list jsstring) : jsstring := join_lines (map text_record deltas).

Definition wire_bytes (deltas : list jsstring) : list byte :=
  List.concat (map (fun d => utf8_encode (text_record d ++ [LF])) deltas).

(** A code unit that may stand in a line as it is: 16 bits, no surrogate and
    no newline. *)
Definition plain (c : code_unit) : Prop :=
  c < 65536 /\ is_surrogate c = false /\ c <> LF.

(** A text that crosses the wire unharmed and stays on one line. *)
Definition line_safe (s : jsstring) : Prop :=
  well_formed s /\ is_jsstring s /\ ~ In LF s.

(** Euclidean division by constants, for [lia]. *)
Ltac euclid := zify; Z.to_euclidean_division_equations; lia.

(** The loop's variables after a record that carries the text [delta]: an
    empty text is not truthy and changes nothing. *)
Definition show_delta (st : Chat.Loop) (delta : jsstring) : Chat.Loop :=
  match delta with
  | [] => st
  | _ =>
      {| Chat.decoder := Chat.decoder st;
         Chat.buffer := Chat.buffer st;
         Chat.modelResponseText := Chat.modelResponseText st ++ delta;
         Chat.messages :=
           Chat.set_last_text (Chat.modelResponseText st ++ delta) (Chat.messages st) |}
  end.

(** The answer so far is the text of the last message, the one the view
    shows for the model. *)
Definition shown (before : list Chat.ChatMessage) (speaker : jsstring) (st : Chat.Loop)
  : Prop :=
  Chat.messages st =
    before ++ [{| Chat.role := speaker; Chat.text := Chat.modelResponseText st |}].

(** The loop's variables before the first [read()]. *)
Definition loop_start (msgs : list Chat.ChatMessage) : Chat.Loop :=
  {| Chat.decoder := new_TextDecoder; Chat.buffer := [];
     Chat.modelResponseText := []; Chat.messages := msgs |}.

(** A record that [JSON.parse] reads back as [{ text: delta }]: what makes it
    a well-formed record of the stream. *)
Definition reads_back `{Engine} (delta : jsstring) : Prop :=
  JSON_parse (text_record delta) = inr (VObj [(str "text", VStr delta)]).

(** ** Sample requests and providers, on the reference engine *)

Module Scenario.

#[local] Existing Instance Reference.engine.
#[local] Existing Instance Reference.constants.

Definition key : jsstring := str "secret".
Definition configured : Env := {| API_KEY := Some key |}.
Definition unconfigured : Env := {| API_KEY := None |}.

Definition unavailable : exn := {| name := Error; message := str "provider unavailable" |}.

(** A provider that rejects every call. *)
Definition offline : Provider :=
  {| generateContent := fun _ => inl unavailable;
     sendMessageStream := fun _ _ => inl unavailable;
     left_rejects_first := true |}.

(** A provider that answers every [generateContent] with the same text and
    every chat message with the same chunks. *)
Definition canned (answer : jsstring) (deltas : list jsstring) : Provider :=
  {| generateContent := fun _ => inr {| text := Some answer |};
     sendMessageStream := fun _ _ => inr (map (fun d => {| text := Some d |}) deltas, None);
     left_rejects_first := true |}.

Definition request (verb action : jsstring) (payload : jsvalue) : VercelRequest :=
  {| method := verb;
     body := VObj [(str "action", VStr action); (str "payload", payload)] |}.

Definition english : jsvalue := VObj [(str "language", VStr (str "en"))].

(** [ {"problems":[],"fact":"pi"}], with white space around it. *)
Definition seed_text : jsstring :=
  str " {" ++ [QUOTE] ++ str "problems" ++ [QUOTE] ++ str ":[]," ++ [QUOTE] ++ str "fact"
  ++ [QUOTE] ++ str ":" ++ [QUOTE] ++ str "pi" ++ [QUOTE] ++ str "}" ++ [LF].

Definition seed_body : jsvalue :=
  VObj [(str "examples", VArr []); (str "fact", VStr (str "pi"))].

Definition garbled : jsstring := str "Sure! Here is the JSON you asked for".

Definition sum_problem : jsvalue :=
  VObj [(str "problem", VStr (str "2 + 2")); (str "language", VStr (str "en"))].

Definition question : jsvalue :=
  VObj [(str "history",
          VArr [VObj [(str "role", VStr (str "user")); (str "text", VStr (str "2 + 2"))];
                VObj [(str "role", VStr (str "model")); (str "text", VStr (str "4"))]]);
        (str "message", VStr (str "why?"));
        (str "language", VStr (str "en"))].

Definition history_records : list jsvalue :=
  [VObj [(str "role", VStr (str "user")); (str "text", VStr (str "2 + 2"))];
   VObj [(str "role", VStr (str "model")); (str "text", VStr (str "4"))]].

Definition greeting : list jsstring := [str "Hel"; str "lo"; utf8_literal "، مرحبا"].

(** The loop's variables when the first chunk arrives. *)
Definition waiting : Chat.Loop :=
  {| Chat.decoder := new_TextDecoder;
     Chat.buffer := [];
     Chat.modelResponseText := [];
     Chat.messages :=
       [ {| Chat.role := str "user"; Chat.text := str "why?" |};
         {| Chat.role := str "model"; Chat.text := [] |} ] |}.

(** A list cut into pieces of [S n] elements. *)
Fixpoint pieces {A} (fuel n : nat) (l : list A) : list (list A) :=
  match fuel, l with
  | O, _ | _, [] => []
  | S fuel', _ => firstn (S n) l :: pieces fuel' n (skipn (S n) l)
  end.

(** The bytes of the stream for [greeting], as the dispatcher writes them,
    arriving seven at a time: records and characters are cut anywhere. *)
Definition greeting_bytes : list byte :=
  List.concat (map utf8_encode
                 (map stream_record (map (fun d => {| text := Some d |}) greeting))).

Definition greeting_chunks : list (list byte) :=
  pieces (List.length greeting_bytes) 6 greeting_bytes.

(** A network that is down. *)
Definition no_network : Fetch := fun _ _ => inl unavailable.

(** A backend that answers every request with the same status and body. *)
Definition backend (code : N) (reason : jsstring) (answer : exn + jsvalue)
    (stream : option ByteStream) : Fetch :=
  fun _ _ => inr {| status := code; statusText := reason; json := answer;
                    response_body := stream |}.

End Scenario.

(** ** More sample requests and providers *)

Module Cases.

#[local] Existing Instance Reference.engine.
#[local] Existing Instance Reference.constants.

(** A provider whose chat stream yields the given texts and then fails. *)
Definition breaking (deltas : list jsstring) : Provider :=
  {| generateContent := fun _ => inl Scenario.unavailable;
     sendMessageStream :=
       fun _ _ => inr (map (fun d => {| text := Some d |}) deltas, Some Scenario.unavailable);
     left_rejects_first := true |}.

(** A provider whose chat stream yields the given chunks, with or without a
    text. *)
Definition streaming (chunks : list (option jsstring)) : Provider :=
  {| generateContent := fun _ => inl Scenario.unavailable;
     sendMessageStream := fun _ _ => inr (map (fun t => {| text := t |}) chunks, None);
     left_rejects_first := true |}.

(** [{"title":"Sum"}] *)
Definition solution_text : jsstring :=
  str "{" ++ [QUOTE] ++ str "title" ++ [QUOTE] ++ str ":" ++ [QUOTE] ++ str "Sum" ++ [QUOTE]
  ++ str "}".

Definition solution : jsvalue := VObj [(str "title", VStr (str "Sum"))].

(** A solve request without a problem. *)
Definition no_problem : jsvalue := VObj [(str "language", VStr (str "en"))].

Definition empty_key : Env := {| API_KEY := Some [] |}.

(** A view with one exchange shown and a question typed. *)
Definition asking : Chat.State :=
  {| Chat.state_messages :=
       [ {| Chat.role := ChatRole_USER; Chat.text := str "2 + 2" |};
         {| Chat.role := ChatRole_MODEL; Chat.text := str "4" |} ];
     Chat.input := str "why?";
     Chat.isStreaming := false |}.

(** Chunks of the provider, the second one without a text. *)
Definition mixed : list (option jsstring) := [Some (str "Hel"); None; Some (str "lo")].

(** The bytes of the stream for [mixed], arriving five at a time. *)
Definition mixed_bytes : list byte :=
  List.concat (map utf8_encode (map stream_record (map (fun t => {| text := t |}) mixed))).

Definition mixed_chunks : list (list byte) :=
  Scenario.pieces (List.length mixed_bytes) 4 mixed_bytes.

(** A record that is not ended by a line feed, in two chunks. *)
Definition half_record : list (list byte) :=
  [utf8_encode (str "{"); utf8_encode (quote_json_string (str "text") ++ str ":1}")].

(** A stream that breaks after the records of a greeting. *)
Definition broken : ByteStream :=
  {| stream_chunks := Scenario.greeting_chunks;
     stream_failure := Some Scenario.unavailable |}.

(** A chat request whose history has a hole. *)
Definition holed : jsvalue :=
  VObj [(str "history",
          VArr [VObj [(str "role", VStr (str "user")); (str "text", VStr (str "2 + 2"))];
                VNull]);
        (str "message", VStr (str "why?"));
        (str "language", VStr (str "en"))].

(** The request for example problems, told by its schema. *)
Definition asks_for_problems (p : GenerateContentParameters) : bool :=
  match responseSchema (config p) with
  | SObject properties _ => has_own (str "problems") properties
  | _ => false
  end.

(** A provider that answers the request for example problems with prose and
    rejects every other call. *)
Definition prose_then_down : Provider :=
  {| generateContent :=
       fun p => if asks_for_problems p then inr {| text := Some Scenario.garbled |}
                else inl Scenario.unavailable;
     sendMessageStream := fun _ _ => inl Scenario.unavailable;
     left_rejects_first := true |}.

(** The body of a 200 answer made from texts that hold neither member. *)
Definition hollow_body : jsvalue :=
  VObj [(str "examples", VUndefined); (str "fact", VUndefined)].

End Cases.

(** ** Further notions about the service client and the chat view *)

Section ClientSpec.

Context {engine : Engine} {constants : Constants}.

(** The requests of a journal of the browser. *)
Fixpoint fetches (t : list client_effect) : list (jsstring * RequestInit) :=
  match t with
  | [] => []
  | FetchCall url init :: rest => (url, init) :: fetches rest
  | ConsoleErr _ _ _ :: rest => fetches rest
  end.

(** The error of a response that is not 2xx, with the detail given. *)
Definition api_error (response : FetchResponse) (detail : jsstring) : exn :=
  {| name := Error;
     message := str "API Error: " ++ statusText response ++ str " - " ++ detail |}.

(** The error [streamChatResponse] throws. *)
Definition chat_start_failure : exn :=
  {| name := Error; message := str "Failed to start chat stream." |}.

(** The payload of the chat request [handleSend] makes from a state. *)
Definition chat_payload (language : jsstring) (s : Chat.State) : jsvalue :=
  VObj [(str "history",
          VArr (map Chat.message_value
                  (Chat.state_messages s
                   ++ [{| Chat.role := ChatRole_USER; Chat.text := Chat.input s |}])));
        (str "message", VStr (Chat.input s));
        (str "language", VStr language)].

(** The message of the user and the message shown for a failed chat. *)
Definition user_message (s : Chat.State) : Chat.ChatMessage :=
  {| Chat.role := ChatRole_USER; Chat.text := Chat.input s |}.

Definition error_message (chatError : jsstring) : Chat.ChatMessage :=
  {| Chat.role := ChatRole_MODEL; Chat.text := chatError |}.

(** The loop's variables with another decoder and buffer. *)
Definition with_io (d : TextDecoder) (b : jsstring) (st : Chat.Loop) : Chat.Loop :=
  {| Chat.decoder := d; Chat.buffer := b;
     Chat.modelResponseText := Chat.modelResponseText st;
     Chat.messages := Chat.messages st |}.

(** The text a chunk of the provider adds to the answer. *)
Definition delta_of (chunk : GenerateContentResponse) : jsstring :=
  match text chunk with
  | Some s => s
  | None => []
  end.

(** [disabled] of the send button: [!isEnabled || isStreaming || !input.trim()]. *)
Definition send_disabled (isEnabled : bool) (s : Chat.State) : bool :=
  negb isEnabled || Chat.isStreaming s || negb (truthy (VStr (trim (Chat.input s)))).

(** The decoder is inside a sequence that cannot end in an ASCII character:
    what is still to come makes the code point 128 or more. *)
Definition no_overlong (d : utf8_decoder) : Prop :=
  bytes_needed d = 0
  \/ (128 <= lower_boundary d /\ upper_boundary d <= 191
      /\ ((bytes_seen d + 1 = bytes_needed d /\ 2 <= code_point d)
          \/ (bytes_seen d + 2 = bytes_needed d
              /\ (1 <= code_point d \/ 160 <= lower_boundary d))
          \/ (bytes_seen d + 3 = bytes_needed d
              /\ (1 <= code_point d \/ 144 <= lower_boundary d)))).

(** A computation with its result mapped. *)
Definition on_result {E A B} (f : A -> B) (m : M E A) : M E B :=
  (fst m, match snd m with inl e => inl e | inr a => inr (f a) end).

(** The line of the record the dispatcher writes for a chunk. *)
Definition record_line (chunk : GenerateContentResponse) : jsstring :=
  match text chunk with
  | Some s => text_record s
  | None => str "{}"
  end.

End ClientSpec.

(** Boolean tests on numbers among the hypotheses, as propositions. *)
Ltac eqb_facts :=
  repeat match goal with
         | H : (_ =? _) = true |- _ => apply N.eqb_eq in H
         | H : (_ =? _) = false |- _ => apply N.eqb_neq in H
         end.

(** * Properties *)

(** ** Strings and values *)

Lemma jsstring_eqb_eq : forall a b, jsstring_eqb a b = true <-> a = b.
Proof.
  induction a as [|x a IH]; destruct b as [|y b]; simpl; split; intro H;
    try reflexivity; try discriminate.
  - apply andb_true_iff in H. destruct H as [Hx Hab].
    apply N.eqb_eq in Hx. apply IH in Hab. now subst.
  - inversion H; subst. rewrite N.eqb_refl. simpl. now apply IH.
Qed.

Lemma jsstring_eqb_neq : forall a b, jsstring_eqb a b = false <-> a <> b.
Proof.
  intros a b. split; intro H.
  - intro E. apply jsstring_eqb_eq in E. congruence.
  - destruct (jsstring_eqb a b) eqn:E; [|reflexivity].
    apply jsstring_eqb_eq in E. contradiction.
Qed.

Section ValueFacts.

Context {engine : Engine}.

Lemma coercible_get : forall v k, object_coercible v = inr tt -> get v k = inr (field v k).
Proof. intros v k H. unfold field. destruct v; simpl in *; try reflexivity; discriminate. Qed.

Lemma strict_eq_str_true : forall v lit, strict_eq_str v lit = true <-> v = VStr lit.
Proof.
  intros v lit. destruct v; simpl; split; intro H; try discriminate.
  - apply jsstring_eqb_eq in H. now subst.
  - inversion H; subst. now apply jsstring_eqb_eq.
Qed.

Lemma strict_eq_str_false : forall v lit, strict_eq_str v lit = false <-> v <> VStr lit.
Proof.
  intros v lit. split; intro H.
  - intro E. apply strict_eq_str_true in E. congruence.
  - destruct (strict_eq_str v lit) eqn:E; [|reflexivity].
    apply strict_eq_str_true in E. contradiction.
Qed.

End ValueFacts.

(** ** The dispatcher *)

Section DispatcherFacts.

Context {engine : Engine} {constants : Constants}.

(** The four ways through the head of [handler]. *)
Lemma handler_not_post :
  forall env ai req,
    method req <> str "POST" ->
    handler env ai req =
      ([ResStatus 405; ResJson (error_body (str "Method Not Allowed"))], inr tt).
Proof.
  intros env ai req Hm. apply jsstring_eqb_neq in Hm.
  unfold handler. now rewrite Hm.
Qed.

Lemma handler_no_key :
  forall env ai req,
    method req = str "POST" ->
    api_key env = None ->
    handler env ai req =
      ([ResStatus 500;
        ResJson (error_body (str "API_KEY is not configured on the server."))], inr tt).
Proof.
  intros env ai req Hm Hk. apply jsstring_eqb_eq in Hm.
  unfold handler. now rewrite Hm, Hk.
Qed.

Lemma handler_no_body :
  forall env ai req key e,
    method req = str "POST" ->
    api_key env = Some key ->
    object_coercible (body req) = inl e ->
    handler env ai req = ([NewGoogleGenAI key], inl e).
Proof.
  intros env ai req key e Hm Hk Hb. apply jsstring_eqb_eq in Hm.
  unfold handler. rewrite Hm, Hk, Hb. reflexivity.
Qed.

Lemma handler_dispatches :
  forall env ai req key,
    method req = str "POST" ->
    api_key env = Some key ->
    object_coercible (body req) = inr tt ->
    handler env ai req =
      (let action := field (body req) (str "action") in
       let payload := field (body req) (str "payload") in
       (NewGoogleGenAI key
          :: journal (try_catch (dispatch ai action payload)
                        (on_error action (journal (dispatch ai action payload)))),
        outcome (try_catch (dispatch ai action payload)
                   (on_error action (journal (dispatch ai action payload)))))).
Proof.
  intros env ai req key Hm Hk Hb. apply jsstring_eqb_eq in Hm.
  unfold handler. rewrite Hm, Hk, Hb.
  rewrite !(coercible_get _ _ Hb).
  unfold bind, lift, emit, journal, outcome. simpl.
  destruct (try_catch _ _); reflexivity.
Qed.

Lemma on_error_string :
  forall a before e,
    on_error (VStr a) before e =
      ([ConsoleError (str "Error in action '" ++ a ++ str "':") e;
        ResStatus 500; ResJson (internal_error e)],
       if headersSent (response_of before) then inl headers_sent_error else inr tt).
Proof.
  intros a before e. unfold on_error, bind, lift, emit, throw, ret. cbn [to_string].
  destruct (headersSent (response_of before)); reflexivity.
Qed.

Lemma write_chunks_journal :
  forall chunks,
    write_chunks chunks = (map (fun c => ResWrite (stream_record c)) chunks, inr tt).
Proof.
  induction chunks as [|c cs IH]; [reflexivity|].
  simpl. unfold bind, emit. now rewrite IH.
Qed.

(** The [chat] case, step by step. *)
Lemma case_chat_eq :
  forall ai payload,
    case_chat ai payload =
      match object_coercible payload with
      | inl e => ([], inl e)
      | inr _ =>
          match geminiHistory (field payload (str "history")) with
          | inl e => ([], inl e)
          | inr turns =>
              let p := chat_parameters turns (field payload (str "language")) in
              let msg := field payload (str "message") in
              match sendMessageStream ai p msg with
              | inl e => ([ChatsCreate p; SendMessageStream msg], inl e)
              | inr (chunks, failure) =>
                  ([ChatsCreate p; SendMessageStream msg;
                    ResSetHeader (str "Content-Type") (str "text/plain; charset=utf-8");
                    ResSetHeader (str "Transfer-Encoding") (str "chunked")]
                   ++ map (fun c => ResWrite (stream_record c)) chunks
                   ++ match failure with None => [ResEnd] | Some _ => [] end,
                   match failure with None => inr tt | Some e => inl e end)
              end
          end
      end.
Proof.
  intros ai payload. unfold case_chat.
  destruct (object_coercible payload) as [e|[]] eqn:Hc; [reflexivity|].
  rewrite !(coercible_get _ _ Hc).
  unfold bind at 1 2 3 4. unfold lift at 1 2 3 4. cbv iota beta.
  destruct (geminiHistory _) as [e|turns]; [reflexivity|].
  unfold lift at 1. unfold bind at 1. cbv iota beta.
  unfold bind at 1. unfold emit at 1. cbv iota beta.
  unfold bind at 1. unfold emit at 1. cbv iota beta.
  unfold bind at 1. unfold lift at 1. cbv iota beta.
  destruct (sendMessageStream _ _ _) as [e|[chunks failure]]; [reflexivity|].
  unfold bind, emit. rewrite write_chunks_journal.
  destruct failure; simpl; rewrite ?app_nil_r; reflexivity.
Qed.


Lemma dispatch_generateInitialData :
  forall ai payload,
    dispatch ai (VStr (str "generateInitialData")) payload = case_generateInitialData ai payload.
Proof. reflexivity. Qed.

Lemma dispatch_solveProblem :
  forall ai payload,
    dispatch ai (VStr (str "solveProblem")) payload = case_solveProblem ai payload.
Proof. reflexivity. Qed.

Lemma dispatch_chat :
  forall ai payload, dispatch ai (VStr (str "chat")) payload = case_chat ai payload.
Proof. reflexivity. Qed.

Lemma dispatch_default :
  forall ai action payload,
    action <> VStr (str "generateInitialData") ->
    action <> VStr (str "solveProblem") ->
    action <> VStr (str "chat") ->
    dispatch ai action payload =
      ([ResStatus 400; ResJson (error_body (str "Invalid action"))], inr tt).
Proof.
  intros ai action payload H1 H2 H3. unfold dispatch.
  apply strict_eq_str_false in H1, H2, H3. now rewrite H1, H2, H3.
Qed.

(** The [generateInitialData] case, step by step. *)
Lemma case_generateInitialData_eq :
  forall ai payload,
    case_generateInitialData ai payload =
      match object_coercible payload with
      | inl e => ([], inl e)
      | inr _ =>
          let a := examples_request (field payload (str "language")) in
          let b := fact_request (field payload (str "language")) in
          let calls := [GenerateContent a; GenerateContent b] in
          match generateContent ai a, generateContent ai b with
          | inl ea, inl eb => (calls, inl (if left_rejects_first ai then ea else eb))
          | inl ea, inr _ => (calls, inl ea)
          | inr _, inl eb => (calls, inl eb)
          | inr ra, inr rb =>
              match text_trim ra with
              | inl e => (calls, inl e)
              | inr ta =>
                  match parse ta with
                  | inl e => (calls, inl e)
                  | inr va =>
                      match text_trim rb with
                      | inl e => (calls, inl e)
                      | inr tb =>
                          match parse tb with
                          | inl e => (calls, inl e)
                          | inr vb =>
                              match get va (str "problems") with
                              | inl e => (calls ++ [ResStatus 200], inl e)
                              | inr problems =>
                                  match get vb (str "fact") with
                                  | inl e => (calls ++ [ResStatus 200], inl e)
                                  | inr fact =>
                                      (calls ++
                                       [ResStatus 200;
                                        ResJson (VObj [(str "examples", problems);
                                                       (str "fact", fact)])],
                                       inr tt)
                                  end
                              end
                          end
                      end
                  end
              end
          end
      end.
Proof.
  intros ai payload. unfold case_generateInitialData.
  destruct (object_coercible payload) as [e|[]] eqn:Hc; [reflexivity|].
  rewrite (coercible_get _ _ Hc).
  unfold promise_all, bind, lift, emit, ret, throw. simpl.
  destruct (generateContent ai (examples_request _)) as [ea|ra];
    destruct (generateContent ai (fact_request _)) as [eb|rb]; try reflexivity.
  simpl.
  destruct (text_trim ra); [reflexivity|].
  destruct (parse _); [reflexivity|].
  destruct (text_trim rb); [reflexivity|].
  destruct (parse _); [reflexivity|].
  destruct (get _ (str "problems")); [reflexivity|].
  destruct (get _ (str "fact")); reflexivity.
Qed.

(** The [solveProblem] case, step by step. *)
Lemma case_solveProblem_eq :
  forall ai payload,
    case_solveProblem ai payload =
      match object_coercible payload with
      | inl e => ([], inl e)
      | inr _ =>
          match solve_contents (field payload (str "problem")) with
          | inl e => ([], inl e)
          | inr contents =>
              let p := solve_request contents (field payload (str "language")) in
              match generateContent ai p with
              | inl e => ([GenerateContent p], inl e)
              | inr r =>
                  match text_trim r with
                  | inl e => ([GenerateContent p; ResStatus 200], inl e)
                  | inr t =>
                      match parse t with
                      | inl e => ([GenerateContent p; ResStatus 200], inl e)
                      | inr v => ([GenerateContent p; ResStatus 200; ResJson v], inr tt)
                      end
                  end
              end
          end
      end.
Proof.
  intros ai payload. unfold case_solveProblem.
  destruct (object_coercible payload) as [e|[]] eqn:Hc; [reflexivity|].
  rewrite !(coercible_get _ _ Hc).
  unfold bind, lift, emit. simpl.
  destruct (solve_contents _); [reflexivity|].
  destruct (generateContent ai _); [reflexivity|].
  simpl. destruct (text_trim _); [reflexivity|].
  destruct (parse _); reflexivity.
Qed.


Lemma chats_created_app :
  forall a b, chats_created (a ++ b) = chats_created a ++ chats_created b.
Proof.
  induction a as [|x a IH]; intro b; [reflexivity|].
  destruct x; simpl; now rewrite IH.
Qed.

Lemma chats_created_writes :
  forall chunks, chats_created (map (fun c => ResWrite (stream_record c)) chunks) = [].
Proof. induction chunks; simpl; auto. Qed.

Lemma generated_app : forall a b, generated (a ++ b) = generated a ++ generated b.
Proof.
  induction a as [|x a IH]; intro b; [reflexivity|].
  destruct x; simpl; now rewrite IH.
Qed.

Lemma generated_writes :
  forall chunks, generated (map (fun c => ResWrite (stream_record c)) chunks) = [].
Proof. induction chunks; simpl; auto. Qed.

Lemma generated_In : forall t p, In (GenerateContent p) t <-> In p (generated t).
Proof.
  induction t as [|x t IH]; intro p; simpl; [tauto|].
  destruct x; simpl; rewrite <- IH;
    try (split; [intros [H|H]; [discriminate|assumption] | intro H; now right]).
  split; intros [H|H]; auto.
  - inversion H; auto.
  - subst; auto.
Qed.

Lemma json_calls_app : forall a b, json_calls (a ++ b) = json_calls a ++ json_calls b.
Proof.
  induction a as [|e a IH]; intro b; [reflexivity|].
  destruct e; simpl; rewrite ?IH; reflexivity.
Qed.

Lemma json_calls_writes :
  forall chunks, json_calls (map (fun c => ResWrite (stream_record c)) chunks) = [].
Proof. induction chunks; simpl; auto. Qed.

Lemma response_of_writes :
  forall r chunks,
    ended r = false ->
    fold_left res_step (map (fun c => ResWrite (stream_record c)) chunks) r =
      {| statusCode := statusCode r; headers := headers r; jsonBody := jsonBody r;
         written := written r ++ map stream_record chunks; ended := ended r |}.
Proof.
  intros r chunks. revert r.
  induction chunks as [|c cs IH]; intros r Hr; cbn [map fold_left].
  - rewrite app_nil_r. now destruct r.
  - cbn [res_step]. rewrite Hr. rewrite IH by reflexivity.
    cbn [statusCode headers jsonBody written ended]. now rewrite <- app_assoc.
Qed.

Lemma to_content_record : forall m, is_object m -> to_content m = inr (spec_turn m).
Proof. intros m [fields ->]. reflexivity. Qed.

Lemma geminiHistory_records :
  forall l, Forall is_object l -> geminiHistory (VArr l) = inr (map spec_turn l).
Proof.
  intros l H. simpl. induction H as [|m l Hm _ IH]; [reflexivity|].
  simpl. rewrite (to_content_record m Hm), IH. reflexivity.
Qed.

Lemma field_string_coercible :
  forall v k s, field v k = VStr s -> object_coercible v = inr tt.
Proof. intros v k s H. destruct v; try reflexivity; discriminate. Qed.

Lemma field_array_coercible :
  forall v k l, field v k = VArr l -> object_coercible v = inr tt.
Proof. intros v k l H. destruct v; try reflexivity; discriminate. Qed.

(** The record written for a chunk that has text. *)
Lemma stream_record_text :
  forall s, stream_record {| text := Some s |} = text_record s ++ [LF].
Proof.
  intro s. unfold stream_record, text_record. simpl.
  rewrite !app_nil_r. now rewrite <- !app_assoc.
Qed.


Lemma text_trim_inr :
  forall r t, text_trim r = inr t -> exists s, text r = Some s /\ t = trim s.
Proof.
  intros [[s|]] t H; unfold text_trim in H; simpl in H; [|discriminate].
  exists s. split; [reflexivity|]. now inversion H.
Qed.

Lemma text_trim_inl : forall r e, text_trim r = inl e -> text r = None.
Proof. intros [[s|]] e H; unfold text_trim in H; simpl in H; [discriminate|reflexivity]. Qed.

Lemma parse_inr : forall s v, parse s = inr v -> JSON_parse s = inr v.
Proof. intros s v H. unfold parse in H. destruct (JSON_parse s); [discriminate|congruence]. Qed.

Lemma parse_inl :
  forall s e, parse s = inl e -> name e = SyntaxError /\ JSON_parse s = inl (message e).
Proof.
  intros s e H. unfold parse in H.
  destruct (JSON_parse s); inversion H; subst; simpl; auto.
Qed.

(** What the [try]/[catch] around the [switch] makes of its outcome, for an
    action that is a string. *)
Lemma handler_catches :
  forall env ai req key a,
    method req = str "POST" ->
    api_key env = Some key ->
    field (body req) (str "action") = VStr a ->
    handler env ai req =
      match dispatch ai (VStr a) (field (body req) (str "payload")) with
      | (t, inr _) => (NewGoogleGenAI key :: t, inr tt)
      | (t, inl e) =>
          (NewGoogleGenAI key :: t ++
             [ConsoleError (str "Error in action '" ++ a ++ str "':") e;
              ResStatus 500; ResJson (internal_error e)],
           if headersSent (response_of t) then inl headers_sent_error else inr tt)
      end.
Proof.
  intros env ai req key a Hm Hk Ha.
  rewrite (handler_dispatches env ai req key Hm Hk (field_string_coercible _ _ _ Ha)).
  cbv zeta. rewrite Ha.
  destruct (dispatch ai (VStr a) _) as [t [e|[]]]; [|reflexivity].
  cbn [try_catch journal fst]. rewrite on_error_string. reflexivity.
Qed.

(** The key guard lets through a key that is set and not empty. *)
Lemma api_key_set :
  forall env key, API_KEY env = Some key -> key <> [] -> api_key env = Some key.
Proof.
  intros env key Hk Hne. unfold api_key. rewrite Hk.
  destruct key; [contradiction|reflexivity].
Qed.

Lemma handler_cases :
  forall env ai req,
    (method req <> str "POST" /\
     handler env ai req =
       ([ResStatus 405; ResJson (error_body (str "Method Not Allowed"))], inr tt))
    \/ (method req = str "POST" /\ api_key env = None /\
        handler env ai req =
          ([ResStatus 500;
            ResJson (error_body (str "API_KEY is not configured on the server."))],
           inr tt))
    \/ (exists key, method req = str "POST" /\ api_key env = Some key).
Proof.
  intros env ai req.
  destruct (jsstring_eqb (method req) (str "POST")) eqn:Hm.
  - apply jsstring_eqb_eq in Hm. destruct (api_key env) as [key|] eqn:Hk.
    + right. right. now exists key.
    + right. left. auto using handler_no_key.
  - apply jsstring_eqb_neq in Hm. left. auto using handler_not_post.
Qed.

End DispatcherFacts.

Section DispatcherClaims.

Context {engine : Engine} {constants : Constants}.

(** C2. Method and credentials are checked before any use of the provider: a
    request whose method is not POST gets status 405 with
    [{ error: 'Method Not Allowed' }], and a POST made while API_KEY is unset
    gets status 500 with [{ error: 'API_KEY is not configured on the server.' }];
    in both cases the journal holds the two calls on [res] and nothing else, so
    neither the SDK client is built nor the provider called. *)
Theorem handler_validates_first :
  forall (env : Env) (ai : Provider) (req : VercelRequest),
    (method req <> str "POST" ->
       handler env ai req =
         ([ResStatus 405; ResJson (error_body (str "Method Not Allowed"))], inr tt)
       /\ json_response (journal (handler env ai req)) 405
            (error_body (str "Method Not Allowed"))
       /\ filter sdk_use (journal (handler env ai req)) = [])
    /\ (method req = str "POST" -> API_KEY env = None ->
       handler env ai req =
         ([ResStatus 500;
           ResJson (error_body (str "API_KEY is not configured on the server."))],
          inr tt)
       /\ json_response (journal (handler env ai req)) 500
            (error_body (str "API_KEY is not configured on the server."))
       /\ filter sdk_use (journal (handler env ai req)) = []).
Proof.
  intros env ai req. split.
  - intro Hm. rewrite (handler_not_post env ai req Hm). repeat split.
  - intros Hm Hk. rewrite (handler_no_key env ai req Hm); [repeat split|].
    unfold api_key. now rewrite Hk.
Qed.

(** C8, as amended. A POST made while API_KEY is set to a string that is not
    empty, whose body can be destructured and whose action is none of the
    three known strings (a missing action is [undefined]), makes no provider
    call and gets status 400 with [{ error: 'Invalid action' }]. *)
Theorem invalid_action_rejected :
  forall env ai req key,
    method req = str "POST" ->
    API_KEY env = Some key ->
    key <> [] ->
    object_coercible (body req) = inr tt ->
    field (body req) (str "action") <> VStr (str "generateInitialData") ->
    field (body req) (str "action") <> VStr (str "solveProblem") ->
    field (body req) (str "action") <> VStr (str "chat") ->
    handler env ai req =
      ([NewGoogleGenAI key; ResStatus 400; ResJson (error_body (str "Invalid action"))],
       inr tt)
    /\ json_response (journal (handler env ai req)) 400 (error_body (str "Invalid action"))
    /\ provider_calls (journal (handler env ai req)) = [].
Proof.
  intros env ai req key Hm Hset Hne Hb H1 H2 H3.
  pose proof (api_key_set env key Hset Hne) as Hk.
  rewrite (handler_dispatches env ai req key Hm Hk Hb). cbv zeta.
  rewrite (dispatch_default ai _ _ H1 H2 H3).
  repeat split.
Qed.

End DispatcherClaims.

Section DispatcherChecks.

#[local] Existing Instance Reference.engine.
#[local] Existing Instance Reference.constants.

(** C2 at a GET request and at a POST without the key. *)
Lemma handler_validates_first_witness :
  handler Scenario.configured Scenario.offline
    (Scenario.request (str "GET") (str "chat") Scenario.english) =
    ([ResStatus 405; ResJson (error_body (str "Method Not Allowed"))], inr tt)
  /\ handler Scenario.unconfigured Scenario.offline
       (Scenario.request (str "POST") (str "chat") Scenario.english) =
       ([ResStatus 500;
         ResJson (error_body (str "API_KEY is not configured on the server."))], inr tt).
Proof.
  split.
  - apply (proj1 (handler_validates_first Scenario.configured Scenario.offline
                    (Scenario.request (str "GET") (str "chat") Scenario.english))).
    discriminate.
  - apply (proj2 (handler_validates_first Scenario.unconfigured Scenario.offline
                    (Scenario.request (str "POST") (str "chat") Scenario.english)));
      reflexivity.
Defined.

(** C8 as stated fails: a POST with an unknown action made while API_KEY is
    unset is answered 500, not 400. *)
Lemma invalid_action_without_key :
  json_response
    (journal (handler Scenario.unconfigured Scenario.offline
                (Scenario.request (str "POST") (str "nope") Scenario.english)))
    500 (error_body (str "API_KEY is not configured on the server."))
  /\ ~ json_response
       (journal (handler Scenario.unconfigured Scenario.offline
                   (Scenario.request (str "POST") (str "nope") Scenario.english)))
       400 (error_body (str "Invalid action")).
Proof.
  split; [reflexivity|]. intro H. discriminate H.
Qed.

(** The amended C8 at an unknown action, and at a body without an action. *)
Lemma invalid_action_rejected_witness :
  json_response
    (journal (handler Scenario.configured Scenario.offline
                (Scenario.request (str "POST") (str "nope") Scenario.english)))
    400 (error_body (str "Invalid action"))
  /\ json_response
       (journal (handler Scenario.configured Scenario.offline
                   {| method := str "POST"; body := VObj [] |}))
       400 (error_body (str "Invalid action")).
Proof.
  split.
  - apply (invalid_action_rejected Scenario.configured Scenario.offline
             (Scenario.request (str "POST") (str "nope") Scenario.english) Scenario.key);
      try reflexivity; discriminate.
  - apply (invalid_action_rejected Scenario.configured Scenario.offline
             {| method := str "POST"; body := VObj [] |} Scenario.key);
      try reflexivity; discriminate.
Defined.

End DispatcherChecks.

Section ChatHistoryClaim.

Context {engine : Engine} {constants : Constants}.

(** C5. The history of a chat request, a sequence of [{ role, text }]
    records, is converted element by element: the conversion succeeds, the
    [i]-th turn is [{ role: history[i].role, parts: [{ text: history[i].text }] }],
    the turns are as many as the records, and the chat the dispatcher creates
    (it creates one as soon as the request is a POST and the key is set, and
    none otherwise) is created with exactly these turns. *)
Theorem chat_history_converted :
  forall env ai req (l : list jsvalue),
    field (body req) (str "action") = VStr (str "chat") ->
    field (field (body req) (str "payload")) (str "history") = VArr l ->
    Forall is_object l ->
    geminiHistory (VArr l) = inr (map spec_turn l)
    /\ List.length (map spec_turn l) = List.length l
    /\ (forall i m, nth_error l i = Some m ->
          nth_error (map spec_turn l) i = Some (spec_turn m)
          /\ field (spec_turn m) (str "role") = field m (str "role")
          /\ field (spec_turn m) (str "parts") =
               VArr [VObj [(str "text", field m (str "text"))]])
    /\ (forall p, In p (chats_created (journal (handler env ai req))) ->
          chat_history p = map spec_turn l)
    /\ (forall key, method req = str "POST" -> api_key env = Some key ->
          chats_created (journal (handler env ai req)) =
            [chat_parameters (map spec_turn l)
               (field (field (body req) (str "payload")) (str "language"))]).
Proof.
  intros env ai req l Ha Hh Hl.
  assert (Hg := geminiHistory_records l Hl).
  assert (Hpost :
    forall key, method req = str "POST" -> api_key env = Some key ->
      chats_created (journal (handler env ai req)) =
        [chat_parameters (map spec_turn l)
           (field (field (body req) (str "payload")) (str "language"))]).
  { intros key Hm Hk.
    rewrite (handler_dispatches env ai req key Hm Hk (field_string_coercible _ _ _ Ha)).
    cbv zeta. rewrite Ha, dispatch_chat, case_chat_eq.
    rewrite (field_array_coercible _ _ _ Hh), Hh, Hg. cbv zeta.
    destruct (sendMessageStream ai _ _) as [e|[chunks failure]].
    - reflexivity.
    - unfold try_catch, journal. destruct failure as [e|].
      + rewrite on_error_string. simpl.
        rewrite !chats_created_app, chats_created_writes. reflexivity.
      + simpl. rewrite chats_created_app, chats_created_writes. reflexivity. }
  split; [exact Hg|]. split; [apply length_map|]. split; [|split].
  - intros i m Hi. split; [|split]; try reflexivity.
    now apply map_nth_error.
  - intros p Hp.
    destruct (jsstring_eqb (method req) (str "POST")) eqn:Hm.
    + apply jsstring_eqb_eq in Hm. destruct (api_key env) as [key|] eqn:Hk.
      * rewrite (Hpost key Hm eq_refl) in Hp. destruct Hp as [<-|[]]. reflexivity.
      * rewrite (handler_no_key env ai req Hm Hk) in Hp. destruct Hp.
    + apply jsstring_eqb_neq in Hm.
      rewrite (handler_not_post env ai req Hm) in Hp. destruct Hp.
  - exact Hpost.
Qed.

End ChatHistoryClaim.

Section InitialDataClaim.

Context {engine : Engine} {constants : Constants}.

(** C7, as amended. A [generateInitialData] POST made while API_KEY is set to
    a string that is not empty, with a payload that can be destructured,
    issues its two provider calls, the one asking for example problems and
    the one asking for a math fact, one after the other before either result
    is used, whatever the provider answers: the second call has been issued
    even when the first is rejected, and no other provider call is made and
    no chat created. When the request is answered 200, nothing else was done
    than these two calls and the answer, both calls resolved with a text that
    parses, and the body is [{ examples, fact }] with [examples] the
    [problems] member of the first parsed text and [fact] the [fact] member
    of the second, as they are: nothing checks that they are an array and a
    string. *)
Theorem generateInitialData_success :
  forall env ai req,
    field (body req) (str "action") = VStr (str "generateInitialData") ->
    (forall key,
        method req = str "POST" ->
        API_KEY env = Some key ->
        key <> [] ->
        object_coercible (field (body req) (str "payload")) = inr tt ->
        exists rest,
          journal (handler env ai req) =
            NewGoogleGenAI key
            :: GenerateContent
                 (examples_request (field (field (body req) (str "payload")) (str "language")))
            :: GenerateContent
                 (fact_request (field (field (body req) (str "payload")) (str "language")))
            :: rest
          /\ provider_calls rest = []
          /\ chats_created rest = [])
    /\ (forall b,
          json_response (journal (handler env ai req)) 200 b ->
          exists key ta tb va vb problems fact,
            journal (handler env ai req) =
              [NewGoogleGenAI key;
               GenerateContent
                 (examples_request (field (field (body req) (str "payload")) (str "language")));
               GenerateContent
                 (fact_request (field (field (body req) (str "payload")) (str "language")));
               ResStatus 200; ResJson b]
            /\ provider_calls (journal (handler env ai req)) =
                 [GenerateContent
                    (examples_request
                       (field (field (body req) (str "payload")) (str "language")));
                  GenerateContent
                    (fact_request
                       (field (field (body req) (str "payload")) (str "language")))]
            /\ generateContent ai
                 (examples_request (field (field (body req) (str "payload")) (str "language"))) =
                 inr {| text := Some ta |}
            /\ generateContent ai
                 (fact_request (field (field (body req) (str "payload")) (str "language"))) =
                 inr {| text := Some tb |}
            /\ JSON_parse (trim ta) = inr va
            /\ JSON_parse (trim tb) = inr vb
            /\ get va (str "problems") = inr problems
            /\ get vb (str "fact") = inr fact
            /\ b = VObj [(str "examples", problems); (str "fact", fact)]).
Proof.
  intros env ai req Ha. split.
  - intros key Hm Hset Hne Hp.
    pose proof (api_key_set env key Hset Hne) as Hk.
    rewrite (handler_catches env ai req key _ Hm Hk Ha).
    rewrite dispatch_generateInitialData, case_generateInitialData_eq, Hp. cbv zeta.
    repeat match goal with
           | |- context [match ?x with inl _ => _ | inr _ => _ end] => destruct x
           end;
      cbn [journal fst app]; eexists; (split; [reflexivity|]); split; reflexivity.
  - intros b Hresp.
    destruct (handler_cases env ai req) as [[_ H]|[[_ [_ H]]|[key [Hm Hk]]]];
      try (rewrite H in Hresp; discriminate Hresp).
    rewrite (handler_catches env ai req key _ Hm Hk Ha) in Hresp |- *.
    rewrite dispatch_generateInitialData, case_generateInitialData_eq in Hresp |- *.
    set (language := field (field (body req) (str "payload")) (str "language")) in *.
    destruct (object_coercible _) as [e|[]]; [discriminate Hresp|].
    cbv zeta in Hresp |- *.
    destruct (generateContent ai (examples_request language)) as [ea|[ra]] eqn:Hga;
      destruct (generateContent ai (fact_request language)) as [eb|[rb]] eqn:Hgb;
      try discriminate Hresp.
    destruct (text_trim {| text := ra |}) as [e|ta'] eqn:Hta; [discriminate Hresp|].
    destruct (parse ta') as [e|va] eqn:Hva; [discriminate Hresp|].
    destruct (text_trim {| text := rb |}) as [e|tb'] eqn:Htb; [discriminate Hresp|].
    destruct (parse tb') as [e|vb] eqn:Hvb; [discriminate Hresp|].
    destruct (get va (str "problems")) as [e|problems] eqn:Hp; [discriminate Hresp|].
    destruct (get vb (str "fact")) as [e|fact] eqn:Hf; [discriminate Hresp|].
    apply text_trim_inr in Hta, Htb. simpl in Hta, Htb.
    destruct Hta as [ta [-> ->]], Htb as [tb [-> ->]].
    apply parse_inr in Hva, Hvb.
    assert (Hb : b = VObj [(str "examples", problems); (str "fact", fact)]).
    { unfold json_response, response_of, journal in Hresp. simpl in Hresp. congruence. }
    exists key, ta, tb, va, vb, problems, fact. subst b. repeat split; auto.
Qed.

End InitialDataClaim.

Section ParseFailureClaim.

Context {engine : Engine} {constants : Constants}.

(** C3, as amended. Take a POST made while API_KEY is set to a string that is
    not empty, with a payload that can be destructured. A [solveProblem]
    request whose provider call returns a text that [JSON.parse] rejects is
    not answered 200: the response is the single JSON document
    [{ error: 'An internal server error occurred: ' + message }] with status
    500, the message being that of the [SyntaxError]. A [generateInitialData]
    request one of whose two calls returns such a text is not answered 200
    either, but 500 with a document of that shape; its message is that of the
    [SyntaxError] of the first text that does not parse, the examples before
    the fact, whenever both calls returned a text. *)
Theorem unparseable_output_is_500 :
  forall env ai req key,
    method req = str "POST" ->
    API_KEY env = Some key ->
    key <> [] ->
    object_coercible (field (body req) (str "payload")) = inr tt ->
    (field (body req) (str "action") = VStr (str "solveProblem") ->
     forall contents t msg,
       solve_contents (field (field (body req) (str "payload")) (str "problem")) =
         inr contents ->
       generateContent ai
         (solve_request contents (field (field (body req) (str "payload")) (str "language"))) =
         inr {| text := Some t |} ->
       JSON_parse (trim t) = inl msg ->
       json_response (journal (handler env ai req)) 500
         (internal_error {| name := SyntaxError; message := msg |})
       /\ json_calls (journal (handler env ai req)) =
            [internal_error {| name := SyntaxError; message := msg |}]
       /\ statusCode (response_of (journal (handler env ai req))) <> 200)
    /\ (field (body req) (str "action") = VStr (str "generateInitialData") ->
        forall t msg,
          generateContent ai
            (examples_request (field (field (body req) (str "payload")) (str "language"))) =
            inr {| text := Some t |}
          \/ generateContent ai
               (fact_request (field (field (body req) (str "payload")) (str "language"))) =
               inr {| text := Some t |} ->
          JSON_parse (trim t) = inl msg ->
          exists e,
            json_response (journal (handler env ai req)) 500 (internal_error e)
            /\ json_calls (journal (handler env ai req)) = [internal_error e]
            /\ statusCode (response_of (journal (handler env ai req))) <> 200
            /\ (forall ta tb,
                  generateContent ai
                    (examples_request
                       (field (field (body req) (str "payload")) (str "language"))) =
                    inr {| text := Some ta |} ->
                  generateContent ai
                    (fact_request
                       (field (field (body req) (str "payload")) (str "language"))) =
                    inr {| text := Some tb |} ->
                  name e = SyntaxError
                  /\ (JSON_parse (trim ta) = inl (message e)
                      \/ ((exists va, JSON_parse (trim ta) = inr va)
                          /\ JSON_parse (trim tb) = inl (message e))))).
Proof.
  intros env ai req key Hm Hset Hne Hp.
  pose proof (api_key_set env key Hset Hne) as Hk. split; intro Ha.
  - intros contents t msg Hc Hg Hparse.
    rewrite (handler_catches env ai req key _ Hm Hk Ha).
    rewrite dispatch_solveProblem, case_solveProblem_eq, Hp, Hc. cbv zeta.
    rewrite Hg. unfold text_trim, parse. cbn [text]. rewrite Hparse.
    split; [reflexivity|]. split; [reflexivity|]. discriminate.
  - intros t msg Hwhich Hparse.
    rewrite (handler_catches env ai req key _ Hm Hk Ha).
    rewrite dispatch_generateInitialData, case_generateInitialData_eq, Hp. cbv zeta.
    set (a := examples_request (field (field (body req) (str "payload")) (str "language")))
      in *.
    set (c := fact_request (field (field (body req) (str "payload")) (str "language")))
      in *.
    destruct (generateContent ai a) as [ea|[ra]] eqn:Hga;
      destruct (generateContent ai c) as [ec|[rc]] eqn:Hgc;
      try (eexists; split; [reflexivity|]; split; [reflexivity|];
           split; [discriminate|]; intros ta tb H1 H2; discriminate).
    unfold text_trim, parse. cbn [text].
    destruct ra as [ta|];
      [|eexists; split; [reflexivity|]; split; [reflexivity|];
        split; [discriminate|]; intros ta tb H1 H2; discriminate].
    destruct (JSON_parse (trim ta)) as [ma|va] eqn:Hpa.
    { eexists. split; [reflexivity|]. split; [reflexivity|]. split; [discriminate|].
      intros ta' tb' H1 _. inversion H1; subst ta'. split; [reflexivity|].
      left. exact Hpa. }
    destruct rc as [tb|];
      [|eexists; split; [reflexivity|]; split; [reflexivity|];
        split; [discriminate|]; intros ta' tb' H1 H2; discriminate].
    destruct (JSON_parse (trim tb)) as [mb|vb] eqn:Hpb.
    { eexists. split; [reflexivity|]. split; [reflexivity|]. split; [discriminate|].
      intros ta' tb' H1 H2. inversion H1; subst ta'. inversion H2; subst tb'.
      split; [reflexivity|]. right. split; [now exists va|exact Hpb]. }
    exfalso. destruct Hwhich as [H|H]; inversion H; subst t; congruence.
Qed.

End ParseFailureClaim.

Section ActionContractClaim.

Context {engine : Engine} {constants : Constants}.

(** C1, as amended. For a POST made while API_KEY is set to a string that is
    not empty: a [generateInitialData] or [solveProblem] request is answered
    with a single JSON document, status 200 or 500, [res.json] being called
    once and nothing written besides; a [chat] request whose provider stream
    is obtained and runs to its end is answered with a [text/plain] chunked
    stream that holds, for each chunk of the provider in order, the line
    [JSON.stringify({ text: chunk.text })] and a newline (the record
    [{"text":"..."}] when the chunk has a text), the response being ended
    once, after the last of them, and [res.json] never called; and a [chat]
    request that fails before the stream starts is answered with the single
    JSON document of the error, status 500. *)
Theorem action_contract :
  forall env ai req key,
    method req = str "POST" ->
    API_KEY env = Some key ->
    key <> [] ->
    ((field (body req) (str "action") = VStr (str "generateInitialData")
      \/ field (body req) (str "action") = VStr (str "solveProblem")) ->
       exists status b,
         json_response (journal (handler env ai req)) status b
         /\ json_calls (journal (handler env ai req)) = [b]
         /\ (status = 200 \/ status = 500))
    /\ (field (body req) (str "action") = VStr (str "chat") ->
        (forall chunks,
            open_stream ai (field (body req) (str "payload")) = inr (chunks, None) ->
            (exists p msg,
               journal (handler env ai req) =
                 [NewGoogleGenAI key; ChatsCreate p; SendMessageStream msg;
                  ResSetHeader (str "Content-Type") (str "text/plain; charset=utf-8");
                  ResSetHeader (str "Transfer-Encoding") (str "chunked")]
                 ++ map (fun c => ResWrite (stream_record c)) chunks ++ [ResEnd])
            /\ response_of (journal (handler env ai req)) =
                 stream_response (map stream_record chunks)
            /\ json_calls (journal (handler env ai req)) = []
            /\ (forall c s, In c chunks -> text c = Some s ->
                  stream_record c = text_record s ++ [LF]))
        /\ (forall e,
              open_stream ai (field (body req) (str "payload")) = inl e ->
              json_response (journal (handler env ai req)) 500 (internal_error e)
              /\ json_calls (journal (handler env ai req)) = [internal_error e])).
Proof.
  intros env ai req key Hm Hset Hne.
  pose proof (api_key_set env key Hset Hne) as Hk. split.
  - intros [Ha|Ha]; rewrite (handler_catches env ai req key _ Hm Hk Ha).
    + rewrite dispatch_generateInitialData, case_generateInitialData_eq.
      destruct (object_coercible _) as [e|[]];
        [exists 500; eexists; split; [reflexivity|split; [reflexivity|now right]]|].
      cbv zeta.
      repeat match goal with
             | |- context [match ?x with inl _ => _ | inr _ => _ end] => destruct x
             end;
        try (exists 500; eexists; split; [reflexivity|split; [reflexivity|now right]]).
      exists 200. eexists. split; [reflexivity|split; [reflexivity|now left]].
    + rewrite dispatch_solveProblem, case_solveProblem_eq.
      destruct (object_coercible _) as [e|[]];
        [exists 500; eexists; split; [reflexivity|split; [reflexivity|now right]]|].
      destruct (solve_contents _) as [e|contents];
        [exists 500; eexists; split; [reflexivity|split; [reflexivity|now right]]|].
      cbv zeta.
      repeat match goal with
             | |- context [match ?x with inl _ => _ | inr _ => _ end] => destruct x
             end;
        try (exists 500; eexists; split; [reflexivity|split; [reflexivity|now right]]).
      exists 200. eexists. split; [reflexivity|split; [reflexivity|now left]].
  - intro Ha. rewrite (handler_catches env ai req key _ Hm Hk Ha).
    rewrite dispatch_chat, case_chat_eq. unfold open_stream.
    destruct (object_coercible _) as [e|[]].
    { split; [discriminate|]. intros e' He. inversion He; subst. split; reflexivity. }
    destruct (geminiHistory _) as [e|turns].
    { split; [discriminate|]. intros e' He. inversion He; subst. split; reflexivity. }
    cbv zeta. destruct (sendMessageStream ai _ _) as [e|[chunks' failure]].
    { split; [discriminate|]. intros e' He. inversion He; subst. split; reflexivity. }
    split; [|discriminate].
    intros chunks He. inversion He; subst. split; [|split; [|split]].
    + eexists. eexists. reflexivity.
    + unfold journal, response_of. cbn [fst app fold_left].
      rewrite fold_left_app, response_of_writes by reflexivity. reflexivity.
    + cbn [journal fst app json_calls]. rewrite json_calls_app, json_calls_writes.
      reflexivity.
    + intros [[s'|]] s _ Hs; simpl in Hs; [|discriminate].
      inversion Hs; subst. apply stream_record_text.
Qed.

End ActionContractClaim.

Section DispatcherRuns.

#[local] Existing Instance Reference.engine.
#[local] Existing Instance Reference.constants.

(** C1 as stated fails: a chat request, a POST with the key set, whose
    provider call is rejected is answered with a JSON document, not with a
    stream. *)
Lemma chat_without_stream :
  json_response
    (journal (handler Scenario.configured Scenario.offline
                (Scenario.request (str "POST") (str "chat") Scenario.question)))
    500 (internal_error Scenario.unavailable)
  /\ forall records,
       response_of
         (journal (handler Scenario.configured Scenario.offline
                     (Scenario.request (str "POST") (str "chat") Scenario.question)))
       <> stream_response records.
Proof.
  split; [reflexivity|]. intros records H. discriminate H.
Qed.

(** The amended C1 at a seed request and at a chat of three chunks. *)
Lemma action_contract_witness :
  (exists status b,
     json_response
       (journal (handler Scenario.configured (Scenario.canned Scenario.seed_text [])
                   (Scenario.request (str "POST") (str "generateInitialData")
                      Scenario.english)))
       status b
     /\ (status = 200 \/ status = 500))
  /\ response_of
       (journal (handler Scenario.configured
                   (Scenario.canned Scenario.seed_text Scenario.greeting)
                   (Scenario.request (str "POST") (str "chat") Scenario.question))) =
       stream_response (map (fun d => text_record d ++ [LF]) Scenario.greeting).
Proof.
  split.
  - destruct (action_contract Scenario.configured
                (Scenario.canned Scenario.seed_text [])
                (Scenario.request (str "POST") (str "generateInitialData")
                   Scenario.english)
                Scenario.key eq_refl eq_refl) as [H _]; [discriminate|].
    destruct H as (status & b & Hr & _ & Hs); [left; reflexivity|].
    exists status, b. split; assumption.
  - destruct (action_contract Scenario.configured
                (Scenario.canned Scenario.seed_text Scenario.greeting)
                (Scenario.request (str "POST") (str "chat") Scenario.question)
                Scenario.key eq_refl eq_refl) as [_ H]; [discriminate|].
    destruct (H eq_refl) as [Hs _].
    destruct (Hs (map (fun d => {| text := Some d |}) Scenario.greeting) eq_refl)
      as [_ [Hr _]].
    exact Hr.
Defined.

(** C3 as stated fails: the request for example problems is answered with
    prose, which [JSON.parse] rejects, and the other call is rejected; the
    response is a 500, but what it carries is the rejection, not the parse
    failure. *)
Lemma parse_failure_not_surfaced :
  generateContent Cases.prose_then_down (examples_request (VStr (str "en"))) =
    inr {| text := Some Scenario.garbled |}
  /\ (exists msg, JSON_parse (trim Scenario.garbled) = inl msg)
  /\ json_response
       (journal (handler Scenario.configured Cases.prose_then_down
                   (Scenario.request (str "POST") (str "generateInitialData")
                      Scenario.english)))
       500 (internal_error Scenario.unavailable)
  /\ forall msg,
       JSON_parse (trim Scenario.garbled) = inl msg ->
       ~ json_response
           (journal (handler Scenario.configured Cases.prose_then_down
                       (Scenario.request (str "POST") (str "generateInitialData")
                          Scenario.english)))
           500 (internal_error {| name := SyntaxError; message := msg |}).
Proof.
  split; [reflexivity|]. split; [eexists; reflexivity|]. split; [reflexivity|].
  intros msg Hmsg H. vm_compute in Hmsg. inversion Hmsg; subst msg.
  vm_compute in H. discriminate H.
Qed.

(** The amended C3 at a solve request whose provider answers with prose, and
    at a seed request whose two calls are answered with prose. *)
Lemma unparseable_output_is_500_witness :
  (exists msg,
     json_response
       (journal (handler Scenario.configured (Scenario.canned Scenario.garbled [])
                   (Scenario.request (str "POST") (str "solveProblem")
                      Scenario.sum_problem)))
       500 (internal_error {| name := SyntaxError; message := msg |}))
  /\ exists e,
       json_response
         (journal (handler Scenario.configured (Scenario.canned Scenario.garbled [])
                     (Scenario.request (str "POST") (str "generateInitialData")
                        Scenario.english)))
         500 (internal_error e)
       /\ name e = SyntaxError.
Proof.
  split.
  - destruct (unparseable_output_is_500 Scenario.configured
                (Scenario.canned Scenario.garbled [])
                (Scenario.request (str "POST") (str "solveProblem") Scenario.sum_problem)
                Scenario.key eq_refl eq_refl) as [H _];
      [discriminate|reflexivity|].
    destruct (H eq_refl (VStr (str "2 + 2")) Scenario.garbled
                (str "Unexpected token in JSON") eq_refl eq_refl eq_refl) as [Hr _].
    eexists. exact Hr.
  - destruct (unparseable_output_is_500 Scenario.configured
                (Scenario.canned Scenario.garbled [])
                (Scenario.request (str "POST") (str "generateInitialData")
                   Scenario.english)
                Scenario.key eq_refl eq_refl) as [_ H];
      [discriminate|reflexivity|].
    destruct (H eq_refl Scenario.garbled (str "Unexpected token in JSON")
                (or_introl eq_refl) eq_refl) as (e & Hr & _ & _ & Hs).
    exists e. split; [exact Hr|].
    exact (proj1 (Hs Scenario.garbled Scenario.garbled eq_refl eq_refl)).
Defined.

(** C5 at a history of two records. *)
Lemma chat_history_converted_witness :
  chats_created
    (journal (handler Scenario.configured Scenario.offline
                (Scenario.request (str "POST") (str "chat") Scenario.question))) =
    [chat_parameters (map spec_turn Scenario.history_records) (VStr (str "en"))].
Proof.
  apply (proj2 (proj2 (proj2 (proj2
           (chat_history_converted Scenario.configured Scenario.offline
              (Scenario.request (str "POST") (str "chat") Scenario.question)
              Scenario.history_records eq_refl eq_refl
              (Forall_cons _ (ex_intro _ _ eq_refl)
                 (Forall_cons _ (ex_intro _ _ eq_refl) (Forall_nil _)))))))
         Scenario.key eq_refl eq_refl).
Defined.

(** C7 as stated fails: both calls return the text of an empty object, the
    request succeeds, and the 200 body has neither a problems array nor a
    fact string. *)
Lemma success_without_members :
  json_response
    (journal (handler Scenario.configured (Scenario.canned (str "{}") [])
                (Scenario.request (str "POST") (str "generateInitialData")
                   Scenario.english)))
    200 Cases.hollow_body
  /\ (forall l, field Cases.hollow_body (str "examples") <> VArr l)
  /\ (forall s, field Cases.hollow_body (str "fact") <> VStr s).
Proof.
  split; [reflexivity|]. split; intros x H; discriminate H.
Qed.

(** The amended C7 at a provider that rejects both calls, and at a seed
    request whose two calls return a text with both members. *)
Lemma generateInitialData_success_witness :
  (exists rest,
     journal (handler Scenario.configured Scenario.offline
                (Scenario.request (str "POST") (str "generateInitialData")
                   Scenario.english)) =
       NewGoogleGenAI Scenario.key
       :: GenerateContent (examples_request (VStr (str "en")))
       :: GenerateContent (fact_request (VStr (str "en")))
       :: rest
     /\ provider_calls rest = [])
  /\ provider_calls
       (journal (handler Scenario.configured (Scenario.canned Scenario.seed_text [])
                   (Scenario.request (str "POST") (str "generateInitialData")
                      Scenario.english))) =
       [GenerateContent (examples_request (VStr (str "en")));
        GenerateContent (fact_request (VStr (str "en")))].
Proof.
  split.
  - destruct (generateInitialData_success Scenario.configured Scenario.offline
                (Scenario.request (str "POST") (str "generateInitialData")
                   Scenario.english) eq_refl) as [H _].
    destruct (H Scenario.key eq_refl eq_refl) as (rest & Hj & Hc & _);
      [discriminate|reflexivity|].
    exists rest. split; assumption.
  - destruct (generateInitialData_success Scenario.configured
                (Scenario.canned Scenario.seed_text [])
                (Scenario.request (str "POST") (str "generateInitialData")
                   Scenario.english) eq_refl) as [_ H].
    destruct (H Scenario.seed_body eq_refl)
      as (key & ta & tb & va & vb & problems & fact & _ & Hc & _).
    exact Hc.
Defined.

End DispatcherRuns.

(** ** The service client *)

Section ServiceClaims.

Context {engine : Engine}.

Lemma try_catch_outcome_inl :
  forall {E A} (m : M E A) (h : exn -> M E A) e,
    outcome m = inl e -> outcome (try_catch m h) = outcome (h e).
Proof.
  intros E A [t [e'|a]] h e H; simpl in H; [|discriminate].
  inversion H; subst. unfold try_catch. destruct (h e). reflexivity.
Qed.

Lemma try_catch_outcome_inr :
  forall {E A} (m : M E A) (h : exn -> M E A) a,
    outcome m = inr a -> outcome (try_catch m h) = inr a.
Proof.
  intros E A [t [e'|a']] h a H; simpl in H; [discriminate|].
  inversion H; subst. reflexivity.
Qed.

(** [postToAction] returns only what a 2xx response gives: the response for
    a chat, its JSON body otherwise. *)
Lemma postToAction_returns :
  forall fetch action payload result,
    outcome (postToAction fetch action payload) = inr result ->
    exists response,
      fetch (str "/api/gemini") (action_request action payload) = inr response
      /\ ok response = true
      /\ (if jsstring_eqb action (str "chat") then result = ResponseObject response
          else exists v, json response = inr v /\ result = JsonValue v).
Proof.
  intros fetch action payload result. unfold postToAction, bind, lift, emit. simpl.
  destruct (fetch _ _) as [e|response]; simpl; [discriminate|].
  destruct (ok response) eqn:Hok; simpl.
  - destruct (jsstring_eqb action (str "chat")); simpl.
    + intro H. inversion H. exists response. auto.
    + destruct (json response) as [e|v] eqn:Hj; simpl; [discriminate|].
      intro H. inversion H. exists response. repeat split; auto. now exists v.
  - destruct (get _ _) as [e|detail]; simpl; [discriminate|].
    destruct (to_string detail); simpl; discriminate.
Qed.

(** C4. Whatever makes the initial-data call fail, [generateInitialData] does
    not fail: it returns the offline content, which depends on the language
    argument alone (two networks that both fail give the same result) and is
    the Arabic content for ['ar'] and the English content for any other
    language, ['en'] among them. *)
Theorem generateInitialData_falls_back :
  forall fetch language e,
    outcome (postToAction fetch (str "generateInitialData")
               (VObj [(str "language", VStr language)])) = inl e ->
    outcome (generateInitialData fetch language) = inr (JsonValue (fallback language))
    /\ (forall fetch' e',
          outcome (postToAction fetch' (str "generateInitialData")
                     (VObj [(str "language", VStr language)])) = inl e' ->
          outcome (generateInitialData fetch' language) =
            outcome (generateInitialData fetch language))
    /\ (language = str "ar" -> fallback language = arabic_content)
    /\ (language <> str "ar" -> fallback language = english_content)
    /\ (language = str "en" -> fallback language = english_content).
Proof.
  intros fetch language e H.
  assert (Hf : forall f x,
             outcome (postToAction f (str "generateInitialData")
                        (VObj [(str "language", VStr language)])) = inl x ->
             outcome (generateInitialData f language) = inr (JsonValue (fallback language))).
  { intros f x Hx. unfold generateInitialData.
    rewrite (try_catch_outcome_inl _ _ x Hx). reflexivity. }
  assert (Hen : language <> str "ar" -> fallback language = english_content).
  { intro Hl. apply jsstring_eqb_neq in Hl. unfold fallback, is_ar. now rewrite Hl. }
  split; [now apply (Hf fetch e)|]. split; [|split; [|split]].
  - intros fetch' e' H'. now rewrite (Hf fetch e H), (Hf fetch' e' H').
  - intros ->. reflexivity.
  - exact Hen.
  - intros ->. apply Hen. discriminate.
Qed.

(** C9. [solveProblem] never supplies content of its own: when [postToAction]
    fails, for whatever reason, it throws an [Error] with the fixed message,
    the original error dropped; and when it returns, the backend answered
    with a status in 200-299 and a JSON body, which is the value returned. *)
Theorem solveProblem_no_fallback :
  forall fetch problem language,
    (forall e,
        outcome (postToAction fetch (str "solveProblem")
                   (VObj [(str "problem", problem); (str "language", VStr language)])) = inl e ->
        outcome (solveProblem fetch problem language) = inl solve_failure)
    /\ (forall result,
          outcome (solveProblem fetch problem language) = inr result ->
          exists response v,
            fetch (str "/api/gemini")
              (action_request (str "solveProblem")
                 (VObj [(str "problem", problem); (str "language", VStr language)])) =
              inr response
            /\ 200 <= status response <= 299
            /\ json response = inr v
            /\ result = JsonValue v).
Proof.
  intros fetch problem language. split.
  - intros e H. unfold solveProblem. rewrite (try_catch_outcome_inl _ _ e H). reflexivity.
  - intros result H. unfold solveProblem in H.
    destruct (outcome (postToAction fetch (str "solveProblem")
                (VObj [(str "problem", problem); (str "language", VStr language)])))
      as [e|r] eqn:Hp.
    + rewrite (try_catch_outcome_inl _ _ e Hp) in H. discriminate H.
    + rewrite (try_catch_outcome_inr _ _ r Hp) in H. inversion H; subst r.
      destruct (postToAction_returns _ _ _ _ Hp) as [response [Hf [Hok Hr]]].
      change (jsstring_eqb (str "solveProblem") (str "chat")) with false in Hr.
      destruct Hr as [v [Hj ->]].
      exists response, v. repeat split; auto;
        unfold ok in Hok; apply andb_true_iff in Hok; destruct Hok as [H1 H2];
        [now apply N.leb_le in H1 | now apply N.leb_le in H2].
Qed.

End ServiceClaims.

Section ServiceRuns.

#[local] Existing Instance Reference.engine.

(** C4 with the network down, in Arabic. *)
Lemma generateInitialData_falls_back_witness :
  outcome (generateInitialData Scenario.no_network (str "ar")) =
    inr (JsonValue arabic_content).
Proof.
  exact (proj1 (generateInitialData_falls_back Scenario.no_network (str "ar")
                  Scenario.unavailable eq_refl)).
Defined.

(** C9 at a backend that answers 500, and at one that answers 200. *)
Lemma solveProblem_no_fallback_witness :
  outcome (solveProblem
             (Scenario.backend 500 (str "Internal Server Error")
                (inr (VObj [(str "error", VStr (str "boom"))])) None)
             (VStr (str "2 + 2")) (str "en")) = inl solve_failure
  /\ exists response v,
       Scenario.backend 200 (str "OK") (inr Scenario.seed_body) None
         (str "/api/gemini")
         (action_request (str "solveProblem")
            (VObj [(str "problem", VStr (str "2 + 2")); (str "language", VStr (str "en"))])) =
         inr response
       /\ 200 <= status response <= 299
       /\ json response = inr v
       /\ JsonValue Scenario.seed_body = JsonValue v.
Proof.
  split.
  - apply (proj1 (solveProblem_no_fallback
                    (Scenario.backend 500 (str "Internal Server Error")
                       (inr (VObj [(str "error", VStr (str "boom"))])) None)
                    (VStr (str "2 + 2")) (str "en"))
             {| name := Error;
                message := str "API Error: Internal Server Error - boom" |}).
    reflexivity.
  - apply (proj2 (solveProblem_no_fallback
                    (Scenario.backend 200 (str "OK") (inr Scenario.seed_body) None)
                    (VStr (str "2 + 2")) (str "en"))).
    reflexivity.
Defined.

End ServiceRuns.

(** ** The chat view *)

Section ReadLoopClaim.

Context {engine : Engine} {constants : Constants}.

Lemma process_line_total :
  forall st line, exists st', outcome (Chat.process_line st line) = inr st'.
Proof.
  intros st line. unfold Chat.process_line.
  destruct (trim line); [now exists st|].
  destruct (Chat.line_body st line) as [e|st']; [now exists st|now exists st'].
Qed.

Lemma process_lines_total :
  forall lines st, exists st', outcome (Chat.process_lines st lines) = inr st'.
Proof.
  induction lines as [|line rest IH]; intro st; simpl; [now exists st|].
  destruct (process_line_total st line) as [st1 H1].
  destruct (Chat.process_line st line) as [t [e|s]]; simpl in H1; [discriminate|].
  inversion H1; subst s. destruct (IH st1) as [st2 H2]. exists st2.
  unfold bind. destruct (Chat.process_lines st1 rest) as [t' r]. exact H2.
Qed.

Lemma read_chunks_total :
  forall chunks st, exists st', outcome (Chat.read_chunks st chunks) = inr st'.
Proof.
  induction chunks as [|value rest IH]; intro st; simpl; [now exists st|].
  unfold Chat.on_chunk. destruct (decode (Chat.decoder st) value) as [d decoded].
  match goal with
  | |- context [Chat.process_lines ?s ?l] => destruct (process_lines_total l s) as [st1 H1]
  end.
  destruct (Chat.process_lines _ _) as [t [e|s]]; simpl in H1; [discriminate|].
  inversion H1; subst s. destruct (IH st1) as [st2 H2]. exists st2.
  unfold bind. destruct (Chat.read_chunks st1 rest) as [t' r]. exact H2.
Qed.

(** C10. The body of the loop over the lines never throws, whatever the line
    holds: a blank line, a line [JSON.parse] rejects and a line that parses to
    a value without a truthy [text] leave the loop's variables as they were;
    the answer changes only on a line that is not blank and parses to a value
    with a truthy [text], and then by appending that text; and the loops over
    the lines and over the chunks run to their end from any state. *)
Theorem read_loop_skips_bad_lines :
  forall (st : Chat.Loop) (line : jsstring),
    exists st',
      outcome (Chat.process_line st line) = inr st'
      /\ (trim line = [] -> st' = st)
      /\ (forall msg, JSON_parse line = inl msg -> st' = st)
      /\ (forall chunk, JSON_parse line = inr chunk ->
            truthy (field chunk (str "text")) = false -> st' = st)
      /\ (st' = st
          \/ exists chunk s,
               trim line <> []
               /\ JSON_parse line = inr chunk
               /\ truthy (field chunk (str "text")) = true
               /\ to_string (field chunk (str "text")) = inr s
               /\ st' =
                    {| Chat.decoder := Chat.decoder st;
                       Chat.buffer := Chat.buffer st;
                       Chat.modelResponseText := Chat.modelResponseText st ++ s;
                       Chat.messages :=
                         Chat.set_last_text (Chat.modelResponseText st ++ s)
                           (Chat.messages st) |})
      /\ (forall lines, exists st'', outcome (Chat.process_lines st lines) = inr st'')
      /\ (forall chunks, exists st'', outcome (Chat.read_chunks st chunks) = inr st'').
Proof.
  intros st line.
  assert (Hloops :
    (forall lines, exists st'', outcome (Chat.process_lines st lines) = inr st'')
    /\ (forall chunks, exists st'', outcome (Chat.read_chunks st chunks) = inr st'')).
  { split; intro l; [apply process_lines_total|apply read_chunks_total]. }
  unfold Chat.process_line.
  destruct (trim line) as [|c rest] eqn:Htrim.
  { exists st. repeat split; auto; apply Hloops. }
  unfold Chat.line_body, parse.
  destruct (JSON_parse line) as [msg|chunk] eqn:Hparse.
  { exists st. repeat split; auto; apply Hloops. }
  unfold field.
  destruct (get chunk (str "text")) as [e|chunk_text] eqn:Hget.
  { exists st. repeat split; auto; apply Hloops. }
  destruct (truthy chunk_text) eqn:Htruthy.
  - destruct (to_string chunk_text) as [e|s] eqn:Hs.
    { exists st. repeat split; auto; apply Hloops. }
    eexists. split; [reflexivity|]. split; [discriminate|]. split; [discriminate|].
    split; [|split; [|apply Hloops]].
    + intros chunk' Hc. inversion Hc; subst chunk'. rewrite Hget, Htruthy. discriminate.
    + right. exists chunk, s. rewrite Hget. repeat split; auto. discriminate.
  - exists st. repeat split; auto; apply Hloops.
Qed.

End ReadLoopClaim.

Section ReadLoopRuns.

#[local] Existing Instance Reference.engine.
#[local] Existing Instance Reference.constants.

(** C10 at a line of prose: it is dropped. *)
Lemma read_loop_skips_bad_lines_witness :
  outcome (Chat.process_line Scenario.waiting Scenario.garbled) = inr Scenario.waiting.
Proof.
  destruct (read_loop_skips_bad_lines Scenario.waiting Scenario.garbled)
    as [st' [H [_ [Hbad _]]]].
  rewrite H. f_equal. apply (Hbad (str "Unexpected token in JSON")). reflexivity.
Defined.

End ReadLoopRuns.

(** ** UTF-8: decoding what was encoded *)


Lemma decode_app :
  forall a b d,
    decode d (a ++ b) =
      (fst (decode (fst (decode d a)) b), snd (decode d a) ++ snd (decode (fst (decode d a)) b)).
Proof.
  induction a as [|x a IH]; intros b d; simpl.
  - now destruct (decode d b).
  - destruct (decode_byte (utf8 d) x) as [u cps].
    destruct (serialize (BOM_seen d) cps) as [seen s].
    rewrite IH. destruct (decode _ a) as [d1 s1]. simpl.
    now rewrite app_assoc.
Qed.

Lemma decode_emit :
  forall d b u cp rest,
    decode_byte (utf8 d) b = (u, [cp]) ->
    BOM_seen d = true ->
    decode d (b :: rest) =
      (fst (decode {| utf8 := u; BOM_seen := true |} rest),
       code_units cp ++ snd (decode {| utf8 := u; BOM_seen := true |} rest)).
Proof.
  intros d b u cp rest Hb Hbom.
  change (decode d (b :: rest)) with
    (let (u, cps) := decode_byte (utf8 d) b in
     let (seen, s) := serialize (BOM_seen d) cps in
     let (d', s') := decode {| utf8 := u; BOM_seen := seen |} rest in
     (d', s ++ s')).
  rewrite Hb, Hbom. cbn [serialize negb andb].
  destruct (decode _ rest). cbn [fst snd]. now rewrite app_nil_r.
Qed.

Lemma decode_silent :
  forall d b u rest,
    decode_byte (utf8 d) b = (u, []) ->
    decode d (b :: rest) = decode {| utf8 := u; BOM_seen := BOM_seen d |} rest.
Proof.
  intros d b u rest Hb.
  change (decode d (b :: rest)) with
    (let (u, cps) := decode_byte (utf8 d) b in
     let (seen, s) := serialize (BOM_seen d) cps in
     let (d', s') := decode {| utf8 := u; BOM_seen := seen |} rest in
     (d', s ++ s')).
  rewrite Hb. cbn [serialize]. now destruct (decode _ rest).
Qed.

Lemma decode_byte_ascii :
  forall b, b <= 127 -> decode_byte utf8_start b = (utf8_start, [b]).
Proof.
  intros b H. unfold decode_byte, decode_lead.
  change (bytes_needed utf8_start =? 0) with true. cbv iota.
  now rewrite (proj2 (N.leb_le _ _) H).
Qed.

Lemma decode_byte_lead2 :
  forall b,
    194 <= b <= 223 ->
    decode_byte utf8_start b =
      ({| code_point := b mod 32; bytes_seen := 0; bytes_needed := 1;
          lower_boundary := 128; upper_boundary := 191 |}, []).
Proof.
  intros b [H1 H2]. unfold decode_byte, decode_lead.
  change (bytes_needed utf8_start =? 0) with true. cbv iota.
  rewrite (proj2 (N.leb_gt b 127)) by lia.
  now rewrite (proj2 (N.leb_le _ _) H1), (proj2 (N.leb_le _ _) H2).
Qed.

Lemma decode_byte_lead3 :
  forall b,
    224 <= b <= 239 ->
    decode_byte utf8_start b =
      ({| code_point := b mod 16; bytes_seen := 0; bytes_needed := 2;
          lower_boundary := if b =? 224 then 160 else 128;
          upper_boundary := if b =? 237 then 159 else 191 |}, []).
Proof.
  intros b [H1 H2]. unfold decode_byte, decode_lead.
  change (bytes_needed utf8_start =? 0) with true. cbv iota.
  rewrite (proj2 (N.leb_gt b 127)) by lia.
  rewrite (proj2 (N.leb_gt b 223)) by lia. rewrite andb_false_r.
  now rewrite (proj2 (N.leb_le _ _) H1), (proj2 (N.leb_le _ _) H2).
Qed.

Lemma decode_byte_lead4 :
  forall b,
    240 <= b <= 244 ->
    decode_byte utf8_start b =
      ({| code_point := b mod 8; bytes_seen := 0; bytes_needed := 3;
          lower_boundary := if b =? 240 then 144 else 128;
          upper_boundary := if b =? 244 then 143 else 191 |}, []).
Proof.
  intros b [H1 H2]. unfold decode_byte, decode_lead.
  change (bytes_needed utf8_start =? 0) with true. cbv iota.
  rewrite (proj2 (N.leb_gt b 127)) by lia.
  rewrite (proj2 (N.leb_gt b 223)) by lia. rewrite andb_false_r.
  rewrite (proj2 (N.leb_gt b 239)) by lia. rewrite andb_false_r.
  now rewrite (proj2 (N.leb_le _ _) H1), (proj2 (N.leb_le _ _) H2).
Qed.

(** A byte that continues the open sequence. *)
Lemma decode_byte_continue :
  forall cp seen needed lo hi b,
    needed <> 0 ->
    lo <= b <= hi ->
    decode_byte {| code_point := cp; bytes_seen := seen; bytes_needed := needed;
                   lower_boundary := lo; upper_boundary := hi |} b =
      if seen + 1 =? needed then (utf8_start, [cp * 64 + b mod 64])
      else ({| code_point := cp * 64 + b mod 64; bytes_seen := seen + 1;
               bytes_needed := needed; lower_boundary := 128; upper_boundary := 191 |}, []).
Proof.
  intros cp seen needed lo hi b Hn [H1 H2]. unfold decode_byte.
  cbn [bytes_needed lower_boundary upper_boundary code_point bytes_seen].
  rewrite (proj2 (N.eqb_neq _ _) Hn).
  rewrite (proj2 (N.ltb_ge _ _) H1), (proj2 (N.ltb_ge _ _) H2).
  reflexivity.
Qed.

(** One scalar value through the decoder. *)
Lemma decode_scalar :
  forall cp rest,
    cp < 1114112 ->
    ~ (55296 <= cp <= 57343) ->
    decode between (utf8_bytes cp ++ rest) =
      (fst (decode between rest), code_units cp ++ snd (decode between rest)).
Proof.
  intros cp rest Hmax Hsur. unfold utf8_bytes.
  destruct (cp <? 128) eqn:H1; [|destruct (cp <? 2048) eqn:H2; [|destruct (cp <? 65536) eqn:H3]].
  - apply N.ltb_lt in H1. cbn [app].
    apply decode_emit; [|reflexivity]. apply decode_byte_ascii. lia.
  - apply N.ltb_ge in H1. apply N.ltb_lt in H2. cbn [app].
    rewrite (decode_silent between _ _ _ (decode_byte_lead2 (192 + cp / 64) ltac:(euclid))).
    cbn [BOM_seen between].
    rewrite (decode_emit _ (128 + cp mod 64) utf8_start cp); [reflexivity| |reflexivity].
    cbn [utf8]. rewrite decode_byte_continue; [|discriminate|euclid].
    change (0 + 1 =? 1) with true. cbv iota. f_equal. f_equal. euclid.
  - apply N.ltb_ge in H2. apply N.ltb_lt in H3. cbn [app].
    rewrite (decode_silent between _ _ _ (decode_byte_lead3 (224 + cp / 4096) ltac:(euclid))).
    cbn [BOM_seen between].
    rewrite (decode_silent _ (128 + cp / 64 mod 64)
               {| code_point := cp / 64; bytes_seen := 1; bytes_needed := 2;
                  lower_boundary := 128; upper_boundary := 191 |}).
    + cbn [BOM_seen].
      rewrite (decode_emit _ (128 + cp mod 64) utf8_start cp); [reflexivity| |reflexivity].
      cbn [utf8]. rewrite decode_byte_continue; [|discriminate|euclid].
      change (1 + 1 =? 2) with true. cbv iota. f_equal. f_equal. euclid.
    + cbn [utf8]. rewrite decode_byte_continue; [|discriminate|].
      * change (0 + 1 =? 2) with false. cbv iota. f_equal. f_equal. euclid.
      * destruct (224 + cp / 4096 =? 224) eqn:E1;
          destruct (224 + cp / 4096 =? 237) eqn:E2;
          try apply N.eqb_eq in E1; try apply N.eqb_eq in E2; euclid.
  - apply N.ltb_ge in H3. cbn [app].
    rewrite (decode_silent between _ _ _ (decode_byte_lead4 (240 + cp / 262144) ltac:(euclid))).
    cbn [BOM_seen between].
    rewrite (decode_silent _ (128 + cp / 4096 mod 64)
               {| code_point := cp / 4096; bytes_seen := 1; bytes_needed := 3;
                  lower_boundary := 128; upper_boundary := 191 |}).
    + cbn [BOM_seen].
      rewrite (decode_silent _ (128 + cp / 64 mod 64)
                 {| code_point := cp / 64; bytes_seen := 2; bytes_needed := 3;
                    lower_boundary := 128; upper_boundary := 191 |}).
      * cbn [BOM_seen].
        rewrite (decode_emit _ (128 + cp mod 64) utf8_start cp); [reflexivity| |reflexivity].
        cbn [utf8]. rewrite decode_byte_continue; [|discriminate|euclid].
        change (2 + 1 =? 3) with true. cbv iota. f_equal. f_equal. euclid.
      * cbn [utf8]. rewrite decode_byte_continue; [|discriminate|euclid].
        change (1 + 1 =? 3) with false. cbv iota. f_equal. f_equal; euclid.
    + cbn [utf8]. rewrite decode_byte_continue; [|discriminate|].
      * change (0 + 1 =? 3) with false. cbv iota. f_equal. f_equal. euclid.
      * destruct (240 + cp / 262144 =? 240) eqn:E1;
          destruct (240 + cp / 262144 =? 244) eqn:E2;
          try apply N.eqb_eq in E1; try apply N.eqb_eq in E2; euclid.
Qed.

Lemma code_units_bmp : forall c, c < 65536 -> code_units c = [c].
Proof. intros c H. unfold code_units. now rewrite (proj2 (N.ltb_lt _ _) H). Qed.

Lemma code_units_pair :
  forall h l,
    is_high_surrogate h = true ->
    is_low_surrogate l = true ->
    code_units (65536 + (h - 55296) * 1024 + (l - 56320)) = [h; l].
Proof.
  intros h l Hh Hl. unfold is_high_surrogate, is_low_surrogate in *.
  apply andb_true_iff in Hh, Hl. destruct Hh as [H1 H2], Hl as [H3 H4].
  apply N.leb_le in H1, H2, H3, H4. unfold code_units.
  rewrite (proj2 (N.ltb_ge _ _)) by lia.
  f_equal; [|f_equal]; euclid.
Qed.

Lemma is_surrogate_false :
  forall c, is_surrogate c = false -> ~ (55296 <= c <= 57343).
Proof.
  intros c H. unfold is_surrogate, is_high_surrogate, is_low_surrogate in H.
  apply orb_false_iff in H. destruct H as [H1 H2].
  apply andb_false_iff in H1, H2.
  destruct H1 as [H1|H1], H2 as [H2|H2];
    try apply N.leb_gt in H1; try apply N.leb_gt in H2; lia.
Qed.

(** Decoding the encoding of a well-formed string gives the string back and
    leaves the decoder between two characters. *)
Lemma decode_encode :
  forall s,
    well_formed s ->
    is_jsstring s ->
    forall rest,
      decode between (utf8_encode s ++ rest) =
        (fst (decode between rest), s ++ snd (decode between rest)).
Proof.
  intros s Hwf. induction Hwf as [|c s Hc Hwf IH|h l s Hh Hl Hwf IH]; intros Hs rest.
  - cbn [utf8_encode app]. now destruct (decode between rest).
  - inversion Hs as [|? ? Hc16 Hs']; subst.
    assert (Hn := Hc). unfold is_surrogate in Hn. apply orb_false_iff in Hn.
    destruct Hn as [Hn1 Hn2].
    cbn [utf8_encode]. rewrite Hn1, Hn2. rewrite <- app_assoc.
    rewrite decode_scalar;
      [|unfold is_code_unit in Hc16; lia|now apply is_surrogate_false].
    rewrite (IH Hs' rest). cbn [fst snd].
    now rewrite (code_units_bmp c Hc16).
  - inversion Hs as [|? ? Hh16 Hs']; subst. inversion Hs' as [|? ? Hl16 Hs'']; subst.
    cbn [utf8_encode]. rewrite Hh, Hl. rewrite <- app_assoc.
    assert (Hb : 55296 <= h <= 56319 /\ 56320 <= l <= 57343).
    { unfold is_high_surrogate, is_low_surrogate in Hh, Hl.
      apply andb_true_iff in Hh, Hl. destruct Hh as [H1 H2], Hl as [H3 H4].
      apply N.leb_le in H1, H2, H3, H4. lia. }
    rewrite decode_scalar; [|lia|lia].
    rewrite (IH Hs'' rest). cbn [fst snd].
    now rewrite (code_units_pair h l Hh Hl).
Qed.

Lemma well_formed_app :
  forall a b, well_formed a -> well_formed b -> well_formed (a ++ b).
Proof.
  intros a b Ha Hb. induction Ha; simpl; auto using well_formed.
Qed.

Lemma line_safe_app : forall a b, line_safe a -> line_safe b -> line_safe (a ++ b).
Proof.
  intros a b (Ha1 & Ha2 & Ha3) (Hb1 & Hb2 & Hb3). repeat split.
  - now apply well_formed_app.
  - now apply Forall_app.
  - intro H. apply in_app_or in H. tauto.
Qed.

Lemma line_safe_plain : forall s, Forall plain s -> line_safe s.
Proof.
  induction 1 as [|c s (H1 & H2 & H3) _ (IH1 & IH2 & IH3)].
  - repeat split; [constructor|constructor|intros []].
  - repeat split.
    + now constructor.
    + now constructor.
    + intros [H|H]; [congruence|contradiction].
Qed.

Lemma plain_ascii : forall c, c < 128 -> c <> 10 -> plain c.
Proof.
  intros c H1 H2. repeat split; [lia| |exact H2].
  unfold is_surrogate, is_high_surrogate, is_low_surrogate.
  rewrite (proj2 (N.leb_gt 55296 c)) by lia.
  rewrite (proj2 (N.leb_gt 56320 c)) by lia. reflexivity.
Qed.

Lemma hex_digit_plain : forall d, d < 16 -> plain (hex_digit d).
Proof.
  intros d H. apply plain_ascii; unfold hex_digit;
    destruct (d <? 10) eqn:E; try apply N.ltb_lt in E; try apply N.ltb_ge in E; lia.
Qed.

Lemma unicode_escape_safe : forall c, line_safe (unicode_escape c).
Proof.
  intro c. apply line_safe_plain. unfold unicode_escape.
  apply Forall_cons; [apply plain_ascii; lia|].
  apply Forall_cons; [apply plain_ascii; lia|].
  repeat (apply Forall_cons; [apply hex_digit_plain; euclid|]).
  apply Forall_nil.
Qed.

(** Induction over a string two units at a time, as [quote_body] and
    [utf8_encode] read it. *)
Lemma jsstring_pair_ind :
  forall P : jsstring -> Prop,
    P [] ->
    (forall c, P [c]) ->
    (forall c d s, P s -> P (d :: s) -> P (c :: d :: s)) ->
    forall s, P s.
Proof.
  intros P H0 H1 H2 s.
  assert (H : P s /\ forall c, P (c :: s)).
  { induction s as [|d s [IHs IHc]]; split; auto. }
  apply H.
Qed.

Lemma quote_unit_one_line : forall c, ~ In LF (quote_unit c).
Proof.
  intro c. unfold quote_unit.
  destruct (c =? 8); [intros [H|[H|[]]]; discriminate|].
  destruct (c =? 9); [intros [H|[H|[]]]; discriminate|].
  destruct (c =? 10) eqn:E; [intros [H|[H|[]]]; discriminate|].
  destruct (c =? 12); [intros [H|[H|[]]]; discriminate|].
  destruct (c =? 13); [intros [H|[H|[]]]; discriminate|].
  destruct (c =? 34); [intros [H|[H|[]]]; discriminate|].
  destruct (c =? 92); [intros [H|[H|[]]]; discriminate|].
  destruct (_ || _); [apply unicode_escape_safe|].
  intros [H|[]]. apply N.eqb_neq in E. unfold LF in H. congruence.
Qed.

Lemma quote_unit_safe :
  forall c, c < 65536 -> is_high_surrogate c = false -> line_safe (quote_unit c).
Proof.
  intros c Hc Hh. split; [|split; [|apply quote_unit_one_line]].
  - unfold quote_unit.
    repeat match goal with
           | |- context [if ?x =? ?y then _ else _] =>
               destruct (x =? y);
               [apply line_safe_plain;
                repeat (apply Forall_cons; [apply plain_ascii; lia|]); apply Forall_nil|]
           end.
    destruct ((c <? 32) || is_high_surrogate c || is_low_surrogate c) eqn:E.
    + apply unicode_escape_safe.
    + apply orb_false_iff in E. destruct E as [E El].
      apply wf_unit; [|apply wf_nil]. unfold is_surrogate. now rewrite Hh, El.
  - unfold quote_unit.
    repeat match goal with
           | |- context [if ?x =? ?y then _ else _] =>
               destruct (x =? y);
               [apply line_safe_plain;
                repeat (apply Forall_cons; [apply plain_ascii; lia|]); apply Forall_nil|]
           end.
    destruct (_ || _); [apply unicode_escape_safe|].
    now repeat constructor.
Qed.

(** The quoted form of a string of code units is well formed and holds no
    newline. *)
Lemma quote_body_safe : forall s, is_jsstring s -> line_safe (quote_body s).
Proof.
  induction s as [|c|c d s IHs IHd] using jsstring_pair_ind; intro Hs.
  - apply line_safe_plain. constructor.
  - inversion Hs as [|? ? Hc _]; subst. cbn [quote_body].
    destruct (is_high_surrogate c) eqn:Hh.
    + apply unicode_escape_safe.
    + rewrite app_nil_r. now apply quote_unit_safe.
  - inversion Hs as [|? ? Hc Hds]; subst. inversion Hds as [|? ? Hd Hs']; subst.
    cbn [quote_body]. destruct (is_high_surrogate c) eqn:Hh.
    + destruct (is_low_surrogate d) eqn:Hl.
      * destruct (IHs Hs') as (W & J & L). repeat split.
        -- now constructor.
        -- now repeat constructor.
        -- intros [H|[H|H]]; try contradiction; subst; discriminate.
      * apply line_safe_app; [apply unicode_escape_safe|now apply IHd].
    + apply line_safe_app; [now apply quote_unit_safe|now apply IHd].
Qed.

(** A quoted string holds no newline, whatever its units. *)
Lemma quote_body_one_line : forall s, ~ In LF (quote_body s).
Proof.
  induction s as [|c|c d s IHs IHd] using jsstring_pair_ind.
  - intros [].
  - cbn [quote_body]. destruct (is_high_surrogate c).
    + apply unicode_escape_safe.
    + rewrite app_nil_r. apply quote_unit_one_line.
  - cbn [quote_body]. destruct (is_high_surrogate c) eqn:Hh.
    + destruct (is_low_surrogate d) eqn:Hl.
      * intros [H|[H|H]]; try contradiction; subst; discriminate.
      * intro H. apply in_app_or in H. destruct H as [H|H]; [|contradiction].
        now apply unicode_escape_safe in H.
    + intro H. apply in_app_or in H. destruct H as [H|H]; [|contradiction].
      now apply quote_unit_one_line in H.
Qed.

(** ** Lines *)

Lemma text_record_shape :
  forall d,
    text_record d =
      123 :: (quote_json_string (str "text") ++ [58] ++ quote_json_string d) ++ [125].
Proof. intro d. unfold text_record. rewrite !app_assoc. reflexivity. Qed.

Lemma quote_json_string_one_line : forall s, ~ In LF (quote_json_string s).
Proof.
  intros s [H|H]; [discriminate|].
  apply in_app_or in H. destruct H as [H|[H|[]]]; [|discriminate].
  now apply quote_body_one_line in H.
Qed.

Lemma text_record_one_line : forall d, ~ In LF (text_record d).
Proof.
  intros d H. rewrite text_record_shape in H.
  destruct H as [H|H]; [discriminate|].
  apply in_app_or in H. destruct H as [H|[H|[]]]; [|discriminate].
  apply in_app_or in H. destruct H as [H|H].
  { now apply quote_json_string_one_line in H. }
  destruct H as [H|H]; [discriminate|].
  now apply quote_json_string_one_line in H.
Qed.

Lemma ascii_safe : forall s, Forall (fun c => c < 128 /\ c <> 10) s -> line_safe s.
Proof.
  intros s H. apply line_safe_plain.
  induction H as [|c s [H1 H2] _ IH]; constructor; auto. now apply plain_ascii.
Qed.

Lemma quote_json_string_safe : forall s, is_jsstring s -> line_safe (quote_json_string s).
Proof.
  intros s Hs. unfold quote_json_string.
  change (QUOTE :: quote_body s ++ [QUOTE]) with ([QUOTE] ++ quote_body s ++ [QUOTE]).
  repeat apply line_safe_app; try (now apply quote_body_safe);
    apply ascii_safe; repeat constructor; discriminate.
Qed.

Lemma text_record_safe : forall d, is_jsstring d -> line_safe (text_record d).
Proof.
  intros d Hd. unfold text_record.
  repeat apply line_safe_app; try (now apply quote_json_string_safe);
    try (apply ascii_safe; repeat constructor; discriminate).
Qed.

Lemma stream_record_safe :
  forall d,
    is_jsstring d ->
    well_formed (text_record d ++ [LF]) /\ is_jsstring (text_record d ++ [LF]).
Proof.
  intros d Hd. destruct (text_record_safe d Hd) as (W & J & _). split.
  - apply well_formed_app; [exact W|]. now repeat constructor.
  - apply Forall_app. split; [exact J|]. repeat constructor.
Qed.

Lemma trim_start_keeps :
  forall c s, is_white_space c = false -> trim_start (c :: s) = c :: s.
Proof. intros c s H. simpl. now rewrite H. Qed.

(** A text that starts and ends with something else than white space is its
    own trimmed form. *)
Lemma trim_framed :
  forall a s b,
    is_white_space a = false ->
    is_white_space b = false ->
    trim (a :: s ++ [b]) = a :: s ++ [b].
Proof.
  intros a s b Ha Hb. unfold trim.
  rewrite (trim_start_keeps a _ Ha).
  change (a :: s ++ [b]) with ((a :: s) ++ [b]).
  rewrite rev_app_distr. cbn [rev app].
  rewrite (trim_start_keeps b _ Hb).
  change (b :: rev s ++ [a]) with ([b] ++ rev (a :: s)).
  rewrite rev_app_distr, rev_involutive. reflexivity.
Qed.

Lemma text_record_trimmed : forall d, trim (text_record d) = text_record d.
Proof. intro d. rewrite text_record_shape. now apply trim_framed. Qed.

Lemma split_one_line : forall a, ~ In LF a -> split LF a = [a].
Proof.
  induction a as [|c a IH]; intro H; [reflexivity|].
  simpl. destruct (c =? LF) eqn:E.
  - apply N.eqb_eq in E. exfalso. apply H. now left.
  - rewrite IH; [reflexivity|]. intro Hin. apply H. now right.
Qed.

Lemma split_first_line :
  forall a b, ~ In LF a -> split LF (a ++ LF :: b) = a :: split LF b.
Proof.
  induction a as [|c a IH]; intros b H.
  - reflexivity.
  - simpl. destruct (c =? LF) eqn:E.
    + apply N.eqb_eq in E. exfalso. apply H. now left.
    + rewrite IH; [reflexivity|]. intro Hin. apply H. now right.
Qed.

(** The lines of a text that is whole lines and the start of another. *)
Lemma split_join_lines :
  forall lines r,
    Forall (fun l => ~ In LF l) lines ->
    ~ In LF r ->
    split LF (join_lines lines ++ r) = lines ++ [r].
Proof.
  intros lines r H Hr. induction H as [|l lines Hl _ IH].
  - now apply split_one_line.
  - unfold join_lines in *. cbn [map List.concat].
    rewrite <- !app_assoc. cbn [app].
    rewrite (split_first_line l _ Hl), IH. reflexivity.
Qed.

(** A prefix of a text of whole lines is whole lines and the start of the
    next one. *)
Lemma prefix_of_lines :
  forall lines x y,
    Forall (fun l => ~ In LF l) lines ->
    x ++ y = join_lines lines ->
    exists done todo r,
      lines = done ++ todo
      /\ x = join_lines done ++ r
      /\ ~ In LF r
      /\ r ++ y = join_lines todo.
Proof.
  intros lines x y H. revert x y.
  induction H as [|l lines Hl Hrest IH]; intros x y E.
  - apply app_eq_nil in E. destruct E as [-> ->].
    exists [], [], []. repeat split; auto.
  - unfold join_lines in E. cbn [map List.concat] in E. fold (join_lines lines) in E.
    apply app_eq_app in E. destruct E as [z [[E1 E2]|[E1 E2]]].
    + destruct (IH z y (eq_sym E2)) as (done & todo & r & Hl' & Hz & Hr & Hy).
      exists (l :: done), todo, r. repeat split; auto.
      * now rewrite Hl'.
      * rewrite E1, Hz. unfold join_lines. cbn [map List.concat].
        now rewrite <- !app_assoc.
    + (* x ends inside the first line, or with it *)
      destruct z as [|c z].
      * rewrite app_nil_r in E1. simpl in E2. subst y.
        exists [l], lines, []. repeat split; auto.
        unfold join_lines. simpl. now rewrite !app_nil_r.
      * destruct (exists_last (l:=c :: z)) as [z' [c' Ez]]; [discriminate|].
        rewrite Ez in E1. rewrite app_assoc in E1.
        apply app_inj_tail in E1. destruct E1 as [El Ec]. subst c'.
        exists [], (l :: lines), x. repeat split; auto.
        -- intro Hin. apply Hl. rewrite El. apply in_or_app. now left.
        -- unfold join_lines. cbn [map List.concat]. fold (join_lines lines).
           rewrite E2, Ez, El. now rewrite <- !app_assoc.
Qed.

Section ReassemblyClaim.

Context {engine : Engine} {constants : Constants}.

Lemma set_last_text_last :
  forall t before m,
    Chat.set_last_text t (before ++ [m]) =
      before ++ [{| Chat.role := Chat.role m; Chat.text := t |}].
Proof.
  intros t before m. unfold Chat.set_last_text.
  rewrite rev_app_distr. cbn [rev app]. now rewrite rev_involutive.
Qed.

Lemma process_record :
  forall st d,
    reads_back d ->
    Chat.process_line st (text_record d) = ([], inr (show_delta st d)).
Proof.
  intros st d Hd. unfold Chat.process_line. rewrite text_record_trimmed.
  destruct (text_record d) as [|c rest] eqn:E.
  { rewrite text_record_shape in E. discriminate E. }
  rewrite <- E. unfold Chat.line_body, parse. rewrite Hd.
  destruct d; reflexivity.
Qed.

Lemma process_records :
  forall ds st,
    Forall reads_back ds ->
    Chat.process_lines st (map text_record ds) = ([], inr (fold_left show_delta ds st)).
Proof.
  induction ds as [|d ds IH]; intros st H; [reflexivity|].
  inversion H as [|? ? Hd Hds]; subst.
  cbn [map Chat.process_lines fold_left].
  rewrite (process_record st d Hd). unfold bind. now rewrite (IH _ Hds).
Qed.

Lemma show_delta_spec :
  forall before speaker st d,
    shown before speaker st ->
    Chat.decoder (show_delta st d) = Chat.decoder st
    /\ Chat.buffer (show_delta st d) = Chat.buffer st
    /\ Chat.modelResponseText (show_delta st d) = Chat.modelResponseText st ++ d
    /\ shown before speaker (show_delta st d).
Proof.
  intros before speaker st d H. destruct d as [|c d].
  - simpl. rewrite app_nil_r. auto.
  - unfold shown in *. cbn [show_delta Chat.decoder Chat.buffer Chat.modelResponseText
                             Chat.messages].
    rewrite H, set_last_text_last. auto.
Qed.

Lemma show_deltas_spec :
  forall before speaker ds st,
    shown before speaker st ->
    Chat.decoder (fold_left show_delta ds st) = Chat.decoder st
    /\ Chat.buffer (fold_left show_delta ds st) = Chat.buffer st
    /\ Chat.modelResponseText (fold_left show_delta ds st) =
         Chat.modelResponseText st ++ List.concat ds
    /\ shown before speaker (fold_left show_delta ds st).
Proof.
  intros before speaker ds. induction ds as [|d ds IH]; intros st H.
  - simpl. rewrite app_nil_r. auto.
  - cbn [fold_left List.concat].
    destruct (show_delta_spec before speaker st d H) as (H1 & H2 & H3 & H4).
    destruct (IH _ H4) as (I1 & I2 & I3 & I4).
    rewrite I1, I2, I3, H1, H2, H3, app_assoc. auto.
Qed.

(** The loop over the chunks, from any point of a well-formed stream: what is
    in the buffer and what the decoder will still give out are, together, the
    records of the deltas to come. *)
Lemma read_chunks_wire :
  forall before speaker chunks st ds,
    Forall reads_back ds ->
    Chat.buffer st ++ snd (decode (Chat.decoder st) (List.concat chunks)) = wire ds ->
    ~ In LF (Chat.buffer st) ->
    shown before speaker st ->
    exists st',
      Chat.read_chunks st chunks = ([], inr st')
      /\ Chat.modelResponseText st' = Chat.modelResponseText st ++ List.concat ds
      /\ Chat.buffer st' = []
      /\ shown before speaker st'.
Proof.
  intros before speaker chunks.
  induction chunks as [|value rest IH]; intros st ds Hds Hwire Hbuf Hshown.
  - cbn [List.concat decode snd] in Hwire. rewrite app_nil_r in Hwire.
    destruct ds as [|d ds].
    + exists st. cbn [List.concat]. rewrite app_nil_r. repeat split; auto.
    + exfalso. apply Hbuf. rewrite Hwire. unfold wire, join_lines.
      cbn [map List.concat]. apply in_or_app. left. apply in_or_app. right. now left.
  - cbn [List.concat] in Hwire. rewrite decode_app in Hwire. cbn [snd] in Hwire.
    rewrite app_assoc in Hwire.
    destruct (prefix_of_lines (map text_record ds) _ _
                (proj2 (Forall_forall _ _)
                   (fun l Hl =>
                      match proj1 (in_map_iff _ _ _) Hl with
                      | ex_intro _ d (conj E _) =>
                          eq_ind _ (fun l => ~ In LF l) (text_record_one_line d) _ E
                      end))
                Hwire)
      as (done & todo & r & Hsplit & Hx & Hr & Hy).
    apply map_eq_app in Hsplit.
    destruct Hsplit as (ds1 & ds2 & -> & <- & <-).
    apply Forall_app in Hds. destruct Hds as [Hds1 Hds2].
    cbn [Chat.read_chunks]. unfold Chat.on_chunk.
    destruct (decode (Chat.decoder st) value) as [d1 decoded] eqn:Hdec.
    cbn [fst snd] in Hx, Hy. rewrite Hx.
    rewrite split_join_lines; [|
      apply Forall_forall; intros l Hl; apply in_map_iff in Hl;
      destruct Hl as [d [<- _]]; apply text_record_one_line | exact Hr].
    rewrite removelast_last, last_last.
    rewrite (process_records ds1 _ Hds1).
    set (st0 := {| Chat.decoder := d1; Chat.buffer := r;
                   Chat.modelResponseText := Chat.modelResponseText st;
                   Chat.messages := Chat.messages st |}).
    assert (Hshown0 : shown before speaker st0) by exact Hshown.
    destruct (show_deltas_spec before speaker ds1 st0 Hshown0) as (S1 & S2 & S3 & S4).
    destruct (IH (fold_left show_delta ds1 st0) ds2 Hds2) as (st' & R1 & R2 & R3 & R4).
    + rewrite S1, S2. exact Hy.
    + now rewrite S2.
    + exact S4.
    + exists st'. unfold bind. rewrite R1. repeat split; auto.
      rewrite R2, S3. cbn [st0 Chat.modelResponseText].
      now rewrite concat_app, app_assoc.
Qed.


Lemma utf8_encode_ascii :
  forall c s, c < 128 -> utf8_encode (c :: s) = c :: utf8_encode s.
Proof.
  intros c s H. cbn [utf8_encode].
  unfold is_high_surrogate, is_low_surrogate.
  rewrite (proj2 (N.leb_gt 55296 c)) by lia.
  rewrite (proj2 (N.leb_gt 56320 c)) by lia.
  cbn [andb]. unfold utf8_bytes. now rewrite (proj2 (N.ltb_lt c 128) H).
Qed.

(** The first byte of a stream that starts with an ASCII character. *)
Lemma decode_first :
  forall c bytes,
    c < 128 ->
    decode new_TextDecoder (c :: bytes) =
      (fst (decode between bytes), c :: snd (decode between bytes)).
Proof.
  intros c bytes H.
  change (decode new_TextDecoder (c :: bytes)) with
    (let (u, cps) := decode_byte utf8_start c in
     let (seen, s) := serialize false cps in
     let (d', s') := decode {| utf8 := u; BOM_seen := seen |} bytes in
     (d', s ++ s')).
  rewrite decode_byte_ascii by lia. cbn [serialize negb andb].
  rewrite (proj2 (N.eqb_neq c 65279)) by lia.
  rewrite code_units_bmp by lia.
  fold between. now destruct (decode between bytes).
Qed.

Lemma wire_cons : forall d ds, wire (d :: ds) = (text_record d ++ [LF]) ++ wire ds.
Proof. reflexivity. Qed.

Lemma wire_bytes_cons :
  forall d ds, wire_bytes (d :: ds) = utf8_encode (text_record d ++ [LF]) ++ wire_bytes ds.
Proof. reflexivity. Qed.

Lemma decode_wire_bytes :
  forall ds, Forall is_jsstring ds -> decode between (wire_bytes ds) = (between, wire ds).
Proof.
  induction 1 as [|d ds Hd _ IH]; [reflexivity|].
  destruct (stream_record_safe d Hd) as [W J].
  rewrite wire_bytes_cons, wire_cons, (decode_encode _ W J), IH. reflexivity.
Qed.

(** From the start of the stream, the decoder gives out the text of the
    records, whole. *)
Lemma decode_stream :
  forall ds, Forall is_jsstring ds -> snd (decode new_TextDecoder (wire_bytes ds)) = wire ds.
Proof.
  intros ds H. destruct H as [|d ds Hd Hds]; [reflexivity|].
  destruct (stream_record_safe d Hd) as [W J].
  rewrite wire_bytes_cons, wire_cons.
  rewrite text_record_shape in *. cbn [app] in *.
  rewrite utf8_encode_ascii by lia. cbn [app].
  rewrite decode_first by lia.
  inversion W as [|? ? _ W'|? ? ? Hh]; subst; [|discriminate Hh].
  inversion J as [|? ? _ J']; subst.
  rewrite (decode_encode _ W' J'), (decode_wire_bytes ds Hds). reflexivity.
Qed.

Lemma wire_bytes_written :
  forall ds,
    List.concat (map utf8_encode
                   (map stream_record (map (fun d => {| text := Some d |}) ds))) =
      wire_bytes ds.
Proof.
  intro ds. unfold wire_bytes. rewrite !map_map. f_equal.
  apply map_ext. intro d. now rewrite stream_record_text.
Qed.

(** The read loop on the bytes of a well-formed stream, cut in any way. *)
Lemma read_chunks_stream :
  forall (deltas : list jsstring) (chunks : list (list byte))
         (before : list Chat.ChatMessage) (speaker : jsstring),
    Forall is_jsstring deltas ->
    Forall reads_back deltas ->
    List.concat chunks = wire_bytes deltas ->
    exists st,
      Chat.read_chunks
        (loop_start (before ++ [{| Chat.role := speaker; Chat.text := [] |}])) chunks =
        ([], inr st)
      /\ Chat.modelResponseText st = List.concat deltas
      /\ Chat.buffer st = []
      /\ Chat.messages st =
           before ++ [{| Chat.role := speaker; Chat.text := List.concat deltas |}].
Proof.
  intros deltas chunks before speaker Hjs Hrb Hbytes.
  destruct (read_chunks_wire before speaker chunks
              (loop_start (before ++ [{| Chat.role := speaker; Chat.text := [] |}]))
              deltas Hrb)
    as (st & R1 & R2 & R3 & R4).
  - cbn [loop_start Chat.buffer Chat.decoder app]. rewrite Hbytes.
    now apply decode_stream.
  - intros [].
  - reflexivity.
  - exists st. repeat split; auto. unfold shown in R4. now rewrite R4, R2.
Qed.

(** C6. Let the chat stream carry the records of any sequence of text deltas,
    each a string of 16-bit code units whose record [JSON.parse] reads back,
    written by the dispatcher one [res.write] per delta, and let the bytes of
    the stream reach the reader cut into chunks in any way at all, inside a
    line or inside a character. Then the read loop ends without an error
    logged, the answer it has built is the concatenation of the deltas in
    order, nothing is left in the line buffer, and the last message of the
    view shows that answer. The chunks appear in the premise only through
    their concatenation: the result does not depend on where they are cut. *)
Theorem chat_reassembly :
  forall (deltas : list jsstring) (chunks : list (list byte))
         (before : list Chat.ChatMessage) (speaker : jsstring),
    Forall is_jsstring deltas ->
    Forall reads_back deltas ->
    List.concat chunks =
      List.concat (map utf8_encode
                     (map stream_record (map (fun d => {| text := Some d |}) deltas))) ->
    exists st,
      Chat.read_chunks
        (loop_start (before ++ [{| Chat.role := speaker; Chat.text := [] |}])) chunks =
        ([], inr st)
      /\ Chat.modelResponseText st = List.concat deltas
      /\ Chat.buffer st = []
      /\ Chat.messages st =
           before ++ [{| Chat.role := speaker; Chat.text := List.concat deltas |}].
Proof.
  intros deltas chunks before speaker Hjs Hrb Hbytes.
  rewrite wire_bytes_written in Hbytes.
  now apply read_chunks_stream.
Qed.

(** [handleSend] as a whole on such a stream: the user's message and the
    answer of the model are appended to the messages, the input is cleared
    and streaming is over. *)
Lemma handleSend_shows_answer :
  forall (fetch : Fetch) (language chatError : jsstring) (s : Chat.State)
         (response : FetchResponse) (stream : ByteStream) (deltas : list jsstring),
    trim (Chat.input s) <> [] ->
    Chat.isStreaming s = false ->
    fetch (str "/api/gemini")
      (action_request (str "chat")
         (VObj [(str "history",
                  VArr (map Chat.message_value
                          (Chat.state_messages s
                           ++ [{| Chat.role := ChatRole_USER; Chat.text := Chat.input s |}])));
                (str "message", VStr (Chat.input s));
                (str "language", VStr language)])) = inr response ->
    ok response = true ->
    response_body response = Some stream ->
    stream_failure stream = None ->
    Forall is_jsstring deltas ->
    Forall reads_back deltas ->
    List.concat (stream_chunks stream) = wire_bytes deltas ->
    outcome (Chat.handleSend fetch language chatError s) =
      inr {| Chat.state_messages :=
               (Chat.state_messages s
                ++ [{| Chat.role := ChatRole_USER; Chat.text := Chat.input s |}])
               ++ [{| Chat.role := ChatRole_MODEL; Chat.text := List.concat deltas |}];
             Chat.input := [];
             Chat.isStreaming := false |}.
Proof.
  intros fetch language chatError s response stream deltas
         Hin Hst Hfetch Hok Hbody Hend Hjs Hrb Hbytes.
  unfold Chat.handleSend. rewrite Hst.
  destruct (trim (Chat.input s)) as [|c rest]; [contradiction|].
  unfold streamChatResponse, postToAction, try_catch, bind, lift, emit, ret.
  rewrite Hfetch, Hok. cbn [negb app fst snd body_of].
  change (jsstring_eqb (str "chat") (str "chat")) with true. cbv iota.
  cbn [body_of]. rewrite Hbody.
  destruct (read_chunks_stream deltas (stream_chunks stream)
              (Chat.state_messages s
               ++ [{| Chat.role := ChatRole_USER; Chat.text := Chat.input s |}])
              ChatRole_MODEL Hjs Hrb Hbytes)
    as (st & R1 & R2 & R3 & R4).
  unfold loop_start in R1. rewrite R1, Hend. cbn [outcome snd app]. now rewrite R4.
Qed.

End ReassemblyClaim.

Section ReassemblyRuns.

#[local] Existing Instance Reference.engine.
#[local] Existing Instance Reference.constants.

(** C6 at three deltas, the last one Arabic, the bytes arriving seven at a
    time. *)
Lemma chat_reassembly_witness :
  exists st,
    Chat.read_chunks
      (loop_start ([{| Chat.role := str "user"; Chat.text := str "why?" |}]
                   ++ [{| Chat.role := str "model"; Chat.text := [] |}]))
      Scenario.greeting_chunks = ([], inr st)
    /\ Chat.modelResponseText st = List.concat Scenario.greeting
    /\ Chat.buffer st = []
    /\ Chat.messages st =
         [{| Chat.role := str "user"; Chat.text := str "why?" |}]
         ++ [{| Chat.role := str "model"; Chat.text := List.concat Scenario.greeting |}].
Proof.
  apply (chat_reassembly Scenario.greeting Scenario.greeting_chunks).
  - repeat constructor.
  - repeat constructor.
  - reflexivity.
Defined.

End ReassemblyRuns.

(** ** The reference engine reads every record back *)

Lemma hex_value_digit :
  forall x, x < 16 -> Reference.hex_value (hex_digit x) = Some x.
Proof.
  intros x H. unfold Reference.hex_value, Reference.is_digit, hex_digit.
  destruct (x <? 10) eqn:E; [apply N.ltb_lt in E|apply N.ltb_ge in E].
  - rewrite (proj2 (N.leb_le 48 (48 + x))) by lia.
    rewrite (proj2 (N.leb_le (48 + x) 57)) by lia.
    cbn [andb]. f_equal. lia.
  - rewrite (proj2 (N.leb_gt (87 + x) 57)) by lia. rewrite andb_false_r.
    rewrite (proj2 (N.leb_le 97 (87 + x))) by lia.
    rewrite (proj2 (N.leb_le (87 + x) 102)) by lia.
    cbn [andb]. f_equal. lia.
Qed.

Lemma string_body_literal :
  forall c t,
    c <> 34 -> c <> 92 -> 32 <= c ->
    Reference.string_body (c :: t) =
      match Reference.string_body t with
      | Some (s, rest) => Some (c :: s, rest)
      | None => None
      end.
Proof.
  intros c t H1 H2 H3. cbn [Reference.string_body].
  rewrite (proj2 (N.eqb_neq _ _) H1), (proj2 (N.eqb_neq _ _) H2).
  now rewrite (proj2 (N.ltb_ge _ _) H3).
Qed.

Lemma string_body_unicode_escape :
  forall c t,
    c < 65536 ->
    Reference.string_body (unicode_escape c ++ t) =
      match Reference.string_body t with
      | Some (s, rest) => Some (c :: s, rest)
      | None => None
      end.
Proof.
  intros c t H. unfold unicode_escape. cbn [app Reference.string_body].
  change (92 =? 34) with false. change (92 =? 92) with true.
  change (117 =? 117) with true. cbv iota.
  rewrite !hex_value_digit by euclid.
  replace (c / 4096 mod 16 * 4096 + c / 256 mod 16 * 256 + c / 16 mod 16 * 16 + c mod 16)
    with c by euclid.
  reflexivity.
Qed.

Lemma string_body_quote_unit :
  forall c t,
    Reference.string_body (quote_unit c ++ t) =
      match Reference.string_body t with
      | Some (s, rest) => Some (c :: s, rest)
      | None => None
      end.
Proof.
  intros c t. unfold quote_unit.
  destruct (c =? 8) eqn:E8; [apply N.eqb_eq in E8; subst; reflexivity|].
  destruct (c =? 9) eqn:E9; [apply N.eqb_eq in E9; subst; reflexivity|].
  destruct (c =? 10) eqn:E10; [apply N.eqb_eq in E10; subst; reflexivity|].
  destruct (c =? 12) eqn:E12; [apply N.eqb_eq in E12; subst; reflexivity|].
  destruct (c =? 13) eqn:E13; [apply N.eqb_eq in E13; subst; reflexivity|].
  destruct (c =? 34) eqn:E34; [apply N.eqb_eq in E34; subst; reflexivity|].
  destruct (c =? 92) eqn:E92; [apply N.eqb_eq in E92; subst; reflexivity|].
  apply N.eqb_neq in E34, E92.
  destruct ((c <? 32) || is_high_surrogate c || is_low_surrogate c) eqn:E.
  - apply string_body_unicode_escape.
    apply orb_true_iff in E. destruct E as [E|E].
    + apply orb_true_iff in E. destruct E as [E|E].
      * apply N.ltb_lt in E. lia.
      * unfold is_high_surrogate in E. apply andb_true_iff in E. destruct E as [_ E].
        apply N.leb_le in E. lia.
    + unfold is_low_surrogate in E. apply andb_true_iff in E. destruct E as [_ E].
      apply N.leb_le in E. lia.
  - apply orb_false_iff in E. destruct E as [E _].
    apply orb_false_iff in E. destruct E as [E _]. apply N.ltb_ge in E.
    cbn [app]. now apply string_body_literal.
Qed.

(** The string parser undoes [quote_body], up to the closing quote. *)
Lemma string_body_quote :
  forall d rest, Reference.string_body (quote_body d ++ QUOTE :: rest) = Some (d, rest).
Proof.
  induction d as [|c|c d s IHs IHd] using jsstring_pair_ind; intro rest.
  - reflexivity.
  - cbn [quote_body]. destruct (is_high_surrogate c) eqn:Hh.
    + rewrite string_body_unicode_escape; [reflexivity|].
      unfold is_high_surrogate in Hh. apply andb_true_iff in Hh. destruct Hh as [_ Hh].
      apply N.leb_le in Hh. lia.
    + rewrite app_nil_r, string_body_quote_unit. reflexivity.
  - cbn [quote_body]. destruct (is_high_surrogate c) eqn:Hh.
    + assert (Hc : 55296 <= c <= 56319).
      { unfold is_high_surrogate in Hh. apply andb_true_iff in Hh. destruct Hh as [H1 H2].
        apply N.leb_le in H1, H2. lia. }
      destruct (is_low_surrogate d) eqn:Hl.
      * assert (Hd : 56320 <= d <= 57343).
        { unfold is_low_surrogate in Hl. apply andb_true_iff in Hl. destruct Hl as [H1 H2].
          apply N.leb_le in H1, H2. lia. }
        cbn [app]. rewrite string_body_literal by lia.
        rewrite string_body_literal by lia. now rewrite IHs.
      * rewrite <- app_assoc, string_body_unicode_escape by lia. now rewrite IHd.
    + rewrite <- app_assoc, string_body_quote_unit. now rewrite IHd.
Qed.

(** Every record of a text delta is read back by the reference engine. *)
Lemma reference_reads_back :
  forall d, @reads_back Reference.engine d.
Proof.
  intro d. unfold reads_back. cbn [JSON_parse Reference.engine]. unfold Reference.json_text.
  assert (Hshape : text_record d =
            [123; 34; 116; 101; 120; 116; 34; 58; 34] ++ quote_body d ++ [QUOTE; 125]).
  { unfold text_record, quote_json_string. cbn [app]. rewrite <- !app_assoc. reflexivity. }
  rewrite Hshape. cbn [app List.length].
  set (n := List.length (quote_body d ++ [QUOTE; 125])).
  replace (2 * S (S (S (S (S (S (S (S (S n)))))))) + 2)%nat
    with (S (S (S (2 * n + 17))))%nat by lia.
  cbn [Reference.json_value Reference.json_members Reference.skip_space
       Reference.is_json_space Reference.string_body].
  cbn. rewrite !string_body_quote. reflexivity.
Qed.

(** * Further properties *)

(** ** The dispatcher, beyond its contract *)

Section DispatcherMore.

Context {engine : Engine} {constants : Constants}.

(** The response after a journal that starts by building the client. *)
Lemma response_of_client :
  forall key t, response_of (NewGoogleGenAI key :: t) = response_of t.
Proof. reflexivity. Qed.

(** The [catch] block on a response whose head has not gone out sends the
    document of the error and ends the response. *)
Lemma response_of_caught :
  forall t label e,
    headersSent (response_of t) = false ->
    ended (response_of (t ++ [ConsoleError label e; ResStatus 500;
                              ResJson (internal_error e)])) = true.
Proof.
  intros t label e H. unfold response_of in *. rewrite fold_left_app.
  cbn [fold_left res_step]. rewrite H.
  unfold headersSent in *. cbn [written ended]. rewrite H. reflexivity.
Qed.

(** The [catch] block on a response whose head has gone out changes nothing
    of it. *)
Lemma response_of_late :
  forall t label e,
    headersSent (response_of t) = true ->
    response_of (t ++ [ConsoleError label e; ResStatus 500;
                       ResJson (internal_error e)]) = response_of t.
Proof.
  intros t label e H. unfold response_of in *. rewrite fold_left_app.
  cbn [fold_left res_step]. now rewrite !H.
Qed.

(** The [catch] block writes nothing. *)
Lemma written_after_catch :
  forall t label e,
    written (response_of (t ++ [ConsoleError label e; ResStatus 500;
                                ResJson (internal_error e)])) =
      written (response_of t).
Proof.
  intros t label e. unfold response_of. rewrite fold_left_app.
  cbn [fold_left res_step].
  destruct (headersSent (fold_left res_step t fresh_response)) eqn:H.
  - now rewrite H.
  - unfold headersSent in *. cbn [written ended]. rewrite H. reflexivity.
Qed.

(** The response while the records of a chat are being written. *)
Lemma response_of_streaming :
  forall p msg chunks,
    response_of
      ([ChatsCreate p; SendMessageStream msg;
        ResSetHeader (str "Content-Type") (str "text/plain; charset=utf-8");
        ResSetHeader (str "Transfer-Encoding") (str "chunked")]
       ++ map (fun c => ResWrite (stream_record c)) chunks) =
      {| statusCode := 200;
         headers := [(str "Content-Type", str "text/plain; charset=utf-8");
                     (str "Transfer-Encoding", str "chunked")];
         jsonBody := None;
         written := map stream_record chunks;
         ended := false |}.
Proof.
  intros p msg chunks. unfold response_of.
  rewrite fold_left_app, response_of_writes by reflexivity. reflexivity.
Qed.

(** What the [switch] leaves behind: it returns having sent the last of the
    response; or it throws before anything was sent; or, for a chat whose
    stream broke after a record, it throws with the head of the response
    gone out and the response not ended. *)
Lemma dispatch_settles :
  forall ai action payload,
    ((action = VStr (str "chat")
      /\ exists c chunks e, open_stream ai payload = inr (c :: chunks, Some e))
     /\ exists t x,
          dispatch ai action payload = (t, inl x)
          /\ headersSent (response_of t) = true
          /\ ended (response_of t) = false
          /\ statusCode (response_of t) = 200)
    \/ (~ (action = VStr (str "chat")
           /\ exists c chunks e, open_stream ai payload = inr (c :: chunks, Some e))
        /\ ((exists t,
               dispatch ai action payload = (t, inr tt)
               /\ ended (response_of t) = true
               /\ exists pre e,
                    t = pre ++ [e] /\ (e = ResEnd \/ exists b, e = ResJson b))
            \/ (exists t x a,
                  dispatch ai action payload = (t, inl x)
                  /\ action = VStr a
                  /\ headersSent (response_of t) = false))).
Proof.
  intros ai action payload. unfold dispatch.
  destruct (strict_eq_str action (str "generateInitialData")) eqn:A1;
    [|destruct (strict_eq_str action (str "solveProblem")) eqn:A2;
      [|destruct (strict_eq_str action (str "chat")) eqn:A3]].
  - apply strict_eq_str_true in A1. right.
    split; [intros [H _]; rewrite A1 in H; discriminate H|].
    rewrite case_generateInitialData_eq.
    destruct (object_coercible payload) as [e|[]];
      [right; eexists; eexists; eexists; split; [reflexivity|split; [eassumption|reflexivity]]|].
    cbv zeta.
    repeat match goal with
           | |- context [match ?x with inl _ => _ | inr _ => _ end] => destruct x
           end;
      try (right; eexists; eexists; eexists;
           split; [reflexivity|split; [eassumption|reflexivity]]).
    left. eexists. split; [reflexivity|]. split; [reflexivity|].
    eexists (_ :: _ :: [_]), _. split; [reflexivity|]. right. eauto.
  - apply strict_eq_str_true in A2. right.
    split; [intros [H _]; rewrite A2 in H; discriminate H|].
    rewrite case_solveProblem_eq.
    destruct (object_coercible payload) as [e|[]];
      [right; eexists; eexists; eexists; split; [reflexivity|split; [eassumption|reflexivity]]|].
    destruct (solve_contents _) as [e|contents];
      [right; eexists; eexists; eexists; split; [reflexivity|split; [eassumption|reflexivity]]|].
    cbv zeta.
    repeat match goal with
           | |- context [match ?x with inl _ => _ | inr _ => _ end] => destruct x
           end;
      try (right; eexists; eexists; eexists;
           split; [reflexivity|split; [eassumption|reflexivity]]).
    left. eexists. split; [reflexivity|]. split; [reflexivity|].
    eexists (_ :: [_]), _. split; [reflexivity|]. right. eauto.
  - apply strict_eq_str_true in A3. rewrite case_chat_eq. unfold open_stream.
    destruct (object_coercible payload) as [e|[]].
    { right. split; [intros (_ & c & cs & x & H); discriminate H|].
      right. eexists. eexists. eexists.
      split; [reflexivity|split; [eassumption|reflexivity]]. }
    destruct (geminiHistory _) as [e|turns].
    { right. split; [intros (_ & c & cs & x & H); discriminate H|].
      right. eexists. eexists. eexists.
      split; [reflexivity|split; [eassumption|reflexivity]]. }
    cbv zeta.
    destruct (sendMessageStream ai _ _) as [e|[chunks [e|]]].
    + right. split; [intros (_ & c & cs & x & H); discriminate H|].
      right. eexists. eexists. eexists.
      split; [reflexivity|split; [eassumption|reflexivity]].
    + destruct chunks as [|c cs].
      * right. split; [intros (_ & c & cs & x & H); discriminate H|].
        right. eexists. eexists. eexists.
        split; [reflexivity|split; [eassumption|reflexivity]].
      * left. split; [split; [exact A3|eauto]|].
        eexists. eexists. split; [reflexivity|].
        rewrite app_nil_r, response_of_streaming. repeat split.
    + right. split; [intros (_ & c & cs & x & H); discriminate H|].
      left. eexists. split; [reflexivity|].
      rewrite app_assoc. unfold response_of at 1.
      rewrite fold_left_app. fold (response_of
        ([ChatsCreate (chat_parameters turns (field payload (str "language")));
          SendMessageStream (field payload (str "message"));
          ResSetHeader (str "Content-Type") (str "text/plain; charset=utf-8");
          ResSetHeader (str "Transfer-Encoding") (str "chunked")]
         ++ map (fun c => ResWrite (stream_record c)) chunks)).
      rewrite response_of_streaming. split; [reflexivity|].
      eexists. eexists. split; [reflexivity|]. now left.
  - apply strict_eq_str_false in A3. right.
    split; [intros [H _]; contradiction|].
    left. eexists. split; [reflexivity|]. split; [reflexivity|].
    exists [ResStatus 400], (ResJson (error_body (str "Invalid action"))).
    split; [reflexivity|]. right. eauto.
Qed.

Lemma provider_calls_writes :
  forall chunks, provider_calls (map (fun c => ResWrite (stream_record c)) chunks) = [].
Proof. induction chunks; simpl; auto. Qed.

Lemma no_end_in_writes :
  forall chunks, ~ In ResEnd (map (fun c => ResWrite (stream_record c)) chunks).
Proof.
  intros chunks H. apply in_map_iff in H. destruct H as [c [H _]]. discriminate H.
Qed.

(** X1. A request whose body can be destructured is answered, unless its
    chat stream breaks after a record has been written. Apart from that case
    the handler returns without throwing, whatever the provider does, the
    last thing it does is send the response, by [res.json] or [res.end], and
    the response is ended. In that case the [res.json] of the [catch] block
    meets a response whose head has gone out and throws: the handler rejects
    with that error, and the response, a 200 with the records written so far,
    is never ended. *)
Theorem handler_answers_unless_stream_breaks :
  forall env ai req,
    object_coercible (body req) = inr tt ->
    (stream_broke env ai req ->
     outcome (handler env ai req) = inl headers_sent_error
     /\ ended (response_of (journal (handler env ai req))) = false
     /\ statusCode (response_of (journal (handler env ai req))) = 200)
    /\ (~ stream_broke env ai req ->
        outcome (handler env ai req) = inr tt
        /\ ended (response_of (journal (handler env ai req))) = true
        /\ exists pre e,
             journal (handler env ai req) = pre ++ [e]
             /\ (e = ResEnd \/ exists b, e = ResJson b)).
Proof.
  intros env ai req Hb. unfold stream_broke.
  destruct (handler_cases env ai req) as [[Hm H]|[[_ [Hk H]]|[key [Hm Hk]]]].
  - split; [intros [Hm' _]; contradiction|]. intros _. rewrite H.
    split; [reflexivity|]. split; [reflexivity|].
    exists [ResStatus 405]. eexists. split; [reflexivity|]. right. eauto.
  - split; [intros (_ & Hk' & _); contradiction|]. intros _. rewrite H.
    split; [reflexivity|]. split; [reflexivity|].
    exists [ResStatus 500]. eexists. split; [reflexivity|]. right. eauto.
  - rewrite (handler_dispatches env ai req key Hm Hk Hb). cbv zeta.
    destruct (dispatch_settles ai (field (body req) (str "action"))
                (field (body req) (str "payload")))
      as [[Hbroke (t & x & Hd & Hsent & Hend & Hstatus)]
         |[Hnot [(t & Hd & Hend & pre & e & Ht & He)|(t & x & a & Hd & Ha & Hsent)]]].
    + destruct Hbroke as [Ha Hs].
      split; [|intro Hn; exfalso; apply Hn; split; [exact Hm|];
               split; [congruence|]; split; assumption].
      intros _. rewrite Hd, Ha.
      cbn [try_catch journal outcome fst snd]. rewrite on_error_string, Hsent.
      unfold journal, outcome. cbn [fst snd].
      rewrite response_of_client, response_of_late by exact Hsent.
      repeat split; assumption.
    + split; [intros (_ & _ & H); contradiction|]. intros _. rewrite Hd.
      unfold try_catch, journal, outcome. cbn [fst snd]. rewrite response_of_client.
      split; [reflexivity|]. split; [exact Hend|].
      exists (NewGoogleGenAI key :: pre), e. rewrite Ht. split; [reflexivity|exact He].
    + split; [intros (_ & _ & H); contradiction|]. intros _. rewrite Hd, Ha.
      cbn [try_catch journal outcome fst snd]. rewrite on_error_string, Hsent.
      unfold journal, outcome. cbn [fst snd]. rewrite response_of_client.
      split; [reflexivity|]. split; [now apply response_of_caught|].
      eexists (NewGoogleGenAI key :: t ++ [_; _]), _. split.
      * cbn [app]. now rewrite <- app_assoc.
      * right. eauto.
Qed.

(** X2. A POST made with the key set to a string that is not empty but
    without a body, or with the body
    [null], is not answered at all: the destructuring of the body throws a
    [TypeError] outside the [try] block, after the client was built and before
    any call on [res] or on the provider. *)
Theorem handler_rejects_missing_body :
  forall env ai req key,
    method req = str "POST" ->
    api_key env = Some key ->
    body req = VUndefined \/ body req = VNull ->
    journal (handler env ai req) = [NewGoogleGenAI key]
    /\ response_of (journal (handler env ai req)) = fresh_response
    /\ exists e, outcome (handler env ai req) = inl e /\ name e = TypeError.
Proof.
  intros env ai req key Hm Hk Hb.
  assert (He : exists e, object_coercible (body req) = inl e /\ name e = TypeError).
  { destruct Hb as [-> | ->]; eexists; split; reflexivity. }
  destruct He as [e [He Hn]].
  rewrite (handler_no_body env ai req key e Hm Hk He).
  repeat split. exists e. auto.
Qed.

(** X3. For a POST, the answer "API_KEY is not configured on the server." is
    given exactly when the variable is unset or is the empty string. *)
Theorem key_guard_exact :
  forall env ai req,
    method req = str "POST" ->
    (API_KEY env = None \/ API_KEY env = Some [] <->
     handler env ai req =
       ([ResStatus 500;
         ResJson (error_body (str "API_KEY is not configured on the server."))], inr tt)).
Proof.
  intros env ai req Hm. split.
  - intro Hk. apply (handler_no_key env ai req Hm).
    unfold api_key. destruct Hk as [-> | ->]; reflexivity.
  - intro H. destruct (API_KEY env) as [[|c k]|] eqn:Hk; auto.
    exfalso.
    assert (Hkey : api_key env = Some (c :: k)) by (unfold api_key; now rewrite Hk).
    destruct (object_coercible (body req)) as [e|[]] eqn:Hb.
    + rewrite (handler_no_body env ai req _ e Hm Hkey Hb) in H. discriminate H.
    + rewrite (handler_dispatches env ai req _ Hm Hkey Hb) in H. discriminate H.
Qed.


(** X4. With the key set to a string that is not empty, a [solveProblem] POST is answered 200 with body [b]
    exactly when the contents of the problem can be built, the one provider
    call made with them resolves with a text, and that text, trimmed, parses
    to [b]: the parsed value is passed on as it is, whatever its shape; and
    then nothing else was done than build the client, call the provider once
    and send the answer. *)
Theorem solveProblem_passes_through :
  forall env ai req key b,
    method req = str "POST" ->
    api_key env = Some key ->
    field (body req) (str "action") = VStr (str "solveProblem") ->
    (json_response (journal (handler env ai req)) 200 b <->
     exists contents t,
       object_coercible (field (body req) (str "payload")) = inr tt
       /\ solve_contents (field (field (body req) (str "payload")) (str "problem")) =
            inr contents
       /\ generateContent ai
            (solve_request contents (field (field (body req) (str "payload")) (str "language"))) =
            inr {| text := Some t |}
       /\ JSON_parse (trim t) = inr b)
    /\ (json_response (journal (handler env ai req)) 200 b ->
        exists contents,
          journal (handler env ai req) =
            [NewGoogleGenAI key;
             GenerateContent
               (solve_request contents
                  (field (field (body req) (str "payload")) (str "language")));
             ResStatus 200; ResJson b]).
Proof.
  intros env ai req key b Hm Hk Ha.
  rewrite (handler_catches env ai req key _ Hm Hk Ha).
  rewrite dispatch_solveProblem, case_solveProblem_eq.
  set (payload := field (body req) (str "payload")).
  destruct (object_coercible payload) as [e|[]].
  { split; [split|]; try (intro H; discriminate H).
    intros (c & t & H & _). discriminate H. }
  destruct (solve_contents _) as [e|contents].
  { split; [split|]; try (intro H; discriminate H).
    intros (c & t & _ & H & _). discriminate H. }
  cbv zeta.
  destruct (generateContent ai _) as [e|[rt]] eqn:Hg.
  { split; [split|]; try (intro H; discriminate H).
    intros (c & t & _ & Hc & H & _). inversion Hc; subst c. rewrite Hg in H. discriminate H. }
  destruct rt as [t|].
  - unfold text_trim, parse. cbn [text].
    destruct (JSON_parse (trim t)) as [msg|v] eqn:Hp.
    + split; [split|]; try (intro H; discriminate H).
      intros (c & t' & _ & Hc & H & Hp'). inversion Hc; subst c.
      rewrite Hg in H. inversion H; subst t'. rewrite Hp in Hp'. discriminate Hp'.
    + split; [split|].
      * intro H. exists contents, t. repeat split; auto.
        unfold json_response, response_of, journal in H. simpl in H. congruence.
      * intros (c & t' & _ & Hc & H & Hp'). inversion Hc; subst c.
        rewrite Hg in H. inversion H; subst t'. rewrite Hp in Hp'.
        inversion Hp'; subst v. reflexivity.
      * intro H. exists contents.
        unfold json_response, response_of, journal in H. simpl in H.
        assert (v = b) by congruence. subst v. reflexivity.
  - split; [split|]; try (intro H; discriminate H).
    intros (c & t' & _ & Hc & H & _). inversion Hc; subst c.
    rewrite Hg in H. discriminate H.
Qed.

(** X5. A request for one of the three actions whose payload is missing or
    malformed is answered 500 with the message of a [TypeError], and neither
    the provider is called nor a chat created: a payload that is [undefined]
    or [null]; for [solveProblem], a problem that is no string and has no
    image; for [chat], a history that is no array. *)
Theorem malformed_payload_is_500 :
  forall env ai req key a,
    method req = str "POST" ->
    api_key env = Some key ->
    field (body req) (str "action") = VStr a ->
    (object_coercible (field (body req) (str "payload")) <> inr tt
     /\ (a = str "generateInitialData" \/ a = str "solveProblem" \/ a = str "chat"))
    \/ (a = str "solveProblem"
        /\ (forall s, field (field (body req) (str "payload")) (str "problem") <> VStr s)
        /\ object_coercible
             (field (field (field (body req) (str "payload")) (str "problem")) (str "image"))
           <> inr tt)
    \/ (a = str "chat"
        /\ forall l, field (field (body req) (str "payload")) (str "history") <> VArr l) ->
    exists e,
      name e = TypeError
      /\ journal (handler env ai req) =
           [NewGoogleGenAI key;
            ConsoleError (str "Error in action '" ++ a ++ str "':") e;
            ResStatus 500; ResJson (internal_error e)]
      /\ json_response (journal (handler env ai req)) 500 (internal_error e)
      /\ filter sdk_use (journal (handler env ai req)) = [NewGoogleGenAI key].
Proof.
  intros env ai req key a Hm Hk Ha Hbad.
  rewrite (handler_catches env ai req key _ Hm Hk Ha).
  set (payload := field (body req) (str "payload")) in *.
  assert (Hthrow : exists e, name e = TypeError /\ dispatch ai (VStr a) payload = ([], inl e)).
  { destruct Hbad as [[Hp Hact]|[(-> & Hs & Hi)|(-> & Hh)]].
    - assert (He : exists e, name e = TypeError /\ object_coercible payload = inl e).
      { destruct payload; try (exfalso; apply Hp; reflexivity);
          eexists; (split; [|reflexivity]); reflexivity. }
      destruct He as (e & Hn & He). exists e. split; [exact Hn|].
      destruct Hact as [-> | [-> | ->]].
      + now rewrite dispatch_generateInitialData, case_generateInitialData_eq, He.
      + now rewrite dispatch_solveProblem, case_solveProblem_eq, He.
      + now rewrite dispatch_chat, case_chat_eq, He.
    - rewrite dispatch_solveProblem, case_solveProblem_eq.
      destruct (object_coercible payload) as [e|[]] eqn:Hp.
      { exists e. split; [|reflexivity]. destruct payload; try discriminate Hp;
          inversion Hp; reflexivity. }
      set (problem := field payload (str "problem")) in *.
      assert (He : exists e, name e = TypeError /\ solve_contents problem = inl e).
      { unfold solve_contents.
        destruct (object_coercible problem) as [e|[]] eqn:Hc.
        - destruct problem; try discriminate Hc; eexists; (split; [|reflexivity]); reflexivity.
        - rewrite (coercible_get problem (str "image") Hc).
          destruct problem; try (exfalso; eapply Hs; reflexivity);
            (destruct (field _ (str "image")) eqn:Hf;
             try (exfalso; apply Hi; reflexivity);
             eexists; (split; [|reflexivity]); reflexivity). }
      destruct He as (e & Hn & He). exists e. split; [exact Hn|]. now rewrite He.
    - rewrite dispatch_chat, case_chat_eq.
      destruct (object_coercible payload) as [e|[]] eqn:Hp.
      { exists e. split; [|reflexivity]. destruct payload; try discriminate Hp;
          inversion Hp; reflexivity. }
      assert (He : exists e, name e = TypeError
                             /\ geminiHistory (field payload (str "history")) = inl e).
      { destruct (field payload (str "history")) eqn:Hf;
          try (exfalso; eapply Hh; reflexivity);
          eexists; (split; [|reflexivity]); reflexivity. }
      destruct He as (e & Hn & He). exists e. split; [exact Hn|]. now rewrite He. }
  destruct Hthrow as (e & Hn & ->). exists e. repeat split. exact Hn.
Qed.

(** X6. A chat whose provider stream fails after it has started: the records
    of the chunks yielded before the failure have all been written, in order;
    the dispatcher then logs the error and calls [res.status(500).json] on the
    response it was streaming; and it never calls [res.end]. *)
Theorem broken_stream_is_not_ended :
  forall env ai req key chunks e,
    method req = str "POST" ->
    api_key env = Some key ->
    field (body req) (str "action") = VStr (str "chat") ->
    open_stream ai (field (body req) (str "payload")) = inr (chunks, Some e) ->
    (exists p msg,
       journal (handler env ai req) =
         [NewGoogleGenAI key; ChatsCreate p; SendMessageStream msg;
          ResSetHeader (str "Content-Type") (str "text/plain; charset=utf-8");
          ResSetHeader (str "Transfer-Encoding") (str "chunked")]
         ++ map (fun c => ResWrite (stream_record c)) chunks
         ++ [ConsoleError (str "Error in action 'chat':") e;
             ResStatus 500; ResJson (internal_error e)])
    /\ written (response_of (journal (handler env ai req))) = map stream_record chunks
    /\ ~ In ResEnd (journal (handler env ai req)).
Proof.
  intros env ai req key chunks e Hm Hk Ha Hs.
  rewrite (handler_catches env ai req key _ Hm Hk Ha).
  rewrite dispatch_chat, case_chat_eq. unfold open_stream in Hs.
  destruct (object_coercible _) as [x|[]]; [discriminate Hs|].
  destruct (geminiHistory _) as [x|turns]; [discriminate Hs|].
  cbv zeta. rewrite Hs. cbn [journal fst]. rewrite app_nil_r. split; [|split].
  - eexists. eexists. reflexivity.
  - rewrite response_of_client, written_after_catch, response_of_streaming.
    reflexivity.
  - cbn [app]. intros [H|[H|[H|[H|[H|H]]]]]; try discriminate H.
    apply in_app_or in H. destruct H as [H|[H|[H|[H|[]]]]]; try discriminate H.
    now apply no_end_in_writes in H.
Qed.

(** X7. With the key set to a string that is not empty, a
    [generateInitialData] POST is answered 200
    exactly when both provider calls resolve with a text that parses to a
    value other than [null]; the body is then made of the [problems] member of
    the first and the [fact] member of the second as they are, [undefined]
    when the member is missing: nothing checks the parsed values against the
    schemas that were sent to the provider. *)
Theorem initial_data_unvalidated :
  forall env ai req key b,
    method req = str "POST" ->
    api_key env = Some key ->
    field (body req) (str "action") = VStr (str "generateInitialData") ->
    (json_response (journal (handler env ai req)) 200 b <->
     exists ta tb va vb,
       object_coercible (field (body req) (str "payload")) = inr tt
       /\ generateContent ai
            (examples_request (field (field (body req) (str "payload")) (str "language"))) =
            inr {| text := Some ta |}
       /\ generateContent ai
            (fact_request (field (field (body req) (str "payload")) (str "language"))) =
            inr {| text := Some tb |}
       /\ JSON_parse (trim ta) = inr va
       /\ JSON_parse (trim tb) = inr vb
       /\ object_coercible va = inr tt
       /\ object_coercible vb = inr tt
       /\ b = VObj [(str "examples", field va (str "problems"));
                    (str "fact", field vb (str "fact"))]).
Proof.
  intros env ai req key b Hm Hk Ha.
  rewrite (handler_catches env ai req key _ Hm Hk Ha).
  rewrite dispatch_generateInitialData, case_generateInitialData_eq.
  set (payload := field (body req) (str "payload")).
  destruct (object_coercible payload) as [e|[]].
  { split; [intro H; discriminate H|].
    intros (ta & tb & va & vb & H & _). discriminate H. }
  cbv zeta.
  set (a := examples_request (field payload (str "language"))).
  set (c := fact_request (field payload (str "language"))).
  destruct (generateContent ai a) as [ea|[ra]] eqn:Hga;
    destruct (generateContent ai c) as [ec|[rc]] eqn:Hgc;
    try (split; [intro H; discriminate H|];
         intros (ta & tb & va & vb & _ & H1 & H2 & _); discriminate).
  unfold text_trim, parse. cbn [text].
  destruct ra as [ta|];
    [|split; [intro H; discriminate H|];
      intros (ta & tb & va & vb & _ & H1 & _); discriminate].
  destruct (JSON_parse (trim ta)) as [msg|va] eqn:Hpa.
  { split; [intro H; discriminate H|].
    intros (ta' & tb & va & vb & _ & H1 & _ & H3 & _).
    inversion H1; subst ta'. rewrite Hpa in H3. discriminate H3. }
  destruct rc as [tb|];
    [|split; [intro H; discriminate H|];
      intros (ta' & tb & va' & vb & _ & _ & H2 & _); discriminate].
  destruct (JSON_parse (trim tb)) as [msg|vb] eqn:Hpb.
  { split; [intro H; discriminate H|].
    intros (ta' & tb' & va' & vb & _ & _ & H2 & _ & H4 & _).
    inversion H2; subst tb'. rewrite Hpb in H4. discriminate H4. }
  destruct (object_coercible va) as [e|[]] eqn:Hca.
  { assert (Hg : exists x, get va (str "problems") = inl x)
      by (destruct va; try discriminate Hca; eexists; reflexivity).
    destruct Hg as [x Hg]. rewrite Hg. split; [intro H; discriminate H|].
    intros (ta' & tb' & va' & vb' & _ & H1 & _ & H3 & _ & H5 & _).
    inversion H1; subst ta'. rewrite Hpa in H3. inversion H3; subst va'.
    rewrite Hca in H5. discriminate H5. }
  rewrite (coercible_get va _ Hca).
  destruct (object_coercible vb) as [e|[]] eqn:Hcb.
  { assert (Hg : exists x, get vb (str "fact") = inl x)
      by (destruct vb; try discriminate Hcb; eexists; reflexivity).
    destruct Hg as [x Hg]. rewrite Hg. split; [intro H; discriminate H|].
    intros (ta' & tb' & va' & vb' & _ & _ & H2 & _ & H4 & _ & H6 & _).
    inversion H2; subst tb'. rewrite Hpb in H4. inversion H4; subst vb'.
    rewrite Hcb in H6. discriminate H6. }
  rewrite (coercible_get vb _ Hcb). split.
  - intro H. exists ta, tb, va, vb. repeat split; auto.
    unfold json_response, response_of, journal in H. simpl in H. congruence.
  - intros (ta' & tb' & va' & vb' & _ & H1 & H2 & H3 & H4 & _ & _ & ->).
    inversion H1; subst ta'. inversion H2; subst tb'.
    rewrite Hpa in H3. rewrite Hpb in H4.
    inversion H3; subst va'. inversion H4; subst vb'. reflexivity.
Qed.

(** X8. A rejection by the provider is answered 500 with the message of the
    rejection. For [generateInitialData] both calls have been issued whichever
    of them rejects, and the other result is dropped; for [solveProblem] the
    one call; for [chat] the chat was created and the message sent, and no
    header was set. *)
Theorem provider_rejection_is_500 :
  forall env ai req key,
    method req = str "POST" ->
    api_key env = Some key ->
    object_coercible (field (body req) (str "payload")) = inr tt ->
    (field (body req) (str "action") = VStr (str "generateInitialData") ->
     forall e,
       generateContent ai
         (examples_request (field (field (body req) (str "payload")) (str "language"))) = inl e
       \/ generateContent ai
            (fact_request (field (field (body req) (str "payload")) (str "language"))) = inl e ->
       exists e',
         (generateContent ai
            (examples_request (field (field (body req) (str "payload")) (str "language"))) = inl e'
          \/ generateContent ai
               (fact_request (field (field (body req) (str "payload")) (str "language"))) = inl e')
         /\ journal (handler env ai req) =
              [NewGoogleGenAI key;
               GenerateContent
                 (examples_request (field (field (body req) (str "payload")) (str "language")));
               GenerateContent
                 (fact_request (field (field (body req) (str "payload")) (str "language")));
               ConsoleError (str "Error in action 'generateInitialData':") e';
               ResStatus 500; ResJson (internal_error e')])
    /\ (field (body req) (str "action") = VStr (str "solveProblem") ->
        forall contents e,
          solve_contents (field (field (body req) (str "payload")) (str "problem")) =
            inr contents ->
          generateContent ai
            (solve_request contents
               (field (field (body req) (str "payload")) (str "language"))) = inl e ->
          journal (handler env ai req) =
            [NewGoogleGenAI key;
             GenerateContent
               (solve_request contents
                  (field (field (body req) (str "payload")) (str "language")));
             ConsoleError (str "Error in action 'solveProblem':") e;
             ResStatus 500; ResJson (internal_error e)])
    /\ (field (body req) (str "action") = VStr (str "chat") ->
        forall turns e,
          geminiHistory (field (field (body req) (str "payload")) (str "history")) =
            inr turns ->
          sendMessageStream ai
            (chat_parameters turns (field (field (body req) (str "payload")) (str "language")))
            (field (field (body req) (str "payload")) (str "message")) = inl e ->
          journal (handler env ai req) =
            [NewGoogleGenAI key;
             ChatsCreate
               (chat_parameters turns
                  (field (field (body req) (str "payload")) (str "language")));
             SendMessageStream (field (field (body req) (str "payload")) (str "message"));
             ConsoleError (str "Error in action 'chat':") e;
             ResStatus 500; ResJson (internal_error e)]).
Proof.
  intros env ai req key Hm Hk Hp. split; [|split]; intro Ha.
  - intros e He.
    rewrite (handler_catches env ai req key _ Hm Hk Ha).
    rewrite dispatch_generateInitialData, case_generateInitialData_eq, Hp. cbv zeta.
    destruct (generateContent ai (examples_request _)) as [ea|ra];
      destruct (generateContent ai (fact_request _)) as [ec|rc].
    + destruct (left_rejects_first ai); eexists; split; try reflexivity; auto.
    + exists ea. split; [now left|reflexivity].
    + exists ec. split; [now right|reflexivity].
    + destruct He as [He|He]; discriminate He.
  - intros contents e Hc Hg.
    rewrite (handler_catches env ai req key _ Hm Hk Ha).
    rewrite dispatch_solveProblem, case_solveProblem_eq, Hp, Hc. cbv zeta.
    rewrite Hg. reflexivity.
  - intros turns e Ht Hs.
    rewrite (handler_catches env ai req key _ Hm Hk Ha).
    rewrite dispatch_chat, case_chat_eq, Hp, Ht. cbv zeta.
    rewrite Hs. reflexivity.
Qed.

(** X9. Whatever the request, the handler makes no provider call unless the
    method is POST and the key is set, and then only the calls of the one
    action requested: the two calls for initial data, one call for a solution,
    or one message sent on one chat; and every call it makes is for the model
    [gemini-2.5-flash]. *)
Theorem provider_calls_bounded :
  forall env ai req,
    (provider_calls (journal (handler env ai req)) = []
     \/ (method req = str "POST"
         /\ api_key env <> None
         /\ ((field (body req) (str "action") = VStr (str "generateInitialData")
              /\ provider_calls (journal (handler env ai req)) =
                   [GenerateContent
                      (examples_request
                         (field (field (body req) (str "payload")) (str "language")));
                    GenerateContent
                      (fact_request
                         (field (field (body req) (str "payload")) (str "language")))])
             \/ (field (body req) (str "action") = VStr (str "solveProblem")
                 /\ exists contents,
                      provider_calls (journal (handler env ai req)) =
                        [GenerateContent
                           (solve_request contents
                              (field (field (body req) (str "payload")) (str "language")))])
             \/ (field (body req) (str "action") = VStr (str "chat")
                 /\ exists p,
                      chats_created (journal (handler env ai req)) = [p]
                      /\ provider_calls (journal (handler env ai req)) =
                           [SendMessageStream
                              (field (field (body req) (str "payload")) (str "message"))]))))
    /\ Forall (fun p => model p = str "gemini-2.5-flash")
         (generated (journal (handler env ai req)))
    /\ Forall (fun p => chat_model p = str "gemini-2.5-flash")
         (chats_created (journal (handler env ai req))).
Proof.
  intros env ai req.
  destruct (handler_cases env ai req) as [[_ H]|[[_ [_ H]]|[key [Hm Hk]]]];
    try (rewrite H; split; [now left|split; constructor]).
  destruct (object_coercible (body req)) as [e|[]] eqn:Hb.
  { rewrite (handler_no_body env ai req key e Hm Hk Hb).
    split; [now left|split; constructor]. }
  assert (Hkey : api_key env <> None) by congruence.
  set (J := journal (handler env ai req)).
  set (payload := field (body req) (str "payload")).
  destruct (strict_eq_str (field (body req) (str "action")) (str "generateInitialData"))
    eqn:A1;
    [|destruct (strict_eq_str (field (body req) (str "action")) (str "solveProblem"))
        eqn:A2;
      [|destruct (strict_eq_str (field (body req) (str "action")) (str "chat")) eqn:A3]].
  - apply strict_eq_str_true in A1.
    assert (HJ : J = journal (handler env ai req)) by reflexivity.
    rewrite (handler_catches env ai req key _ Hm Hk A1) in HJ.
    rewrite dispatch_generateInitialData, case_generateInitialData_eq in HJ.
    fold payload in HJ.
    destruct (object_coercible payload) as [e|[]].
    { rewrite HJ. split; [now left|split; constructor]. }
    cbv zeta in HJ.
    assert (Hc : provider_calls J =
                   [GenerateContent (examples_request (field payload (str "language")));
                    GenerateContent (fact_request (field payload (str "language")))]
                 /\ generated J =
                      [examples_request (field payload (str "language"));
                       fact_request (field payload (str "language"))]
                 /\ chats_created J = []).
    { rewrite HJ.
      repeat match goal with
             | |- context [match ?x with inl _ => _ | inr _ => _ end] => destruct x
             end;
        repeat split. }
    destruct Hc as (Hc1 & Hc2 & Hc3). rewrite Hc2, Hc3. split; [|split].
    + right. repeat split; auto.
    + repeat constructor.
    + constructor.
  - apply strict_eq_str_true in A2.
    assert (HJ : J = journal (handler env ai req)) by reflexivity.
    rewrite (handler_catches env ai req key _ Hm Hk A2) in HJ.
    rewrite dispatch_solveProblem, case_solveProblem_eq in HJ.
    fold payload in HJ.
    destruct (object_coercible payload) as [e|[]].
    { rewrite HJ. split; [now left|split; constructor]. }
    destruct (solve_contents _) as [e|contents].
    { rewrite HJ. split; [now left|split; constructor]. }
    cbv zeta in HJ.
    assert (Hc : provider_calls J =
                   [GenerateContent (solve_request contents (field payload (str "language")))]
                 /\ generated J = [solve_request contents (field payload (str "language"))]
                 /\ chats_created J = []).
    { rewrite HJ.
      repeat match goal with
             | |- context [match ?x with inl _ => _ | inr _ => _ end] => destruct x
             end;
        repeat split. }
    destruct Hc as (Hc1 & Hc2 & Hc3). rewrite Hc2, Hc3. split; [|split].
    + right. repeat split; auto. right. left. split; [exact A2|]. now exists contents.
    + repeat constructor.
    + constructor.
  - apply strict_eq_str_true in A3.
    assert (HJ : J = journal (handler env ai req)) by reflexivity.
    rewrite (handler_catches env ai req key _ Hm Hk A3) in HJ.
    rewrite dispatch_chat, case_chat_eq in HJ.
    fold payload in HJ.
    destruct (object_coercible payload) as [e|[]].
    { rewrite HJ. split; [now left|split; constructor]. }
    destruct (geminiHistory _) as [e|turns].
    { rewrite HJ. split; [now left|split; constructor]. }
    cbv zeta in HJ.
    assert (Hc : provider_calls J = [SendMessageStream (field payload (str "message"))]
                 /\ generated J = []
                 /\ chats_created J =
                      [chat_parameters turns (field payload (str "language"))]).
    { rewrite HJ.
      destruct (sendMessageStream ai _ _) as [e|[chunks failure]]; [repeat split|].
      pose proof (provider_calls_writes chunks) as W. unfold provider_calls in W.
      destruct failure as [e|];
        cbn [journal fst snd app];
        unfold provider_calls;
        cbn [filter provider_call generated chats_created app];
        rewrite ?filter_app, ?generated_app, ?chats_created_app,
          ?generated_writes, ?chats_created_writes, ?W;
        repeat split. }
    destruct Hc as (Hc1 & Hc2 & Hc3). rewrite Hc2, Hc3. split; [|split].
    + right. repeat split; auto. right. right. split; [exact A3|]. eauto.
    + constructor.
    + repeat constructor.
  - apply strict_eq_str_false in A1, A2, A3.
    assert (HJ : J = journal (handler env ai req)) by reflexivity.
    rewrite (handler_dispatches env ai req key Hm Hk Hb) in HJ. cbv zeta in HJ.
    rewrite (dispatch_default ai _ _ A1 A2 A3) in HJ.
    rewrite HJ. split; [now left|split; constructor].
Qed.

(** X10. Every record the chat case writes is one line: the JSON text of
    [{ text }] with no line feed inside, followed by one line feed. A chunk
    without text gives the record of the empty object, its [text] member
    left out. *)
Theorem stream_record_is_a_line :
  forall chunk,
    exists line,
      stream_record chunk = line ++ [LF]
      /\ ~ In LF line
      /\ split LF (stream_record chunk) = [line; []]
      /\ match text chunk with
         | Some s => line = text_record s
         | None => line = str "{}"
         end.
Proof.
  intros [[s|]].
  - exists (text_record s). rewrite stream_record_text. repeat split.
    + apply text_record_one_line.
    + apply split_first_line. apply text_record_one_line.
  - exists (str "{}"). repeat split.
    intros [H|[H|[]]]; discriminate H.
Qed.

Lemma to_content_coercible :
  forall m, object_coercible m = inr tt -> to_content m = inr (spec_turn m).
Proof.
  intros m H. unfold to_content, spec_turn. now rewrite !(coercible_get _ _ H).
Qed.

Lemma to_content_nullish :
  forall m, m = VUndefined \/ m = VNull ->
    exists e, name e = TypeError /\ to_content m = inl e.
Proof.
  intros m [-> | ->]; eexists; (split; [|reflexivity]); reflexivity.
Qed.

Lemma map_throwing_nullish :
  forall l,
    Exists (fun m => m = VUndefined \/ m = VNull) l ->
    exists e, name e = TypeError /\ map_throwing to_content l = inl e.
Proof.
  induction l as [|m l IH]; intro H; [inversion H|].
  cbn [map_throwing].
  destruct (object_coercible m) as [x|[]] eqn:Hc.
  - destruct (to_content_nullish m) as (e & Hn & He).
    { destruct m; try discriminate Hc; auto. }
    exists e. now rewrite He.
  - rewrite (to_content_coercible m Hc).
    destruct IH as (e & Hn & He).
    { inversion H as [? ? Hm|? ? Hl]; subst; [|exact Hl].
      destruct Hm as [-> | ->]; discriminate Hc. }
    exists e. now rewrite He.
Qed.

(** X22. The history of a chat request is converted whatever its elements
    are, as long as none is [undefined] or [null]: a member that is missing
    becomes [undefined] in the turn, and nothing checks roles or texts. One
    [undefined] or [null] element makes the whole request a 500 with the
    message of a [TypeError], before any chat is created. *)
Theorem history_elements_unchecked :
  forall env ai req key l,
    method req = str "POST" ->
    api_key env = Some key ->
    field (body req) (str "action") = VStr (str "chat") ->
    field (field (body req) (str "payload")) (str "history") = VArr l ->
    (Forall (fun m => m <> VUndefined /\ m <> VNull) l ->
     geminiHistory (VArr l) = inr (map spec_turn l)
     /\ chats_created (journal (handler env ai req)) =
          [chat_parameters (map spec_turn l)
             (field (field (body req) (str "payload")) (str "language"))])
    /\ (Exists (fun m => m = VUndefined \/ m = VNull) l ->
        exists e,
          name e = TypeError
          /\ journal (handler env ai req) =
               [NewGoogleGenAI key;
                ConsoleError (str "Error in action 'chat':") e;
                ResStatus 500; ResJson (internal_error e)]).
Proof.
  intros env ai req key l Hm Hk Ha Hh.
  rewrite (handler_catches env ai req key _ Hm Hk Ha).
  rewrite dispatch_chat, case_chat_eq, Hh.
  rewrite (field_array_coercible _ _ _ Hh). split.
  - intro Hl.
    assert (Hg : geminiHistory (VArr l) = inr (map spec_turn l)).
    { cbn [geminiHistory]. clear Hh. induction Hl as [|m l [H1 H2] _ IH]; [reflexivity|].
      cbn [map_throwing map]. rewrite to_content_coercible, IH; [reflexivity|].
      destruct m; try reflexivity; contradiction. }
    split; [exact Hg|]. rewrite Hg. cbv zeta.
    destruct (sendMessageStream ai _ _) as [e|[chunks [e|]]];
      cbn [journal fst app chats_created];
      rewrite ?chats_created_app, ?chats_created_writes; reflexivity.
  - intro Hl. destruct (map_throwing_nullish l Hl) as (e & Hn & He).
    exists e. split; [exact Hn|]. cbn [geminiHistory]. rewrite He. reflexivity.
Qed.

End DispatcherMore.

Section DispatcherMoreRuns.

#[local] Existing Instance Reference.engine.
#[local] Existing Instance Reference.constants.

(** X1 at a chat whose stream breaks after three records, and at a chat
    whose provider rejects the call. *)
Lemma handler_answers_unless_stream_breaks_witness :
  (outcome (handler Scenario.configured (Cases.breaking Scenario.greeting)
              (Scenario.request (str "POST") (str "chat") Scenario.question)) =
     inl headers_sent_error
   /\ ended (response_of
               (journal (handler Scenario.configured (Cases.breaking Scenario.greeting)
                           (Scenario.request (str "POST") (str "chat")
                              Scenario.question)))) = false)
  /\ outcome (handler Scenario.configured Scenario.offline
                (Scenario.request (str "POST") (str "chat") Scenario.question)) = inr tt
  /\ ended (response_of
              (journal (handler Scenario.configured Scenario.offline
                          (Scenario.request (str "POST") (str "chat") Scenario.question))))
     = true.
Proof.
  split.
  - destruct (handler_answers_unless_stream_breaks Scenario.configured
                (Cases.breaking Scenario.greeting)
                (Scenario.request (str "POST") (str "chat") Scenario.question) eq_refl)
      as [H _].
    destruct H as (Ho & He & _); [|split; assumption].
    split; [reflexivity|]. split; [discriminate|]. split; [reflexivity|].
    eexists. eexists. eexists. reflexivity.
  - destruct (handler_answers_unless_stream_breaks Scenario.configured Scenario.offline
                (Scenario.request (str "POST") (str "chat") Scenario.question) eq_refl)
      as [_ H].
    destruct H as (Ho & He & _); [|split; assumption].
    intros (_ & _ & _ & c & chunks & e & H). discriminate H.
Defined.

(** X2 at a POST that carries no body. *)
Lemma handler_rejects_missing_body_witness :
  journal (handler Scenario.configured Scenario.offline
             {| method := str "POST"; body := VUndefined |}) =
    [NewGoogleGenAI Scenario.key].
Proof.
  exact (proj1 (handler_rejects_missing_body Scenario.configured Scenario.offline
                  {| method := str "POST"; body := VUndefined |} Scenario.key
                  eq_refl eq_refl (or_introl eq_refl))).
Defined.

(** X3 at a key that is set to the empty string. *)
Lemma key_guard_exact_witness :
  handler Cases.empty_key Scenario.offline
    (Scenario.request (str "POST") (str "solveProblem") Scenario.sum_problem) =
    ([ResStatus 500;
      ResJson (error_body (str "API_KEY is not configured on the server."))], inr tt).
Proof.
  apply (proj1 (key_guard_exact Cases.empty_key Scenario.offline
                  (Scenario.request (str "POST") (str "solveProblem") Scenario.sum_problem)
                  eq_refl)).
  right. reflexivity.
Defined.

(** X4 at a solve request whose provider answers with a document that is no
    solution. *)
Lemma solveProblem_passes_through_witness :
  json_response
    (journal (handler Scenario.configured (Scenario.canned Cases.solution_text [])
                (Scenario.request (str "POST") (str "solveProblem") Scenario.sum_problem)))
    200 Cases.solution.
Proof.
  apply (proj2 (proj1 (solveProblem_passes_through Scenario.configured
                         (Scenario.canned Cases.solution_text [])
                         (Scenario.request (str "POST") (str "solveProblem")
                            Scenario.sum_problem)
                         Scenario.key Cases.solution eq_refl eq_refl eq_refl))).
  exists (VStr (str "2 + 2")), Cases.solution_text.
  repeat split.
Defined.

(** X5 at a solve request that names no problem. *)
Lemma malformed_payload_is_500_witness :
  exists e,
    name e = TypeError
    /\ json_response
         (journal (handler Scenario.configured (Scenario.canned Cases.solution_text [])
                     (Scenario.request (str "POST") (str "solveProblem") Cases.no_problem)))
         500 (internal_error e).
Proof.
  destruct (malformed_payload_is_500 Scenario.configured
              (Scenario.canned Cases.solution_text [])
              (Scenario.request (str "POST") (str "solveProblem") Cases.no_problem)
              Scenario.key (str "solveProblem") eq_refl eq_refl eq_refl)
    as (e & Hn & _ & Hr & _).
  - right. left. split; [reflexivity|]. split.
    + intros s H. discriminate H.
    + intro H. discriminate H.
  - exists e. split; [exact Hn|exact Hr].
Defined.

(** X6 at a chat whose stream fails after three chunks. *)
Lemma broken_stream_is_not_ended_witness :
  written
    (response_of
       (journal (handler Scenario.configured (Cases.breaking Scenario.greeting)
                   (Scenario.request (str "POST") (str "chat") Scenario.question)))) =
    map stream_record (map (fun d => {| text := Some d |}) Scenario.greeting)
  /\ ~ In ResEnd
         (journal (handler Scenario.configured (Cases.breaking Scenario.greeting)
                     (Scenario.request (str "POST") (str "chat") Scenario.question))).
Proof.
  exact (proj2 (broken_stream_is_not_ended Scenario.configured
                  (Cases.breaking Scenario.greeting)
                  (Scenario.request (str "POST") (str "chat") Scenario.question)
                  Scenario.key
                  (map (fun d => {| text := Some d |}) Scenario.greeting)
                  Scenario.unavailable eq_refl eq_refl eq_refl eq_refl)).
Defined.

(** X7 at a seed request whose two calls return a text with both members. *)
Lemma initial_data_unvalidated_witness :
  json_response
    (journal (handler Scenario.configured (Scenario.canned Scenario.seed_text [])
                (Scenario.request (str "POST") (str "generateInitialData")
                   Scenario.english)))
    200 Scenario.seed_body.
Proof.
  apply (proj2 (initial_data_unvalidated Scenario.configured
                  (Scenario.canned Scenario.seed_text [])
                  (Scenario.request (str "POST") (str "generateInitialData")
                     Scenario.english)
                  Scenario.key Scenario.seed_body eq_refl eq_refl eq_refl)).
  exists Scenario.seed_text, Scenario.seed_text,
    (VObj [(str "problems", VArr []); (str "fact", VStr (str "pi"))]),
    (VObj [(str "problems", VArr []); (str "fact", VStr (str "pi"))]).
  repeat split.
Defined.

(** X8 at a solve request whose provider rejects the call. *)
Lemma provider_rejection_is_500_witness :
  journal (handler Scenario.configured Scenario.offline
             (Scenario.request (str "POST") (str "solveProblem") Scenario.sum_problem)) =
    [NewGoogleGenAI Scenario.key;
     GenerateContent (solve_request (VStr (str "2 + 2")) (VStr (str "en")));
     ConsoleError (str "Error in action 'solveProblem':") Scenario.unavailable;
     ResStatus 500; ResJson (internal_error Scenario.unavailable)].
Proof.
  exact (proj1 (proj2 (provider_rejection_is_500 Scenario.configured Scenario.offline
                         (Scenario.request (str "POST") (str "solveProblem")
                            Scenario.sum_problem)
                         Scenario.key eq_refl eq_refl eq_refl))
           eq_refl (VStr (str "2 + 2")) Scenario.unavailable eq_refl eq_refl).
Defined.

(** X22 at a history whose second element is [null]. *)
Lemma history_elements_unchecked_witness :
  exists e,
    name e = TypeError
    /\ journal (handler Scenario.configured (Scenario.canned Scenario.seed_text [])
                  (Scenario.request (str "POST") (str "chat") Cases.holed)) =
         [NewGoogleGenAI Scenario.key;
          ConsoleError (str "Error in action 'chat':") e;
          ResStatus 500; ResJson (internal_error e)].
Proof.
  apply (proj2 (history_elements_unchecked Scenario.configured
                  (Scenario.canned Scenario.seed_text [])
                  (Scenario.request (str "POST") (str "chat") Cases.holed)
                  Scenario.key
                  [VObj [(str "role", VStr (str "user")); (str "text", VStr (str "2 + 2"))];
                   VNull]
                  eq_refl eq_refl eq_refl eq_refl)).
  apply Exists_cons_tl. apply Exists_cons_hd. right. reflexivity.
Defined.

End DispatcherMoreRuns.

(** ** The service client, beyond its contract *)

Section ServiceMore.

Context {engine : Engine}.

Lemma try_catch_journal_inr :
  forall {E A} (m : M E A) (h : exn -> M E A) a,
    outcome m = inr a -> journal (try_catch m h) = journal m.
Proof.
  intros E A [t [e|a']] h a H; simpl in H; [discriminate|reflexivity].
Qed.

Lemma try_catch_journal_inl :
  forall {E A} (m : M E A) (h : exn -> M E A) e,
    outcome m = inl e -> journal (try_catch m h) = journal m ++ journal (h e).
Proof.
  intros E A [t [e'|a]] h e H; simpl in H; [|discriminate].
  inversion H; subst. unfold try_catch. destruct (h e). reflexivity.
Qed.

Lemma fetches_app : forall a b, fetches (a ++ b) = fetches a ++ fetches b.
Proof.
  induction a as [|[url init|l d e] a IH]; intro b; simpl; auto. now rewrite IH.
Qed.

(** [postToAction] makes its one request before anything else, and nothing
    after it. *)
Lemma postToAction_journal :
  forall fetch action payload,
    journal (postToAction fetch action payload) =
      [FetchCall (str "/api/gemini") (action_request action payload)].
Proof.
  intros fetch action payload. unfold postToAction, bind, lift, emit, throw, ret. simpl.
  destruct (fetch _ _) as [e|response]; [reflexivity|].
  destruct (ok response); simpl.
  - destruct (jsstring_eqb action (str "chat")); simpl; [reflexivity|].
    destruct (json response); reflexivity.
  - destruct (get _ _) as [e|detail]; simpl; [reflexivity|].
    destruct (to_string detail); reflexivity.
Qed.

(** What [postToAction] does with a 2xx response. *)
Lemma postToAction_ok :
  forall fetch action payload response,
    fetch (str "/api/gemini") (action_request action payload) = inr response ->
    ok response = true ->
    outcome (postToAction fetch action payload) =
      if jsstring_eqb action (str "chat") then inr (ResponseObject response)
      else match json response with
           | inl e => inl e
           | inr v => inr (JsonValue v)
           end.
Proof.
  intros fetch action payload response Hf Hok.
  unfold postToAction, bind, lift, emit, throw, ret. simpl. rewrite Hf. simpl.
  rewrite Hok. simpl.
  destruct (jsstring_eqb action (str "chat")); [reflexivity|].
  destruct (json response); reflexivity.
Qed.

(** Without a 2xx response [postToAction] throws. *)
Lemma postToAction_not_ok :
  forall fetch action payload,
    (exists e, fetch (str "/api/gemini") (action_request action payload) = inl e)
    \/ (exists response,
          fetch (str "/api/gemini") (action_request action payload) = inr response
          /\ ok response = false) ->
    exists e, outcome (postToAction fetch action payload) = inl e.
Proof.
  intros fetch action payload [[e H]|[response [H Hok]]];
    unfold postToAction, bind, lift, emit, throw, ret; simpl; rewrite H; simpl.
  - now exists e.
  - rewrite Hok. simpl.
    destruct (get _ _) as [e|detail]; simpl; [now exists e|].
    destruct (to_string detail) as [e|s]; simpl; eauto.
Qed.

(** X11. A response that is not 2xx makes [postToAction] throw, after its one
    request and whatever the action: an [Error] whose message joins the status
    text and the [error] member of the JSON body, [undefined] when the body
    has no such member, and the words [Failed to parse error response] when
    the body is not JSON; and a [TypeError] when the body is the JSON [null],
    which has no members to read. *)
Theorem postToAction_reports_failure :
  forall fetch action payload response,
    fetch (str "/api/gemini") (action_request action payload) = inr response ->
    ok response = false ->
    journal (postToAction fetch action payload) =
      [FetchCall (str "/api/gemini") (action_request action payload)]
    /\ (forall fields s,
          json response = inr (VObj fields) ->
          lookup (str "error") fields = Some (VStr s) ->
          outcome (postToAction fetch action payload) = inl (api_error response s))
    /\ (forall fields,
          json response = inr (VObj fields) ->
          lookup (str "error") fields = None ->
          outcome (postToAction fetch action payload) =
            inl (api_error response (str "undefined")))
    /\ (forall e,
          json response = inl e ->
          outcome (postToAction fetch action payload) =
            inl (api_error response (str "Failed to parse error response")))
    /\ (json response = inr VNull ->
        exists e, outcome (postToAction fetch action payload) = inl e
                  /\ name e = TypeError).
Proof.
  intros fetch action payload response Hf Hok.
  split; [apply postToAction_journal|].
  unfold postToAction, bind, lift, emit, throw, ret. simpl. rewrite Hf. simpl.
  rewrite Hok. simpl. repeat split.
  - intros fields s Hj Hl. rewrite Hj. simpl. rewrite Hl. reflexivity.
  - intros fields Hj Hl. rewrite Hj. simpl. rewrite Hl. reflexivity.
  - intros e Hj. rewrite Hj. reflexivity.
  - intro Hj. rewrite Hj. simpl. eexists. split; reflexivity.
Qed.

(** X12. Each function of the service client makes exactly one request,
    whether it succeeds or fails: a POST to [/api/gemini] that carries the
    action and the payload as JSON. Nothing is tried again. *)
Theorem client_posts_once :
  forall fetch language problem history msg,
    fetches (journal (generateInitialData fetch language)) =
      [(str "/api/gemini",
        action_request (str "generateInitialData") (VObj [(str "language", VStr language)]))]
    /\ fetches (journal (solveProblem fetch problem language)) =
         [(str "/api/gemini",
           action_request (str "solveProblem")
             (VObj [(str "problem", problem); (str "language", VStr language)]))]
    /\ fetches (journal (streamChatResponse fetch history msg language)) =
         [(str "/api/gemini",
           action_request (str "chat")
             (VObj [(str "history", history); (str "message", VStr msg);
                    (str "language", VStr language)]))]
    /\ init_method (action_request (str "chat") history) = str "POST".
Proof.
  intros fetch language problem history msg. repeat split.
  - unfold generateInitialData.
    destruct (outcome (postToAction fetch (str "generateInitialData")
                (VObj [(str "language", VStr language)]))) as [e|r] eqn:H.
    + rewrite (try_catch_journal_inl _ _ e H), postToAction_journal. reflexivity.
    + rewrite (try_catch_journal_inr _ _ r H), postToAction_journal. reflexivity.
  - unfold solveProblem.
    destruct (outcome (postToAction fetch (str "solveProblem")
                (VObj [(str "problem", problem); (str "language", VStr language)])))
      as [e|r] eqn:H.
    + rewrite (try_catch_journal_inl _ _ e H), postToAction_journal. reflexivity.
    + rewrite (try_catch_journal_inr _ _ r H), postToAction_journal. reflexivity.
  - unfold streamChatResponse.
    pose proof (postToAction_journal fetch (str "chat")
                  (VObj [(str "history", history); (str "message", VStr msg);
                         (str "language", VStr language)])) as HJ.
    destruct (postToAction fetch (str "chat") _) as [t [e|r]];
      unfold journal in HJ; cbn [fst] in HJ; subst t; reflexivity.
Qed.

(** What [streamChatResponse] does, by what [fetch] gives. *)
Lemma streamChatResponse_cases :
  forall fetch history msg language,
    let init :=
      action_request (str "chat")
        (VObj [(str "history", history); (str "message", VStr msg);
               (str "language", VStr language)]) in
    (exists response,
       fetch (str "/api/gemini") init = inr response
       /\ ok response = true
       /\ streamChatResponse fetch history msg language =
            ([FetchCall (str "/api/gemini") init], inr (response_body response)))
    \/ (exists e,
          ((exists x, fetch (str "/api/gemini") init = inl x)
           \/ (exists response,
                 fetch (str "/api/gemini") init = inr response /\ ok response = false))
          /\ streamChatResponse fetch history msg language =
               ([FetchCall (str "/api/gemini") init; ConsoleErr (str "Chat error:") None e],
                inl chat_start_failure)).
Proof.
  intros fetch history msg language init.
  unfold streamChatResponse.
  pose proof (postToAction_journal fetch (str "chat")
                (VObj [(str "history", history); (str "message", VStr msg);
                       (str "language", VStr language)])) as HJ.
  fold init in HJ.
  destruct (fetch (str "/api/gemini") init) as [x|response] eqn:Hf.
  - right.
    destruct (postToAction_not_ok fetch (str "chat")
                (VObj [(str "history", history); (str "message", VStr msg);
                       (str "language", VStr language)])) as [e He].
    { left. now exists x. }
    exists e. split; [left; now exists x|].
    destruct (postToAction fetch (str "chat") _) as [t r].
    unfold journal in HJ. unfold outcome in He. cbn [fst snd] in *. subst t r.
    reflexivity.
  - destruct (ok response) eqn:Hok.
    + left. exists response. split; [reflexivity|]. split; [exact Hok|].
      pose proof (postToAction_ok fetch (str "chat") _ response Hf Hok) as Ho.
      change (jsstring_eqb (str "chat") (str "chat")) with true in Ho. cbv iota in Ho.
      destruct (postToAction fetch (str "chat") _) as [t r].
      unfold journal in HJ. unfold outcome in Ho. cbn [fst snd] in *. subst t r.
      reflexivity.
    + right.
      destruct (postToAction_not_ok fetch (str "chat")
                  (VObj [(str "history", history); (str "message", VStr msg);
                         (str "language", VStr language)])) as [e He].
      { right. now exists response. }
      exists e. split; [right; now exists response|].
      destruct (postToAction fetch (str "chat") _) as [t r].
      unfold journal in HJ. unfold outcome in He. cbn [fst snd] in *. subst t r.
      reflexivity.
Qed.

Lemma streamChatResponse_ok :
  forall fetch history msg language response,
    fetch (str "/api/gemini")
      (action_request (str "chat")
         (VObj [(str "history", history); (str "message", VStr msg);
                (str "language", VStr language)])) = inr response ->
    ok response = true ->
    streamChatResponse fetch history msg language =
      ([FetchCall (str "/api/gemini")
          (action_request (str "chat")
             (VObj [(str "history", history); (str "message", VStr msg);
                    (str "language", VStr language)]))],
       inr (response_body response)).
Proof.
  intros fetch history msg language response Hf Hok.
  destruct (streamChatResponse_cases fetch history msg language)
    as [(r & Hr & _ & Hs)|(e & Hwhy & _)]; cbv zeta in *.
  - rewrite Hf in Hr. inversion Hr; subst r. exact Hs.
  - destruct Hwhy as [[x Hx]|[r [Hr Hnok]]].
    + rewrite Hx in Hf. discriminate Hf.
    + rewrite Hr in Hf. inversion Hf; subst r. rewrite Hok in Hnok. discriminate Hnok.
Qed.

(** X13. [streamChatResponse] returns the body of a 2xx response as it is,
    [null] included, without reading it: whether the body is JSON does not
    matter. It throws exactly when [fetch] rejects or the response is not
    2xx, and what it throws is always the same [Error], the cause logged and
    dropped. *)
Theorem streamChatResponse_outcome :
  forall fetch history msg language,
    (forall response,
        fetch (str "/api/gemini")
          (action_request (str "chat")
             (VObj [(str "history", history); (str "message", VStr msg);
                    (str "language", VStr language)])) = inr response ->
        ok response = true ->
        streamChatResponse fetch history msg language =
          ([FetchCall (str "/api/gemini")
              (action_request (str "chat")
                 (VObj [(str "history", history); (str "message", VStr msg);
                        (str "language", VStr language)]))],
           inr (response_body response)))
    /\ (forall e,
          outcome (streamChatResponse fetch history msg language) = inl e ->
          e = chat_start_failure
          /\ ((exists x,
                 fetch (str "/api/gemini")
                   (action_request (str "chat")
                      (VObj [(str "history", history); (str "message", VStr msg);
                             (str "language", VStr language)])) = inl x)
              \/ (exists response,
                    fetch (str "/api/gemini")
                      (action_request (str "chat")
                         (VObj [(str "history", history); (str "message", VStr msg);
                                (str "language", VStr language)])) = inr response
                    /\ ok response = false)))
    /\ ((exists x,
           fetch (str "/api/gemini")
             (action_request (str "chat")
                (VObj [(str "history", history); (str "message", VStr msg);
                       (str "language", VStr language)])) = inl x)
        \/ (exists response,
              fetch (str "/api/gemini")
                (action_request (str "chat")
                   (VObj [(str "history", history); (str "message", VStr msg);
                          (str "language", VStr language)])) = inr response
              /\ ok response = false) ->
        outcome (streamChatResponse fetch history msg language) = inl chat_start_failure).
Proof.
  intros fetch history msg language.
  destruct (streamChatResponse_cases fetch history msg language)
    as [(response & Hf & Hok & Hs)|(e & Hwhy & Hs)]; cbv zeta in *.
  - split; [|split].
    + intros r Hr _. rewrite Hf in Hr. inversion Hr; subst r. exact Hs.
    + intros e He. rewrite Hs in He. discriminate He.
    + intros [[x Hx]|[r [Hr Hnok]]].
      * rewrite Hf in Hx. discriminate Hx.
      * rewrite Hf in Hr. inversion Hr; subst r. rewrite Hok in Hnok. discriminate Hnok.
  - split; [|split].
    + intros r Hr Hok. destruct Hwhy as [[x Hx]|[r' [Hr' Hnok]]].
      * rewrite Hx in Hr. discriminate Hr.
      * rewrite Hr' in Hr. inversion Hr; subst r'. rewrite Hok in Hnok. discriminate Hnok.
    + intros e' He. rewrite Hs in He. inversion He. split; [reflexivity|exact Hwhy].
    + intros _. rewrite Hs. reflexivity.
Qed.

(** X14. The client's [generateInitialData] never throws, whatever [fetch]
    does. It returns the JSON body of a 2xx response unchanged, and the
    offline content in every other case: a rejected [fetch], a response that
    is not 2xx, and a 2xx response whose body is not JSON. *)
Theorem generateInitialData_never_throws :
  forall fetch language,
    (exists v, outcome (generateInitialData fetch language) = inr (JsonValue v))
    /\ (forall response v,
          fetch (str "/api/gemini")
            (action_request (str "generateInitialData")
               (VObj [(str "language", VStr language)])) = inr response ->
          ok response = true ->
          json response = inr v ->
          generateInitialData fetch language =
            ([FetchCall (str "/api/gemini")
                (action_request (str "generateInitialData")
                   (VObj [(str "language", VStr language)]))],
             inr (JsonValue v)))
    /\ (forall response e,
          fetch (str "/api/gemini")
            (action_request (str "generateInitialData")
               (VObj [(str "language", VStr language)])) = inr response ->
          ok response = true ->
          json response = inl e ->
          generateInitialData fetch language =
            ([FetchCall (str "/api/gemini")
                (action_request (str "generateInitialData")
                   (VObj [(str "language", VStr language)]));
              ConsoleErr (str "Error generating initial data:") None e],
             inr (JsonValue (fallback language))))
    /\ ((exists x,
           fetch (str "/api/gemini")
             (action_request (str "generateInitialData")
                (VObj [(str "language", VStr language)])) = inl x)
        \/ (exists response,
              fetch (str "/api/gemini")
                (action_request (str "generateInitialData")
                   (VObj [(str "language", VStr language)])) = inr response
              /\ ok response = false) ->
        outcome (generateInitialData fetch language) = inr (JsonValue (fallback language))).
Proof.
  intros fetch language.
  set (payload := VObj [(str "language", VStr language)]).
  pose proof (postToAction_journal fetch (str "generateInitialData") payload) as HJ.
  assert (Hok : forall response,
             fetch (str "/api/gemini")
               (action_request (str "generateInitialData") payload) = inr response ->
             ok response = true ->
             postToAction fetch (str "generateInitialData") payload =
               ([FetchCall (str "/api/gemini")
                   (action_request (str "generateInitialData") payload)],
                match json response with
                | inl e => inl e
                | inr v => inr (JsonValue v)
                end)).
  { intros response Hf Hk.
    pose proof (postToAction_ok fetch (str "generateInitialData") payload response Hf Hk)
      as Ho.
    change (jsstring_eqb (str "generateInitialData") (str "chat")) with false in Ho.
    cbv iota in Ho.
    destruct (postToAction fetch (str "generateInitialData") payload) as [t r].
    unfold journal in HJ. unfold outcome in Ho. cbn [fst snd] in *. now subst t r. }
  split; [|split; [|split]].
  - unfold generateInitialData. fold payload.
    destruct (postToAction fetch (str "generateInitialData") payload) as [t [e|[r|v]]] eqn:Hp.
    + eexists. reflexivity.
    + exfalso.
      destruct (postToAction_returns fetch (str "generateInitialData") payload
                  (ResponseObject r)) as (response & _ & _ & Hr).
      { now rewrite Hp. }
      change (jsstring_eqb (str "generateInitialData") (str "chat")) with false in Hr.
      destruct Hr as [v [_ Hr]]. discriminate Hr.
    + now exists v.
  - intros response v Hf Hk Hj. unfold generateInitialData. fold payload.
    rewrite (Hok response Hf Hk), Hj. reflexivity.
  - intros response e Hf Hk Hj. unfold generateInitialData. fold payload.
    rewrite (Hok response Hf Hk), Hj. reflexivity.
  - intro Hwhy. destruct (postToAction_not_ok _ _ _ Hwhy) as [e He].
    unfold generateInitialData. fold payload.
    rewrite (try_catch_outcome_inl _ _ e He). reflexivity.
Qed.

End ServiceMore.

Section ServiceMoreRuns.

#[local] Existing Instance Reference.engine.

(** X11 at a backend that answers 500 with a JSON error. *)
Lemma postToAction_reports_failure_witness :
  outcome (postToAction
             (Scenario.backend 500 (str "Internal Server Error")
                (inr (VObj [(str "error", VStr (str "boom"))])) None)
             (str "solveProblem") Scenario.sum_problem) =
    inl {| name := Error; message := str "API Error: Internal Server Error - boom" |}.
Proof.
  exact (proj1 (proj2 (postToAction_reports_failure
                         (Scenario.backend 500 (str "Internal Server Error")
                            (inr (VObj [(str "error", VStr (str "boom"))])) None)
                         (str "solveProblem") Scenario.sum_problem
                         {| status := 500; statusText := str "Internal Server Error";
                            json := inr (VObj [(str "error", VStr (str "boom"))]);
                            response_body := None |}
                         eq_refl eq_refl))
           [(str "error", VStr (str "boom"))] (str "boom") eq_refl eq_refl).
Defined.

End ServiceMoreRuns.

(** ** The read loop of the chat view, on any bytes *)

Section ChatMore.

Context {engine : Engine} {constants : Constants}.

Lemma split_not_nil : forall sep s, split sep s <> [].
Proof.
  intros sep s. destruct s as [|c s]; simpl; [discriminate|].
  destruct (c =? sep); [discriminate|]. destruct (split sep s); discriminate.
Qed.

(** The lines of a text in two parts: the whole lines of the first part, then
    the lines of its unfinished line followed by the second part. *)
Lemma split_app :
  forall x y,
    split LF (x ++ y) =
      removelast (split LF x) ++ split LF (last (split LF x) [] ++ y).
Proof.
  induction x as [|c x IH]; intro y; [reflexivity|].
  cbn [app split]. rewrite IH.
  destruct (split LF x) as [|l ls] eqn:S; [now apply split_not_nil in S|].
  destruct (c =? LF) eqn:E.
  - reflexivity.
  - destruct ls as [|l' ls'].
    + cbn [removelast last app split]. rewrite E. reflexivity.
    + reflexivity.
Qed.

Lemma last_split_one_line : forall s, ~ In LF (last (split LF s) []).
Proof.
  induction s as [|c s IH]; [intros []|].
  cbn [split]. destruct (split LF s) as [|l ls] eqn:S; [now apply split_not_nil in S|].
  destruct (c =? LF) eqn:E.
  - exact IH.
  - destruct ls as [|l' ls'].
    + cbn [last] in *. intros [H|H]; [|now apply IH].
      apply N.eqb_neq in E. now apply E.
    + exact IH.
Qed.

Lemma last_app_cons :
  forall {A} (a b : list A) d, b <> [] -> last (a ++ b) d = last b d.
Proof.
  intros A a b d Hb. induction a as [|x a IH]; [reflexivity|].
  cbn [app]. rewrite <- IH. destruct (a ++ b) eqn:E; [|reflexivity].
  apply app_eq_nil in E. destruct E as [_ E]. contradiction.
Qed.

Lemma process_line_with_io :
  forall d b st line,
    Chat.process_line (with_io d b st) line =
      on_result (with_io d b) (Chat.process_line st line).
Proof.
  intros d b st line. unfold Chat.process_line.
  destruct (trim line); [reflexivity|].
  unfold Chat.line_body. destruct (parse line) as [e|chunk]; [reflexivity|].
  destruct (get chunk (str "text")) as [e|chunk_text]; [reflexivity|].
  destruct (truthy chunk_text); [|reflexivity].
  destruct (to_string chunk_text); reflexivity.
Qed.

Lemma process_lines_with_io :
  forall d b lines st,
    Chat.process_lines (with_io d b st) lines =
      on_result (with_io d b) (Chat.process_lines st lines).
Proof.
  intros d b. induction lines as [|line rest IH]; intro st; [reflexivity|].
  cbn [Chat.process_lines]. rewrite process_line_with_io.
  destruct (Chat.process_line st line) as [t [e|s]]; [reflexivity|].
  unfold on_result, bind. cbn [fst snd]. rewrite IH.
  destruct (Chat.process_lines s rest) as [t' r]. reflexivity.
Qed.

Lemma process_lines_app :
  forall a b st,
    Chat.process_lines st (a ++ b) =
      (s <- Chat.process_lines st a ;; Chat.process_lines s b).
Proof.
  induction a as [|line a IH]; intros b st.
  - cbn [app Chat.process_lines]. unfold bind, ret.
    now destruct (Chat.process_lines st b).
  - cbn [app Chat.process_lines].
    destruct (Chat.process_line st line) as [t [e|s]]; [reflexivity|].
    unfold bind. rewrite IH. unfold bind.
    destruct (Chat.process_lines s a) as [t1 [e1|s1]]; [reflexivity|].
    destruct (Chat.process_lines s1 b) as [t2 r2]. now rewrite app_assoc.
Qed.

(** One turn of the loop: the whole lines of the buffer and the decoded text
    are processed, the rest is the new buffer. *)
Lemma on_chunk_as :
  forall st value,
    Chat.on_chunk st value =
      on_result
        (with_io (fst (decode (Chat.decoder st) value))
           (last (split LF (Chat.buffer st ++ snd (decode (Chat.decoder st) value))) []))
        (Chat.process_lines st
           (removelast
              (split LF (Chat.buffer st ++ snd (decode (Chat.decoder st) value))))).
Proof.
  intros st value. unfold Chat.on_chunk.
  destruct (decode (Chat.decoder st) value) as [d decoded]. cbn [fst snd].
  apply (process_lines_with_io d _ _ st).
Qed.

(** Two turns of the loop are one turn on the two chunks joined. *)
Lemma on_chunk_app :
  forall st a b,
    (s <- Chat.on_chunk st a ;; Chat.on_chunk s b) = Chat.on_chunk st (a ++ b).
Proof.
  intros st a b. rewrite (on_chunk_as st (a ++ b)), (on_chunk_as st a).
  rewrite decode_app. cbn [fst snd].
  destruct (decode (Chat.decoder st) a) as [d1 out1]. cbn [fst snd].
  destruct (decode d1 b) as [d2 out2] eqn:Hd. cbn [fst snd].
  rewrite (app_assoc (Chat.buffer st) out1 out2),
    (split_app (Chat.buffer st ++ out1) out2).
  set (L1 := split LF (Chat.buffer st ++ out1)).
  rewrite removelast_app by apply split_not_nil.
  rewrite last_app_cons by apply split_not_nil.
  rewrite process_lines_app.
  destruct (Chat.process_lines st (removelast L1)) as [t1 [e1|s1]]; [reflexivity|].
  unfold on_result at 1. cbn [fst snd]. unfold bind at 1.
  rewrite on_chunk_as. cbn [with_io Chat.decoder Chat.buffer]. rewrite Hd. cbn [fst snd].
  change {| Chat.decoder := d1; Chat.buffer := last L1 [];
            Chat.modelResponseText := Chat.modelResponseText s1;
            Chat.messages := Chat.messages s1 |}
    with (with_io d1 (last L1 []) s1).
  rewrite process_lines_with_io.
  unfold bind, on_result. cbn [fst snd].
  destruct (Chat.process_lines s1 _) as [t2 [e2|s2]]; reflexivity.
Qed.

Lemma read_chunks_cons_concat :
  forall rest value st,
    Chat.read_chunks st (value :: rest) = Chat.on_chunk st (List.concat (value :: rest)).
Proof.
  induction rest as [|next rest IH]; intros value st.
  - cbn [Chat.read_chunks List.concat]. rewrite app_nil_r. unfold bind, ret.
    destruct (Chat.on_chunk st value) as [t [e|s]]; [reflexivity|].
    now rewrite app_nil_r.
  - change (List.concat (value :: next :: rest))
      with (value ++ List.concat (next :: rest)).
    rewrite <- on_chunk_app.
    change (Chat.read_chunks st (value :: next :: rest))
      with (s <- Chat.on_chunk st value ;; Chat.read_chunks s (next :: rest)).
    destruct (Chat.on_chunk st value) as [t [e|s]]; [reflexivity|].
    unfold bind. now rewrite IH.
Qed.

Lemma on_chunk_nil :
  forall st, ~ In LF (Chat.buffer st) -> Chat.on_chunk st [] = ret st.
Proof.
  intros st H. unfold Chat.on_chunk. cbn [decode]. rewrite app_nil_r.
  rewrite (split_one_line _ H). destruct st; reflexivity.
Qed.

(** The loop over the chunks is one turn on all the bytes: the chunks count
    only through their concatenation. *)
Lemma read_chunks_concat :
  forall st chunks,
    ~ In LF (Chat.buffer st) ->
    Chat.read_chunks st chunks = Chat.on_chunk st (List.concat chunks).
Proof.
  intros st [|value rest] H.
  - symmetry. now apply on_chunk_nil.
  - apply read_chunks_cons_concat.
Qed.

Lemma on_chunk_buffer :
  forall st value st',
    outcome (Chat.on_chunk st value) = inr st' -> ~ In LF (Chat.buffer st').
Proof.
  intros st value st' H. rewrite on_chunk_as in H.
  unfold on_result, outcome in H. cbn [snd] in H.
  destruct (snd (Chat.process_lines st _)) as [e|s]; [discriminate H|].
  inversion H; subst st'. cbn [with_io Chat.buffer]. apply last_split_one_line.
Qed.

(** X15. The read loop does not depend on how the bytes of the stream are
    cut into chunks, whatever the bytes are: two sequences of chunks with the
    same concatenation leave the same variables, the same messages and the
    same log, from any point where the line buffer holds no line feed, as at
    the start of the loop; and the buffer holds no line feed afterwards. *)
Theorem read_chunks_regroup :
  forall st chunks chunks',
    ~ In LF (Chat.buffer st) ->
    List.concat chunks = List.concat chunks' ->
    Chat.read_chunks st chunks = Chat.read_chunks st chunks'
    /\ forall st',
         outcome (Chat.read_chunks st chunks) = inr st' -> ~ In LF (Chat.buffer st').
Proof.
  intros st chunks chunks' Hb Hc. split.
  - now rewrite !read_chunks_concat, Hc by exact Hb.
  - intros st' H. rewrite read_chunks_concat in H by exact Hb.
    now apply on_chunk_buffer in H.
Qed.

(** *** Line feeds in the decoded text *)

Lemma no_overlong_start : no_overlong utf8_start.
Proof. now left. Qed.

Lemma decode_lead_sound :
  forall b,
    no_overlong (fst (decode_lead b))
    /\ (In 10 (snd (decode_lead b)) -> b = 10).
Proof.
  intro b. unfold decode_lead.
  destruct (b <=? 127) eqn:E1.
  { split; [apply no_overlong_start|]. intros [H|[]]. now symmetry. }
  apply N.leb_gt in E1.
  destruct ((194 <=? b) && (b <=? 223)) eqn:E2.
  { apply andb_true_iff in E2. destruct E2 as [A B].
    apply N.leb_le in A, B. split; [|intros []].
    right. cbn [fst lower_boundary upper_boundary bytes_seen bytes_needed code_point].
    split; [lia|]. split; [lia|]. left. split; [reflexivity|]. euclid. }
  destruct ((224 <=? b) && (b <=? 239)) eqn:E3.
  { apply andb_true_iff in E3. destruct E3 as [A B].
    apply N.leb_le in A, B. split; [|intros []].
    right. cbn [fst lower_boundary upper_boundary bytes_seen bytes_needed code_point].
    destruct (b =? 224) eqn:F1; destruct (b =? 237) eqn:F2;
      eqb_facts;
      (split; [lia|]); (split; [lia|]); right; left; (split; [reflexivity|]);
      try (right; lia); left; euclid. }
  destruct ((240 <=? b) && (b <=? 244)) eqn:E4.
  { apply andb_true_iff in E4. destruct E4 as [A B].
    apply N.leb_le in A, B. split; [|intros []].
    right. cbn [fst lower_boundary upper_boundary bytes_seen bytes_needed code_point].
    destruct (b =? 240) eqn:F1; destruct (b =? 244) eqn:F2;
      eqb_facts;
      (split; [lia|]); (split; [lia|]); right; right; (split; [reflexivity|]);
      try (right; lia); left; euclid. }
  split; [apply no_overlong_start|]. intros [H|[]]. discriminate H.
Qed.

(** A byte through the decoder: a sequence of several bytes never gives out
    an ASCII character, so a line feed comes from a line feed byte. *)
Lemma decode_byte_sound :
  forall d b,
    no_overlong d ->
    no_overlong (fst (decode_byte d b))
    /\ (In 10 (snd (decode_byte d b)) -> b = 10).
Proof.
  intros d b H. unfold decode_byte.
  destruct (bytes_needed d =? 0) eqn:E0; [apply decode_lead_sound|].
  apply N.eqb_neq in E0.
  destruct H as [H|(Hlo & Hup & H)]; [contradiction|].
  destruct ((b <? lower_boundary d) || (upper_boundary d <? b)) eqn:E1.
  { destruct (decode_lead_sound b) as [A B].
    destruct (decode_lead b) as [d' out]. cbn [fst snd] in *.
    split; [exact A|]. intros [F|F]; [discriminate F|now apply B]. }
  apply orb_false_iff in E1. destruct E1 as [A B].
  apply N.ltb_ge in A, B.
  destruct (bytes_seen d + 1 =? bytes_needed d) eqn:E2.
  - apply N.eqb_eq in E2. split; [apply no_overlong_start|].
    cbn [snd]. intros [F|[]]. exfalso.
    destruct H as [[_ H]|[[H _]|[H _]]]; [|lia|lia].
    revert F. generalize (code_point d) H. intros c Hc F. euclid.
  - apply N.eqb_neq in E2. split; [|intros []].
    right. cbn [fst lower_boundary upper_boundary bytes_seen bytes_needed code_point].
    split; [lia|]. split; [lia|].
    destruct H as [[H _]|[[H1 H2]|[H1 H2]]]; [contradiction| |].
    + left. split; [lia|].
      destruct H2 as [H2|H2];
        revert H2; generalize (code_point d) (lower_boundary d) A; intros c l Hl H2;
        euclid.
    + right. left. split; [lia|]. left.
      destruct H2 as [H2|H2];
        revert H2; generalize (code_point d) (lower_boundary d) A; intros c l Hl H2;
        euclid.
Qed.

Lemma serialize_line_feed :
  forall cps seen, In LF (snd (serialize seen cps)) -> In 10 cps.
Proof.
  induction cps as [|cp rest IH]; intros seen H; [exact H|].
  cbn [serialize] in H. specialize (IH true).
  destruct (serialize true rest) as [seen' s]. cbn [snd] in *.
  apply in_app_or in H. destruct H as [H|H]; [|right; now apply IH].
  left. destruct (negb seen && (cp =? 65279)); [destruct H|].
  unfold code_units in H. destruct (cp <? 65536).
  - destruct H as [H|[]]. exact H.
  - exfalso. unfold LF in H. destruct H as [H|[H|[]]]; euclid.
Qed.

Lemma decode_sound :
  forall bytes d,
    no_overlong (utf8 d) ->
    no_overlong (utf8 (fst (decode d bytes)))
    /\ (In LF (snd (decode d bytes)) -> In 10 bytes).
Proof.
  induction bytes as [|b rest IH]; intros d H; [split; [exact H|intro F; exact F]|].
  cbn [decode].
  destruct (decode_byte_sound (utf8 d) b H) as [A B].
  destruct (decode_byte (utf8 d) b) as [u cps]. cbn [fst snd] in A, B.
  pose proof (serialize_line_feed cps (BOM_seen d)) as S.
  destruct (serialize (BOM_seen d) cps) as [seen s]. cbn [snd] in S.
  destruct (IH {| utf8 := u; BOM_seen := seen |} A) as [A' B'].
  destruct (decode _ rest) as [d' s']. cbn [fst snd] in *.
  split; [exact A'|]. intro F. apply in_app_or in F.
  destruct F as [F|F]; [left; now apply B, S|right; now apply B'].
Qed.

(** X16. Nothing of the stream is parsed or shown before a line feed byte
    arrives: the read loop on bytes without a line feed, whatever they are and
    however they are cut, logs nothing and leaves the answer and the messages
    as they were; all the decoded text waits in the line buffer. A last record
    that the stream does not end with a line feed is therefore never shown.
    The decoder gives out a line feed for a line feed byte only: no sequence
    of several bytes decodes to one. *)
Theorem read_chunks_waits_for_line_feed :
  forall st chunks,
    no_overlong (utf8 (Chat.decoder st)) ->
    ~ In LF (Chat.buffer st) ->
    ~ In 10 (List.concat chunks) ->
    Chat.read_chunks st chunks =
      ([], inr (with_io (fst (decode (Chat.decoder st) (List.concat chunks)))
                  (Chat.buffer st ++ snd (decode (Chat.decoder st) (List.concat chunks)))
                  st))
    /\ no_overlong (utf8 (fst (decode (Chat.decoder st) (List.concat chunks)))).
Proof.
  intros st chunks Hd Hb Hc.
  destruct (decode_sound (List.concat chunks) (Chat.decoder st) Hd) as [A B].
  split; [|exact A].
  rewrite read_chunks_concat by exact Hb. rewrite on_chunk_as.
  rewrite split_one_line.
  - reflexivity.
  - intro F. apply in_app_or in F. destruct F as [F|F]; [now apply Hb|now apply Hc, B].
Qed.

End ChatMore.

(** ** The chat view: [handleSend] *)

Section ViewMore.

Context {engine : Engine} {constants : Constants}.

Lemma handleSend_proceeds :
  forall fetch language chatError s,
    trim (Chat.input s) <> [] ->
    Chat.isStreaming s = false ->
    Chat.handleSend fetch language chatError s =
      match streamChatResponse fetch
              (VArr (map Chat.message_value (Chat.state_messages s ++ [user_message s])))
              (Chat.input s) language with
      | (t, inl e) =>
          let (t', r) :=
            Chat.fail_chat chatError (Chat.state_messages s ++ [user_message s]) e in
          (t ++ t', r)
      | (t, inr None) =>
          let (t', r) :=
            Chat.fail_chat chatError (Chat.state_messages s ++ [user_message s])
              {| name := Error; message := str "Could not get stream." |} in
          (t ++ t', r)
      | (t, inr (Some stream)) =>
          match Chat.read_chunks
                  (loop_start
                     ((Chat.state_messages s ++ [user_message s])
                      ++ [{| Chat.role := ChatRole_MODEL; Chat.text := [] |}]))
                  (stream_chunks stream) with
          | (t', inl e) =>
              let (t'', r) :=
                Chat.fail_chat chatError
                  ((Chat.state_messages s ++ [user_message s])
                   ++ [{| Chat.role := ChatRole_MODEL; Chat.text := [] |}]) e in
              (t ++ t' ++ t'', r)
          | (t', inr st) =>
              match stream_failure stream with
              | Some e =>
                  let (t'', r) := Chat.fail_chat chatError (Chat.messages st) e in
                  (t ++ t' ++ t'', r)
              | None =>
                  (t ++ t',
                   inr {| Chat.state_messages := Chat.messages st; Chat.input := [];
                          Chat.isStreaming := false |})
              end
          end
      end.
Proof.
  intros fetch language chatError s Hin Hst. unfold Chat.handleSend. rewrite Hst.
  destruct (trim (Chat.input s)); [contradiction|reflexivity].
Qed.

Lemma fail_chat_eq :
  forall chatError before last_message e,
    Chat.fail_chat chatError (before ++ [last_message]) e =
      ([ConsoleErr (str "Chat error:") None e],
       inr {| Chat.state_messages := before ++ [error_message chatError];
              Chat.input := []; Chat.isStreaming := false |}).
Proof.
  intros chatError before last_message e.
  unfold Chat.fail_chat, Chat.replace_last, bind, emit, ret. cbn [app].
  now rewrite removelast_last.
Qed.

(** The read loop changes the text of the last message and nothing else of
    the messages. *)
Lemma process_line_messages :
  forall before speaker st line st',
    (exists t, Chat.messages st = before ++ [{| Chat.role := speaker; Chat.text := t |}]) ->
    outcome (Chat.process_line st line) = inr st' ->
    exists t, Chat.messages st' = before ++ [{| Chat.role := speaker; Chat.text := t |}].
Proof.
  intros before speaker st line st' [t Ht] H. unfold Chat.process_line in H.
  destruct (trim line); [inversion H; subst; eauto|].
  unfold Chat.line_body in H.
  destruct (parse line) as [e|chunk]; [inversion H; subst; eauto|].
  destruct (get chunk (str "text")) as [e|chunk_text]; [inversion H; subst; eauto|].
  destruct (truthy chunk_text); [|inversion H; subst; eauto].
  destruct (to_string chunk_text) as [e|x]; inversion H; subst; [eauto|].
  cbn [Chat.messages]. rewrite Ht, set_last_text_last. eauto.
Qed.

Lemma process_lines_messages :
  forall before speaker lines st st',
    (exists t, Chat.messages st = before ++ [{| Chat.role := speaker; Chat.text := t |}]) ->
    outcome (Chat.process_lines st lines) = inr st' ->
    exists t, Chat.messages st' = before ++ [{| Chat.role := speaker; Chat.text := t |}].
Proof.
  intros before speaker. induction lines as [|line rest IH]; intros st st' Hst H.
  - inversion H; subst. exact Hst.
  - cbn [Chat.process_lines] in H.
    pose proof (process_line_messages before speaker st line) as P.
    destruct (Chat.process_line st line) as [t [e|s1]]; [discriminate H|].
    specialize (P s1 Hst eq_refl). unfold bind in H.
    apply (IH s1 st' P).
    destruct (Chat.process_lines s1 rest) as [t' r]. exact H.
Qed.

Lemma read_chunks_messages :
  forall before speaker chunks st st',
    (exists t, Chat.messages st = before ++ [{| Chat.role := speaker; Chat.text := t |}]) ->
    outcome (Chat.read_chunks st chunks) = inr st' ->
    exists t, Chat.messages st' = before ++ [{| Chat.role := speaker; Chat.text := t |}].
Proof.
  intros before speaker. induction chunks as [|bytes rest IH]; intros st st' Hst H.
  - inversion H; subst. exact Hst.
  - cbn [Chat.read_chunks] in H.
    assert (P : forall s1, outcome (Chat.on_chunk st bytes) = inr s1 ->
                exists t, Chat.messages s1 =
                            before ++ [{| Chat.role := speaker; Chat.text := t |}]).
    { intros s1 H1. unfold Chat.on_chunk in H1.
      destruct (decode (Chat.decoder st) bytes) as [d decoded].
      eapply process_lines_messages; [|exact H1]. exact Hst. }
    destruct (Chat.on_chunk st bytes) as [t [e|s1]]; [discriminate H|].
    unfold bind in H. apply (IH s1 st' (P s1 eq_refl)).
    destruct (Chat.read_chunks s1 rest) as [t' r]. exact H.
Qed.

Lemma process_line_fetches :
  forall st line, fetches (journal (Chat.process_line st line)) = [].
Proof.
  intros st line. unfold Chat.process_line.
  destruct (trim line); [reflexivity|].
  destruct (Chat.line_body st line); reflexivity.
Qed.

Lemma process_lines_fetches :
  forall lines st, fetches (journal (Chat.process_lines st lines)) = [].
Proof.
  induction lines as [|line rest IH]; intro st; [reflexivity|].
  cbn [Chat.process_lines].
  pose proof (process_line_fetches st line) as P.
  destruct (Chat.process_line st line) as [t [e|s1]]; [exact P|].
  unfold bind. specialize (IH s1).
  destruct (Chat.process_lines s1 rest) as [t' r].
  unfold journal in *. cbn [fst] in *. now rewrite fetches_app, P, IH.
Qed.

Lemma read_chunks_fetches :
  forall chunks st, fetches (journal (Chat.read_chunks st chunks)) = [].
Proof.
  induction chunks as [|bytes rest IH]; intro st; [reflexivity|].
  cbn [Chat.read_chunks].
  assert (P : fetches (journal (Chat.on_chunk st bytes)) = []).
  { unfold Chat.on_chunk. destruct (decode (Chat.decoder st) bytes) as [d decoded].
    apply process_lines_fetches. }
  destruct (Chat.on_chunk st bytes) as [t [e|s1]]; [exact P|].
  unfold bind. specialize (IH s1).
  destruct (Chat.read_chunks s1 rest) as [t' r].
  unfold journal in *. cbn [fst] in *. now rewrite fetches_app, P, IH.
Qed.

(** X17. [handleSend] does nothing at all when the input is blank or an
    answer is being streamed: no request, no change of the state. Otherwise it
    makes exactly one request, the chat request with the messages so far, the
    user's message last, as history. A send button that is not disabled is
    in the second case. *)
Theorem handleSend_guard :
  forall fetch language chatError s,
    (trim (Chat.input s) = [] \/ Chat.isStreaming s = true ->
     Chat.handleSend fetch language chatError s = ([], inr s))
    /\ (trim (Chat.input s) <> [] ->
        Chat.isStreaming s = false ->
        fetches (journal (Chat.handleSend fetch language chatError s)) =
          [(str "/api/gemini", action_request (str "chat") (chat_payload language s))])
    /\ (forall isEnabled,
          send_disabled isEnabled s = false ->
          trim (Chat.input s) <> [] /\ Chat.isStreaming s = false).
Proof.
  intros fetch language chatError s. split; [|split].
  - intros [H|H]; unfold Chat.handleSend; [rewrite H; reflexivity|].
    rewrite H. destruct (trim (Chat.input s)); reflexivity.
  - intros Hin Hst. rewrite (handleSend_proceeds _ _ _ _ Hin Hst).
    destruct (streamChatResponse_cases fetch
                (VArr (map Chat.message_value (Chat.state_messages s ++ [user_message s])))
                (Chat.input s) language)
      as [(response & Hf & Hok & Hs)|(e & Hwhy & Hs)]; cbv zeta in *; rewrite Hs.
    + destruct (response_body response) as [stream|]; [|reflexivity].
      pose proof (read_chunks_fetches (stream_chunks stream)
                    (loop_start
                       ((Chat.state_messages s ++ [user_message s])
                        ++ [{| Chat.role := ChatRole_MODEL; Chat.text := [] |}]))) as R.
      destruct (Chat.read_chunks _ _) as [t' [e|st]];
        unfold journal in R; cbn [fst] in R.
      * unfold Chat.fail_chat, bind, emit, ret. cbn [journal fst app fetches].
        rewrite fetches_app, R. reflexivity.
      * destruct (stream_failure stream) as [e|].
        -- unfold Chat.fail_chat, bind, emit, ret. cbn [journal fst app fetches].
           rewrite fetches_app, R. reflexivity.
        -- cbn [journal fst app fetches]. rewrite R. reflexivity.
    + reflexivity.
  - intros isEnabled H. unfold send_disabled in H.
    apply orb_false_iff in H. destruct H as [H H3].
    apply orb_false_iff in H. destruct H as [_ H2].
    split; [|exact H2]. intro E. rewrite E in H3. discriminate H3.
Qed.

(** X18. Once past its guard [handleSend] always settles, whatever the
    network and the stream do: it returns without throwing, streaming is over
    and the input is empty. The messages there were are all kept, in order,
    and followed by one of three endings: the user's message and an answer;
    the user's message and the error message, when the stream broke; or the
    error message alone, when the stream could not be started. *)
Theorem handleSend_settles :
  forall fetch language chatError s,
    trim (Chat.input s) <> [] ->
    Chat.isStreaming s = false ->
    exists s',
      outcome (Chat.handleSend fetch language chatError s) = inr s'
      /\ Chat.isStreaming s' = false
      /\ Chat.input s' = []
      /\ ((exists answer,
             Chat.state_messages s' =
               Chat.state_messages s
               ++ [user_message s; {| Chat.role := ChatRole_MODEL; Chat.text := answer |}])
          \/ Chat.state_messages s' =
               Chat.state_messages s ++ [user_message s; error_message chatError]
          \/ Chat.state_messages s' = Chat.state_messages s ++ [error_message chatError]).
Proof.
  intros fetch language chatError s Hin Hst.
  rewrite (handleSend_proceeds _ _ _ _ Hin Hst).
  destruct (streamChatResponse_cases fetch
              (VArr (map Chat.message_value (Chat.state_messages s ++ [user_message s])))
              (Chat.input s) language)
    as [(response & Hf & Hok & Hs)|(e & Hwhy & Hs)]; cbv zeta in *; rewrite Hs.
  - destruct (response_body response) as [stream|].
    + set (start := loop_start
                      ((Chat.state_messages s ++ [user_message s])
                       ++ [{| Chat.role := ChatRole_MODEL; Chat.text := [] |}])).
      destruct (read_chunks_total (stream_chunks stream) start) as [st Hr].
      destruct (read_chunks_messages (Chat.state_messages s ++ [user_message s])
                  ChatRole_MODEL (stream_chunks stream) start st)
        as [answer Hm]; [now exists []|exact Hr|].
      destruct (Chat.read_chunks start (stream_chunks stream)) as [t' [e|st0]];
        [discriminate Hr|].
      inversion Hr; subst st0.
      destruct (stream_failure stream) as [e|].
      * rewrite Hm, fail_chat_eq. eexists. split; [reflexivity|]. repeat split.
        right. left. cbn [Chat.state_messages]. now rewrite <- app_assoc.
      * eexists. split; [reflexivity|]. repeat split.
        left. exists answer. cbn [Chat.state_messages]. now rewrite Hm, <- app_assoc.
    + rewrite fail_chat_eq. eexists. split; [reflexivity|]. repeat split.
      right. right. reflexivity.
  - rewrite fail_chat_eq. eexists. split; [reflexivity|]. repeat split.
    right. right. reflexivity.
Qed.

(** X19. When the chat cannot be started the user's own message is not
    shown: the error message takes its place after the messages there were.
    This is so when [fetch] rejects or the response is not 2xx, the failure
    then logged twice, by the service and by the view, and when a 2xx
    response has no body. *)
Theorem handleSend_start_failure :
  forall fetch language chatError s,
    trim (Chat.input s) <> [] ->
    Chat.isStreaming s = false ->
    ((exists x,
        fetch (str "/api/gemini") (action_request (str "chat") (chat_payload language s)) =
          inl x)
     \/ (exists response,
           fetch (str "/api/gemini") (action_request (str "chat") (chat_payload language s)) =
             inr response
           /\ (ok response = false \/ response_body response = None))) ->
    outcome (Chat.handleSend fetch language chatError s) =
      inr {| Chat.state_messages := Chat.state_messages s ++ [error_message chatError];
             Chat.input := []; Chat.isStreaming := false |}
    /\ exists e,
         journal (Chat.handleSend fetch language chatError s) =
           FetchCall (str "/api/gemini") (action_request (str "chat") (chat_payload language s))
           :: (if match fetch (str "/api/gemini")
                          (action_request (str "chat") (chat_payload language s)) with
                  | inr response => ok response
                  | inl _ => false
                  end
               then [ConsoleErr (str "Chat error:") None
                       {| name := Error; message := str "Could not get stream." |}]
               else [ConsoleErr (str "Chat error:") None e;
                     ConsoleErr (str "Chat error:") None chat_start_failure]).
Proof.
  intros fetch language chatError s Hin Hst Hwhy.
  rewrite (handleSend_proceeds _ _ _ _ Hin Hst).
  destruct (streamChatResponse_cases fetch
              (VArr (map Chat.message_value (Chat.state_messages s ++ [user_message s])))
              (Chat.input s) language)
    as [(response & Hf & Hok & Hs)|(e & Hwhy' & Hs)]; cbv zeta in *; rewrite Hs.
  - change (fetch (str "/api/gemini")
              (action_request (str "chat") (chat_payload language s)) = inr response) in Hf.
    rewrite Hf, Hok.
    destruct Hwhy as [[x Hx]|(r & Hr & Hcase)]; [rewrite Hf in Hx; discriminate Hx|].
    rewrite Hf in Hr. inversion Hr; subst r.
    destruct Hcase as [Hno|Hnull]; [rewrite Hok in Hno; discriminate Hno|].
    rewrite Hnull, fail_chat_eq. split; [reflexivity|].
    exists chat_start_failure. reflexivity.
  - rewrite fail_chat_eq. split; [reflexivity|]. exists e.
    destruct Hwhy' as [[x Hx]|(r & Hr & Hno)].
    + change (fetch (str "/api/gemini")
                (action_request (str "chat") (chat_payload language s)) = inl x) in Hx.
      rewrite Hx. reflexivity.
    + change (fetch (str "/api/gemini")
                (action_request (str "chat") (chat_payload language s)) = inr r) in Hr.
      rewrite Hr, Hno. reflexivity.
Qed.

(** X20. When the stream breaks after it has started, whatever part of the
    answer was shown is lost: the error message takes the place of the
    answer, after the user's message. *)
Theorem handleSend_read_failure :
  forall fetch language chatError s response stream e,
    trim (Chat.input s) <> [] ->
    Chat.isStreaming s = false ->
    fetch (str "/api/gemini") (action_request (str "chat") (chat_payload language s)) =
      inr response ->
    ok response = true ->
    response_body response = Some stream ->
    stream_failure stream = Some e ->
    outcome (Chat.handleSend fetch language chatError s) =
      inr {| Chat.state_messages :=
               Chat.state_messages s ++ [user_message s; error_message chatError];
             Chat.input := []; Chat.isStreaming := false |}
    /\ exists logged,
         journal (Chat.handleSend fetch language chatError s) =
           FetchCall (str "/api/gemini") (action_request (str "chat") (chat_payload language s))
           :: logged ++ [ConsoleErr (str "Chat error:") None e].
Proof.
  intros fetch language chatError s response stream e Hin Hst Hf Hok Hbody Hfail.
  rewrite (handleSend_proceeds _ _ _ _ Hin Hst).
  rewrite (streamChatResponse_ok fetch
             (VArr (map Chat.message_value (Chat.state_messages s ++ [user_message s])))
             (Chat.input s) language response Hf Hok), Hbody.
  set (start := loop_start
                  ((Chat.state_messages s ++ [user_message s])
                   ++ [{| Chat.role := ChatRole_MODEL; Chat.text := [] |}])).
  destruct (read_chunks_total (stream_chunks stream) start) as [st Hr].
  destruct (read_chunks_messages (Chat.state_messages s ++ [user_message s])
              ChatRole_MODEL (stream_chunks stream) start st)
    as [answer Hm]; [now exists []|exact Hr|].
  destruct (Chat.read_chunks start (stream_chunks stream)) as [t' [x|st0]];
    [discriminate Hr|].
  inversion Hr; subst st0.
  rewrite Hfail, Hm, fail_chat_eq. split.
  - cbn [outcome snd]. now rewrite <- app_assoc.
  - exists t'. reflexivity.
Qed.

End ViewMore.

(** ** From the provider's chunks to the messages of the view *)

Section EndToEnd.

Context {engine : Engine} {constants : Constants}.

Lemma stream_record_line :
  forall chunk, stream_record chunk = record_line chunk ++ [LF].
Proof.
  intros [[s|]]; [apply stream_record_text|reflexivity].
Qed.

Lemma record_line_one_line : forall chunk, ~ In LF (record_line chunk).
Proof.
  intros [[s|]]; [apply text_record_one_line|].
  intros [H|[H|[]]]; discriminate H.
Qed.

Lemma record_line_brace : forall chunk, exists r, record_line chunk = 123 :: r.
Proof.
  intros [[s|]]; unfold record_line; cbn [text].
  - rewrite text_record_shape. eauto.
  - eexists. reflexivity.
Qed.

Lemma record_safe :
  forall chunk,
    (forall t, text chunk = Some t -> is_jsstring t) ->
    well_formed (record_line chunk ++ [LF]) /\ is_jsstring (record_line chunk ++ [LF]).
Proof.
  intros [[s|]] H.
  - apply stream_record_safe. now apply H.
  - split.
    + repeat (apply wf_unit; [reflexivity|]). apply wf_nil.
    + repeat (apply Forall_cons; [reflexivity|]). apply Forall_nil.
Qed.

Lemma decode_records_between :
  forall chunks,
    Forall (fun c => forall t, text c = Some t -> is_jsstring t) chunks ->
    decode between (List.concat (map utf8_encode (map stream_record chunks))) =
      (between, join_lines (map record_line chunks)).
Proof.
  induction 1 as [|c cs Hc _ IH]; [reflexivity|].
  destruct (record_safe c Hc) as [W J].
  cbn [map List.concat]. rewrite stream_record_line, (decode_encode _ W J), IH.
  reflexivity.
Qed.

(** From the start of the stream the decoder gives out the lines of the
    records, whole. *)
Lemma decode_records :
  forall chunks,
    Forall (fun c => forall t, text c = Some t -> is_jsstring t) chunks ->
    snd (decode new_TextDecoder (List.concat (map utf8_encode (map stream_record chunks)))) =
      join_lines (map record_line chunks).
Proof.
  intros chunks H. destruct H as [|c cs Hc Hcs]; [reflexivity|].
  destruct (record_safe c Hc) as [W J].
  cbn [map List.concat]. rewrite stream_record_line.
  unfold join_lines. cbn [map List.concat]. fold (join_lines (map record_line cs)).
  destruct (record_line_brace c) as [r Hr]. rewrite Hr in *. cbn [app] in *.
  rewrite utf8_encode_ascii by lia. cbn [app].
  rewrite decode_first by lia.
  inversion W as [|? ? _ W'|? ? ? Hh]; subst; [|discriminate Hh].
  inversion J as [|? ? _ J']; subst.
  rewrite (decode_encode _ W' J'), (decode_records_between cs Hcs). reflexivity.
Qed.

Lemma process_stream_record :
  forall st chunk,
    (forall t, text chunk = Some t -> reads_back t) ->
    JSON_parse (str "{}") = inr (VObj []) ->
    Chat.process_line st (record_line chunk) = ([], inr (show_delta st (delta_of chunk))).
Proof.
  intros st [[s|]] Hs Hempty.
  - apply process_record. now apply Hs.
  - unfold record_line, delta_of. cbn [text show_delta].
    unfold Chat.process_line.
    change (trim (str "{}")) with (str "{}"). cbn iota.
    change (str "{}") with [123; 125]. cbv iota.
    unfold Chat.line_body, parse. change [123; 125] with (str "{}").
    rewrite Hempty. reflexivity.
Qed.

Lemma process_stream_records :
  forall chunks st,
    Forall (fun c => forall t, text c = Some t -> reads_back t) chunks ->
    JSON_parse (str "{}") = inr (VObj []) ->
    Chat.process_lines st (map record_line chunks) =
      ([], inr (fold_left show_delta (map delta_of chunks) st)).
Proof.
  induction chunks as [|c cs IH]; intros st H Hempty; [reflexivity|].
  inversion H as [|? ? Hc Hcs]; subst.
  cbn [map Chat.process_lines fold_left].
  rewrite (process_stream_record st c Hc Hempty). unfold bind.
  now rewrite (IH _ Hcs Hempty).
Qed.

(** The read loop on the bytes of the records of any chunks, with or without
    a text, cut in any way. *)
Lemma read_stream_records :
  forall chunks bytes before speaker,
    Forall (fun c => forall t, text c = Some t -> is_jsstring t) chunks ->
    Forall (fun c => forall t, text c = Some t -> reads_back t) chunks ->
    JSON_parse (str "{}") = inr (VObj []) ->
    List.concat bytes = List.concat (map utf8_encode (map stream_record chunks)) ->
    exists d,
      Chat.read_chunks
        (loop_start (before ++ [{| Chat.role := speaker; Chat.text := [] |}])) bytes =
        ([], inr {| Chat.decoder := d; Chat.buffer := [];
                    Chat.modelResponseText := List.concat (map delta_of chunks);
                    Chat.messages :=
                      before ++ [{| Chat.role := speaker;
                                    Chat.text := List.concat (map delta_of chunks) |}] |}).
Proof.
  intros chunks bytes before speaker Hjs Hrb Hempty Hbytes.
  set (st0 := loop_start (before ++ [{| Chat.role := speaker; Chat.text := [] |}])).
  rewrite read_chunks_concat by (intros []).
  rewrite on_chunk_as, Hbytes.
  cbn [st0 loop_start Chat.decoder Chat.buffer app]. fold st0.
  rewrite (decode_records chunks Hjs).
  rewrite <- (app_nil_r (join_lines _)).
  rewrite split_join_lines;
    [|apply Forall_forall; intros l Hl; apply in_map_iff in Hl;
      destruct Hl as [c [<- _]]; apply record_line_one_line | intros []].
  rewrite removelast_last, last_last.
  rewrite (process_stream_records chunks st0 Hrb Hempty).
  destruct (show_deltas_spec before speaker (map delta_of chunks) st0 eq_refl)
    as (_ & _ & S3 & S4).
  unfold shown in S4. cbn [st0 loop_start Chat.modelResponseText app] in S3. fold st0 in S3.
  eexists. unfold on_result, with_io. cbn [fst snd].
  rewrite S4, S3. reflexivity.
Qed.

(** The records the dispatcher has written for a chat that streamed to its
    end. *)
Lemma chat_written :
  forall env ai req key chunks,
    method req = str "POST" ->
    api_key env = Some key ->
    field (body req) (str "action") = VStr (str "chat") ->
    open_stream ai (field (body req) (str "payload")) = inr (chunks, None) ->
    written (response_of (journal (handler env ai req))) = map stream_record chunks.
Proof.
  intros env ai req key chunks Hm Hk Ha Hs.
  rewrite (handler_catches env ai req key _ Hm Hk Ha).
  rewrite dispatch_chat, case_chat_eq. unfold open_stream in Hs.
  destruct (object_coercible _) as [x|[]]; [discriminate Hs|].
  destruct (geminiHistory _) as [x|turns]; [discriminate Hs|].
  cbv zeta. rewrite Hs. cbn [journal fst].
  unfold response_of. cbn [app fold_left].
  rewrite fold_left_app, response_of_writes by reflexivity. reflexivity.
Qed.

(** X21. End to end, for a chat that streams to its end. Let the provider
    yield any chunks, some of them without a text, the texts being strings of
    16-bit code units whose records [JSON.parse] reads back; let the bytes the
    dispatcher has written reach the view cut in any way. Then [handleSend]
    logs nothing and ends with the messages there were, the user's message,
    and one answer: the texts of the chunks joined in order. A chunk without
    a text travels as an empty object and adds nothing. *)
Theorem chat_end_to_end :
  forall env ai req key chunks fetch language chatError s response stream,
    method req = str "POST" ->
    api_key env = Some key ->
    field (body req) (str "action") = VStr (str "chat") ->
    open_stream ai (field (body req) (str "payload")) = inr (chunks, None) ->
    Forall (fun c => forall t, text c = Some t -> is_jsstring t /\ reads_back t) chunks ->
    JSON_parse (str "{}") = inr (VObj []) ->
    trim (Chat.input s) <> [] ->
    Chat.isStreaming s = false ->
    fetch (str "/api/gemini") (action_request (str "chat") (chat_payload language s)) =
      inr response ->
    ok response = true ->
    response_body response = Some stream ->
    stream_failure stream = None ->
    List.concat (stream_chunks stream) =
      List.concat (map utf8_encode (written (response_of (journal (handler env ai req))))) ->
    Chat.handleSend fetch language chatError s =
      ([FetchCall (str "/api/gemini") (action_request (str "chat") (chat_payload language s))],
       inr {| Chat.state_messages :=
                Chat.state_messages s
                ++ [user_message s;
                    {| Chat.role := ChatRole_MODEL;
                       Chat.text := List.concat (map delta_of chunks) |}];
              Chat.input := []; Chat.isStreaming := false |}).
Proof.
  intros env ai req key chunks fetch language chatError s response stream
         Hm Hk Ha Hopen Hchunks Hempty Hin Hst Hf Hok Hbody Hend Hbytes.
  rewrite (chat_written env ai req key chunks Hm Hk Ha Hopen) in Hbytes.
  rewrite (handleSend_proceeds _ _ _ _ Hin Hst).
  rewrite (streamChatResponse_ok fetch
             (VArr (map Chat.message_value (Chat.state_messages s ++ [user_message s])))
             (Chat.input s) language response Hf Hok), Hbody.
  destruct (read_stream_records chunks (stream_chunks stream)
              (Chat.state_messages s ++ [user_message s]) ChatRole_MODEL)
    as [d Hr].
  - eapply Forall_impl; [|exact Hchunks]. intros c H t Ht. now apply (H t Ht).
  - eapply Forall_impl; [|exact Hchunks]. intros c H t Ht. now apply (H t Ht).
  - exact Hempty.
  - exact Hbytes.
  - rewrite Hr, Hend. cbn [Chat.messages app]. now rewrite <- app_assoc.
Qed.

End EndToEnd.

Section ChatMoreRuns.

#[local] Existing Instance Reference.engine.
#[local] Existing Instance Reference.constants.

(** X15 at the bytes of a greeting, seven at a time and all at once. *)
Lemma read_chunks_regroup_witness :
  Chat.read_chunks Scenario.waiting Scenario.greeting_chunks =
    Chat.read_chunks Scenario.waiting [Scenario.greeting_bytes].
Proof.
  refine (proj1 (read_chunks_regroup Scenario.waiting Scenario.greeting_chunks
                   [Scenario.greeting_bytes] _ _)).
  - intros [].
  - vm_compute. reflexivity.
Defined.

(** X16 at a record that its line feed does not follow. *)
Lemma read_chunks_waits_for_line_feed_witness :
  journal (Chat.read_chunks Scenario.waiting Cases.half_record) = []
  /\ exists st,
       outcome (Chat.read_chunks Scenario.waiting Cases.half_record) = inr st
       /\ Chat.messages st = Chat.messages Scenario.waiting
       /\ Chat.modelResponseText st = [].
Proof.
  destruct (read_chunks_waits_for_line_feed Scenario.waiting Cases.half_record)
    as [H _].
  - left. reflexivity.
  - intros [].
  - vm_compute. intuition discriminate.
  - rewrite H. split; [reflexivity|]. eexists. split; [reflexivity|].
    split; reflexivity.
Defined.

(** X18 with the network down. *)
Lemma handleSend_settles_witness :
  exists s',
    outcome (Chat.handleSend Scenario.no_network (str "en") (str "Sorry.") Cases.asking) =
      inr s'
    /\ Chat.isStreaming s' = false
    /\ Chat.input s' = [].
Proof.
  destruct (handleSend_settles Scenario.no_network (str "en") (str "Sorry.") Cases.asking)
    as (s' & H1 & H2 & H3 & _).
  - discriminate.
  - reflexivity.
  - exists s'. repeat split; assumption.
Defined.

(** X19 at a backend that answers 500. *)
Lemma handleSend_start_failure_witness :
  outcome (Chat.handleSend
             (Scenario.backend 500 (str "Internal Server Error")
                (inr (VObj [(str "error", VStr (str "boom"))])) None)
             (str "en") (str "Sorry.") Cases.asking) =
    inr {| Chat.state_messages :=
             Chat.state_messages Cases.asking ++ [error_message (str "Sorry.")];
           Chat.input := []; Chat.isStreaming := false |}.
Proof.
  refine (proj1 (handleSend_start_failure
                   (Scenario.backend 500 (str "Internal Server Error")
                      (inr (VObj [(str "error", VStr (str "boom"))])) None)
                   (str "en") (str "Sorry.") Cases.asking _ eq_refl _)).
  - discriminate.
  - right. eexists. split; [reflexivity|]. left. reflexivity.
Defined.

(** X20 at a stream that breaks after three records. *)
Lemma handleSend_read_failure_witness :
  outcome (Chat.handleSend
             (Scenario.backend 200 (str "OK") (inl Scenario.unavailable)
                (Some Cases.broken))
             (str "en") (str "Sorry.") Cases.asking) =
    inr {| Chat.state_messages :=
             Chat.state_messages Cases.asking
             ++ [user_message Cases.asking; error_message (str "Sorry.")];
           Chat.input := []; Chat.isStreaming := false |}.
Proof.
  refine (proj1 (handleSend_read_failure
                   (Scenario.backend 200 (str "OK") (inl Scenario.unavailable)
                      (Some Cases.broken))
                   (str "en") (str "Sorry.") Cases.asking
                   {| status := 200; statusText := str "OK";
                      json := inl Scenario.unavailable;
                      response_body := Some Cases.broken |}
                   Cases.broken Scenario.unavailable _ eq_refl eq_refl eq_refl eq_refl
                   eq_refl)).
  discriminate.
Defined.

(** X21 at three chunks, the second one without a text, the bytes arriving
    five at a time. *)
Lemma chat_end_to_end_witness :
  outcome (Chat.handleSend
             (Scenario.backend 200 (str "OK") (inl Scenario.unavailable)
                (Some {| stream_chunks := Cases.mixed_chunks; stream_failure := None |}))
             (str "en") (str "Sorry.") Cases.asking) =
    inr {| Chat.state_messages :=
             Chat.state_messages Cases.asking
             ++ [user_message Cases.asking;
                 {| Chat.role := ChatRole_MODEL; Chat.text := str "Hello" |}];
           Chat.input := []; Chat.isStreaming := false |}.
Proof.
  rewrite (chat_end_to_end Scenario.configured (Cases.streaming Cases.mixed)
             (Scenario.request (str "POST") (str "chat") Scenario.question)
             Scenario.key (map (fun t => {| text := t |}) Cases.mixed)
             (Scenario.backend 200 (str "OK") (inl Scenario.unavailable)
                (Some {| stream_chunks := Cases.mixed_chunks; stream_failure := None |}))
             (str "en") (str "Sorry.") Cases.asking
             {| status := 200; statusText := str "OK";
                json := inl Scenario.unavailable;
                response_body :=
                  Some {| stream_chunks := Cases.mixed_chunks; stream_failure := None |} |}
             {| stream_chunks := Cases.mixed_chunks; stream_failure := None |}).
  - reflexivity.
  - reflexivity.
  - reflexivity.
  - reflexivity.
  - reflexivity.
  - repeat (apply Forall_cons;
            [intros t Ht; simpl in Ht;
             first [discriminate Ht
                   |inversion Ht; subst;
                    split; [repeat (apply Forall_cons; [reflexivity|]); apply Forall_nil
                           |reflexivity]]|]).
    apply Forall_nil.
  - reflexivity.
  - discriminate.
  - reflexivity.
  - reflexivity.
  - reflexivity.
  - reflexivity.
  - reflexivity.
  - vm_compute. reflexivity.
Defined.

End ChatMoreRuns.
